(** * kafkajs: the cluster coordination core

    A shallow embedding of [src/cluster/index.js] (class [Cluster]) and of
    the consumer's [SubscriptionState] class, with the properties of the
    specification proved about them.

    Conventions of the embedding.
    - JavaScript numbers that the code uses as identifiers (partition ids,
      node ids, error codes) are integers, modelled by [Z].
    - A JavaScript [Set] is the list of its elements in insertion order.
    - A JavaScript object used as a dictionary is the list of its own
      properties in the order [Object.keys] enumerates them: array-index keys
      in ascending numeric order, then the other keys in creation order.
      Where the code reads a property whose name the object inherits from
      [Object.prototype], or assigns to [__proto__], the embedding says so
      with [inherited] and [assign]; the statements about code that the
      embedding follows for other names only carry [inherited] as a
      hypothesis.
    - A method that can throw returns an [Outcome]; an [async] method is a
      computation of [Async], which threads the cluster, the state of the
      broker pool behind it and the log of the calls made to collaborators,
      in the order in which they take effect.

    The file has two parts: the embedding, then the lemmas and theorems. *)

From Stdlib Require Import List ZArith NArith String Ascii Bool Lia.
From Stdlib Require Import DecimalString.
From Stdlib Require Import Permutation.
Import ListNotations.

Set Implicit Arguments.

Local Open Scope string_scope.
Local Open Scope list_scope.
Local Open Scope Z_scope.

(* ================================================================== *)
(** * Part I: the embedding *)

(* ------------------------------------------------------------------ *)
(** ** Equality of JavaScript values used as elements and keys *)

Class Eqb (A : Type) := {
  eqb : A -> A -> bool;
  eqb_eq : forall a b, eqb a b = true <-> a = b
}.

#[global] Instance Eqb_Z : Eqb Z := {| eqb := Z.eqb; eqb_eq := Z.eqb_eq |}.

#[global] Instance Eqb_string : Eqb string :=
  {| eqb := String.eqb; eqb_eq := String.eqb_eq |}.

(* ------------------------------------------------------------------ *)
(** ** JavaScript [Set]: elements in insertion order *)

Module JSSet.

Definition t (A : Type) : Type := list A.

Section Elements.
Context {A : Type} `{Eqb A}.

(** [new Set()] *)
Definition empty : t A := [].

(** [s.has(x)]; also [xs.includes(x)] on an array *)
Definition has (s : t A) (x : A) : bool := existsb (eqb x) s.

(** [s.add(x)] *)
Definition add (x : A) (s : t A) : t A := if has s x then s else s ++ [x].

(** [s.delete(x)] *)
Definition delete (x : A) (s : t A) : t A :=
  filter (fun y => negb (eqb x y)) s.

(** [s.clear()] *)
Definition clear (s : t A) : t A := [].

(** [s.size] *)
Definition size (s : t A) : nat := List.length s.

(** [Array.from(s.values())], [Array.from(s)] *)
Definition elements (s : t A) : list A := s.

(** [xs.forEach(x => s.add(x))] *)
Definition add_all (xs : list A) (s : t A) : t A :=
  fold_left (fun acc x => add x acc) xs s.

(** [xs.forEach(x => s.delete(x))] *)
Definition delete_all (xs : list A) (s : t A) : t A :=
  fold_left (fun acc x => delete x acc) xs s.

End Elements.
End JSSet.

(* ------------------------------------------------------------------ *)
(** ** JavaScript objects used as dictionaries *)

(** A property key is compared by [eqb]; [array_index k] is [Some n] when the
    key, as a string, is the canonical decimal form of an integer
    [0 <= n < 2^32 - 1]. Such keys are enumerated first, in ascending
    order. *)
Class PropertyKey (K : Type) := {
  array_index : K -> option N
}.

(** A number used as a key: [ToString] of an integer is its decimal form. *)
#[global] Instance PropertyKey_Z : PropertyKey Z := {|
  array_index := fun z : Z =>
    if (0 <=? z) && (z <? 2 ^ 32 - 1) then Some (Z.to_N z) else None
|}.

Definition digit (c : ascii) : option N :=
  let n := N_of_ascii c in
  if ((48 <=? n) && (n <=? 57))%N then Some (n - 48)%N else None.

Fixpoint digits (s : string) (acc : N) : option N :=
  match s with
  | EmptyString => Some acc
  | String c s' =>
      match digit c with
      | Some d => digits s' (10 * acc + d)%N
      | None => None
      end
  end.

Definition string_array_index (s : string) : option N :=
  match s with
  | EmptyString => None
  | String c EmptyString => digit c
  | String c _ =>
      if Ascii.eqb c "0"%char then None
      else match digits s 0 with
           | Some n => if (n <? 2 ^ 32 - 1)%N then Some n else None
           | None => None
           end
  end.

#[global] Instance PropertyKey_string : PropertyKey string := {|
  array_index := string_array_index
|}.

Module JSObject.

(** Own properties, in enumeration order. *)
Definition object (K V : Type) : Type := list (K * V).

Section Own.
Context {K V : Type} `{Eqb K} `{PropertyKey K}.

(** [{}] *)
Definition empty_object : object K V := [].

(** The own property [k] of [o], [None] when [o] has none. This is [o[k]]
    for an object without prototype, and for an object literal when [k] is
    not the name of a property of [Object.prototype]; see [inherited]
    below for the other keys. *)
Fixpoint get (o : object K V) (k : K) : option V :=
  match o with
  | [] => None
  | (k', v) :: o' => if eqb k k' then Some v else get o' k
  end.

Definition hasOwn (o : object K V) (k : K) : bool :=
  match get o k with Some _ => true | None => false end.

(** Assignment to an existing property keeps its place. *)
Fixpoint replace (k : K) (v : V) (o : object K V) : object K V :=
  match o with
  | [] => []
  | (k', v') :: o' =>
      if eqb k k' then (k', v) :: o' else (k', v') :: replace k v o'
  end.

Definition index_before (n : N) (k' : K) : bool :=
  match array_index k' with
  | Some m => (n <? m)%N
  | None => true
  end.

Fixpoint insert_index (n : N) (k : K) (v : V) (o : object K V) : object K V :=
  match o with
  | [] => [(k, v)]
  | (k', v') :: o' =>
      if index_before n k' then (k, v) :: (k', v') :: o'
      else (k', v') :: insert_index n k v o'
  end.

(** A new property: an array index goes to its numeric place, any other
    key goes last. *)
Definition create (k : K) (v : V) (o : object K V) : object K V :=
  match array_index k with
  | Some n => insert_index n k v o
  | None => o ++ [(k, v)]
  end.

(** [o[k] = v], and also [{ ...o, [k]: v }] *)
Definition set (k : K) (v : V) (o : object K V) : object K V :=
  if hasOwn o k then replace k v o else create k v o.

(** [Object.keys(o)] *)
Definition keys (o : object K V) : list K := map fst o.

(** [Object.values(o)] *)
Definition values (o : object K V) : list V := map snd o.

(** The object with the same keys whose values are those of [o] through
    [g]. *)
Definition mapValues {W : Type} (g : V -> W) (o : object K V) : object K W :=
  map (fun '(k, v) => (k, g v)) o.

End Own.
End JSObject.

(* ------------------------------------------------------------------ *)
(** ** What an object literal inherits *)

(** The names of the properties of [Object.prototype]. For such a name,
    [o[k]] on an object [o] without own property [k] is a function, or the
    prototype of [o] for [__proto__]: a truthy value that is neither
    iterable nor has any of the properties that the code reads. *)
Definition Object_prototype : list string :=
  [ "constructor"; "__defineGetter__"; "__defineSetter__"; "hasOwnProperty";
    "__lookupGetter__"; "__lookupSetter__"; "isPrototypeOf";
    "propertyIsEnumerable"; "toString"; "valueOf"; "__proto__";
    "toLocaleString" ].

Definition inherited (k : string) : bool :=
  existsb (String.eqb k) Object_prototype.

(** [o[k] = v] for an object [v]: the assignment to [__proto__] sets the
    prototype of [o] and creates no own property. *)
Definition assign {V : Type} (k : string) (v : V)
  (o : JSObject.object string V) : JSObject.object string V :=
  if String.eqb k "__proto__" then o else JSObject.set k v o.

(* ------------------------------------------------------------------ *)
(** ** Errors and outcomes *)

(** What the code reads of an error object: [e.name], [e.message] and
    [e.code]. *)
Record JSError := {
  name : string;
  message : string;
  code : option string
}.

(** The error classes of [../errors] are not among the sources at hand.
    Each carries its class name as [name]; the kinds of the specification
    are these names without the [KafkaJS] prefix, and
    [InvalidPartitionMetadata] is the plain [KafkaJSError] that
    [findLeaderForPartitions] raises. *)

(** Modelled from the spec: the class [KafkaJSError] of [../errors], the
    base of the other kinds. *)
Definition KafkaJSError (msg : string) : JSError :=
  {| name := "KafkaJSError"; message := msg; code := None |}.

(** Modelled from the spec: the class [KafkaJSNonRetriableError] of
    [../errors], the kind [NonRetriable]. *)
Definition KafkaJSNonRetriableError (msg : string) : JSError :=
  {| name := "KafkaJSNonRetriableError"; message := msg; code := None |}.

(** Modelled from the spec: the class [KafkaJSBrokerNotFound] of
    [../errors], the kind [BrokerNotFound]. *)
Definition KafkaJSBrokerNotFound (msg : string) : JSError :=
  {| name := "KafkaJSBrokerNotFound"; message := msg; code := None |}.

(** Modelled from the spec: the class [KafkaJSMetadataNotLoaded] of
    [../errors], the kind [MetadataNotLoaded]. *)
Definition KafkaJSMetadataNotLoaded (msg : string) : JSError :=
  {| name := "KafkaJSMetadataNotLoaded"; message := msg; code := None |}.

(** Modelled from the spec: the class [KafkaJSTopicMetadataNotLoaded] of
    [../errors], the kind [TopicMetadataNotLoaded]. *)
Definition KafkaJSTopicMetadataNotLoaded (msg : string) : JSError :=
  {| name := "KafkaJSTopicMetadataNotLoaded"; message := msg; code := None |}.

(** The runtime's error on a property access on [null] or [undefined]. *)
Definition TypeError (msg : string) : JSError :=
  {| name := "TypeError"; message := msg; code := None |}.

Inductive Outcome (A : Type) : Type :=
| Returned (a : A)
| Thrown (e : JSError).
Arguments Returned {A} a.
Arguments Thrown {A} e.

(** The outcome is an error of the given kind. *)
Definition fails_with {A} (kind : string) (o : Outcome A) : Prop :=
  exists e, o = Thrown e /\ name e = kind.

(** The kinds of the specification, as the names of their classes. *)
Definition NonRetriable : string := "KafkaJSNonRetriableError".

Definition MetadataNotLoaded : string := "KafkaJSMetadataNotLoaded".

Definition TopicMetadataNotLoaded : string := "KafkaJSTopicMetadataNotLoaded".

Definition BrokerNotFound : string := "KafkaJSBrokerNotFound".

(** An [InvalidPartitionMetadata] failure. *)
Definition InvalidPartitionMetadata {A} (o : Outcome A) : Prop :=
  o = Thrown (KafkaJSError "Invalid partition metadata").

(** Sequencing of code that may throw. *)
Definition obind {A B} (o : Outcome A) (k : A -> Outcome B) : Outcome B :=
  match o with
  | Returned a => k a
  | Thrown e => Thrown e
  end.

(** [xs.reduce(f, init)] where [f] may throw. *)
Fixpoint reduce {A B} (f : B -> A -> Outcome B) (xs : list A) (init : B)
  : Outcome B :=
  match xs with
  | [] => Returned init
  | x :: xs' => obind (f init x) (reduce f xs')
  end.

(** [xs.map(f)] where [f] may throw. *)
Fixpoint map_outcome {A B} (f : A -> Outcome B) (xs : list A)
  : Outcome (list B) :=
  match xs with
  | [] => Returned []
  | x :: xs' =>
      obind (f x) (fun y => obind (map_outcome f xs') (fun ys => Returned (y :: ys)))
  end.

(* ------------------------------------------------------------------ *)
(** ** [SubscriptionState] *)

(** The class on the own properties of [pausedPartitionsByTopic]: the code
    for topics that are not names of properties of [Object.prototype]
    ([inherited]). [SubscriptionStateObject] below gives the methods on
    every topic, and agrees with these on the other topics. *)
Module SubscriptionState.

(** The [partitions] property of an entry of the argument. *)
Inductive Partitions : Type :=
| Undefined                 (* the property is absent *)
| Array (ps : list Z)       (* [Array.isArray(partitions)] *)
| NotAnArray.               (* any other value, such as [null] *)

(** An entry [{ topic, partitions }] of the argument of [pause] and
    [resume]. *)
Record TopicPartitions := {
  topic : string;
  partitions : Partitions
}.

(** A value of [pausedPartitionsByTopic]. [pf_all] is [None] when the
    object has no [all] property: [resume] creates such entries. *)
Record PausedForTopic := {
  pf_topic : string;
  pf_partitions : JSSet.t Z;
  pf_all : option bool
}.

(** An element of the array that [paused()] returns. *)
Record PausedTopic := {
  p_topic : string;
  p_partitions : list Z;
  p_all : option bool
}.

(** Truthiness of the [all] property. *)
Definition truthy (all : option bool) : bool :=
  match all with
  | Some true => true
  | _ => false
  end.

(** [this.pausedPartitionsByTopic] *)
Definition state : Type := JSObject.object string PausedForTopic.

Definition constructor : state := JSObject.empty_object.

(** The callback of [topicPartitions.forEach] in [pause]. *)
Definition pause_entry (this : state) (tp : TopicPartitions) : state :=
  let pausedForTopic :=
    match JSObject.get this (topic tp) with
    | Some paused => paused
    | None =>
        {| pf_topic := topic tp; pf_partitions := JSSet.empty;
           pf_all := Some false |}
    end in
  let pausedForTopic :=
    match partitions tp with
    | Undefined =>
        {| pf_topic := pf_topic pausedForTopic;
           pf_partitions := JSSet.clear (pf_partitions pausedForTopic);
           pf_all := Some true |}
    | Array ps =>
        {| pf_topic := pf_topic pausedForTopic;
           pf_partitions := JSSet.add_all ps (pf_partitions pausedForTopic);
           pf_all := Some false |}
    | NotAnArray => pausedForTopic
    end in
  JSObject.set (topic tp) pausedForTopic this.

Definition pause (topicPartitions : list TopicPartitions) (this : state)
  : state :=
  fold_left pause_entry topicPartitions this.

(** The callback of [topicPartitions.forEach] in [resume]. *)
Definition resume_entry (this : state) (tp : TopicPartitions)
  : Outcome state :=
  let pausedForTopic :=
    match JSObject.get this (topic tp) with
    | Some paused => paused
    | None =>
        {| pf_topic := topic tp; pf_partitions := JSSet.empty;
           pf_all := None |}
    end in
  match partitions tp with
  | Undefined =>
      Returned
        (JSObject.set (topic tp)
           {| pf_topic := pf_topic pausedForTopic;
              pf_partitions := JSSet.clear (pf_partitions pausedForTopic);
              pf_all := Some false |} this)
  | Array ps =>
      if negb (truthy (pf_all pausedForTopic)) then
        Returned
          (JSObject.set (topic tp)
             {| pf_topic := pf_topic pausedForTopic;
                pf_partitions :=
                  JSSet.delete_all ps (pf_partitions pausedForTopic);
                pf_all := pf_all pausedForTopic |} this)
      else
        Thrown
          (KafkaJSNonRetriableError
             "Can not resume specific partitions of topic when entire topic was paused before")
  | NotAnArray => Returned (JSObject.set (topic tp) pausedForTopic this)
  end.

(** [resume]: the entries are handled in order; an error leaves the state
    as the entries before it made it. *)
Fixpoint resume (topicPartitions : list TopicPartitions) (this : state)
  : Outcome unit * state :=
  match topicPartitions with
  | [] => (Returned tt, this)
  | tp :: rest =>
      match resume_entry this tp with
      | Returned this' => resume rest this'
      | Thrown e => (Thrown e, this)
      end
  end.

Definition paused (this : state) : list PausedTopic :=
  map (fun pausedForTopic =>
         {| p_topic := pf_topic pausedForTopic;
            p_partitions := JSSet.elements (pf_partitions pausedForTopic);
            p_all := pf_all pausedForTopic |})
      (JSObject.values this).

Definition isPaused (this : state) (topic : string) (partition : Z) : bool :=
  match JSObject.get this topic with
  | Some paused =>
      truthy (pf_all paused) || JSSet.has (pf_partitions paused) partition
  | None => false
  end.

(** The methods of the class as operations on an instance. *)
Inductive Operation : Type :=
| Pause (topicPartitions : list TopicPartitions)
| Resume (topicPartitions : list TopicPartitions)
| Paused
| IsPaused (topic : string) (partition : Z).

(** The state an operation leaves; [paused] and [isPaused] assign
    nothing. *)
Definition perform (this : state) (op : Operation) : state :=
  match op with
  | Pause tps => pause tps this
  | Resume tps => snd (resume tps this)
  | Paused => this
  | IsPaused _ _ => this
  end.

Definition run (ops : list Operation) (this : state) : state :=
  fold_left perform ops this.

(** The states an instance can be in. *)
Definition reachable (this : state) : Prop :=
  exists ops, this = run ops constructor.

(** Whenever [all] is true the partition set is empty. *)
Definition all_implies_empty (this : state) : Prop :=
  forall paused, In paused (JSObject.values this) ->
    pf_all paused = Some true -> pf_partitions paused = [].

(** The topic is in the [all = true] paused state. *)
Definition paused_entirely (this : state) (topic : string) : Prop :=
  exists paused,
    JSObject.get this topic = Some paused /\ pf_all paused = Some true.

(** The entry [{ topic: t }]. *)
Definition entirely (t : string) : TopicPartitions :=
  {| topic := t; partitions := Undefined |}.

(** The entry [{ topic: t, partitions: ps }]. *)
Definition only (t : string) (ps : list Z) : TopicPartitions :=
  {| topic := t; partitions := Array ps |}.

(** The entry names an explicit list of partitions. *)
Definition names_partitions (tp : TopicPartitions) : Prop :=
  exists ps, partitions tp = Array ps.

End SubscriptionState.
(* ------------------------------------------------------------------ *)
(** ** [SubscriptionState] on an object with its prototype *)

(** [pausedPartitionsByTopic] is an object literal: for a topic that is the
    name of a property of [Object.prototype] and that the instance has not
    stored, [pausedPartitionsByTopic[topic]] is the inherited value. The
    methods are given here on every topic; on the other topics they are the
    methods of [SubscriptionState] above. *)
Module SubscriptionStateObject.
Import SubscriptionState.

(** A value that [pausedPartitionsByTopic[topic]] evaluates to: an entry
    made by [pause] or [resume], or a value of [Object.prototype], which is
    truthy and has no [partitions]. *)
Inductive Slot : Type :=
| Entry (paused : PausedForTopic)
| Builtin.

(** The instance: the own properties of [pausedPartitionsByTopic], and
    whether [Object.prototype] has been given the property [all], which is
    [false] then. *)
Record instance := {
  own : JSObject.object string Slot;
  prototype_all : bool
}.

Definition new_instance : instance :=
  {| own := JSObject.empty_object; prototype_all := false |}.

(** [this.pausedPartitionsByTopic[topic]] *)
Definition read (this : instance) (topic : string) : option Slot :=
  match JSObject.get (own this) topic with
  | Some slot => Some slot
  | None => if inherited topic then Some Builtin else None
  end.

(** [this.pausedPartitionsByTopic[topic] = slot] *)
Definition write (topic : string) (slot : Slot) (this : instance) : instance :=
  {| own := assign topic slot (own this);
     prototype_all := prototype_all this |}.

(** [pausedForTopic.all = false] on an inherited value: the value that
    [__proto__] gives is [Object.prototype] itself. *)
Definition clear_all (topic : string) (this : instance) : instance :=
  {| own := own this;
     prototype_all := String.eqb topic "__proto__" || prototype_all this |}.

(** The callback of [topicPartitions.forEach] in [pause]. *)
Definition pause_slot (this : instance) (tp : TopicPartitions)
  : Outcome instance :=
  let pausedForTopic :=
    match read this (topic tp) with
    | Some slot => slot
    | None =>
        Entry {| pf_topic := topic tp; pf_partitions := JSSet.empty;
                 pf_all := Some false |}
    end in
  match partitions tp, pausedForTopic with
  | Undefined, Entry paused =>
      Returned
        (write (topic tp)
           (Entry {| pf_topic := pf_topic paused;
                     pf_partitions := JSSet.clear (pf_partitions paused);
                     pf_all := Some true |}) this)
  | Undefined, Builtin =>
      Thrown (TypeError "Cannot read properties of undefined (reading 'clear')")
  | Array ps, Entry paused =>
      Returned
        (write (topic tp)
           (Entry {| pf_topic := pf_topic paused;
                     pf_partitions := JSSet.add_all ps (pf_partitions paused);
                     pf_all := Some false |}) this)
  | Array [], Builtin =>
      Returned (write (topic tp) Builtin (clear_all (topic tp) this))
  | Array (_ :: _), Builtin =>
      Thrown (TypeError "Cannot read properties of undefined (reading 'add')")
  | NotAnArray, slot => Returned (write (topic tp) slot this)
  end.

(** [pause]: the entries are handled in order; an error leaves the
    instance as the entries before it made it. *)
Fixpoint pause_object (topicPartitions : list TopicPartitions)
  (this : instance) : Outcome unit * instance :=
  match topicPartitions with
  | [] => (Returned tt, this)
  | tp :: rest =>
      match pause_slot this tp with
      | Returned this' => pause_object rest this'
      | Thrown e => (Thrown e, this)
      end
  end.

(** The callback of [topicPartitions.forEach] in [resume]. The [all] of an
    inherited value is absent or [false]. *)
Definition resume_slot (this : instance) (tp : TopicPartitions)
  : Outcome instance :=
  let pausedForTopic :=
    match read this (topic tp) with
    | Some slot => slot
    | None =>
        Entry {| pf_topic := topic tp; pf_partitions := JSSet.empty;
                 pf_all := None |}
    end in
  match partitions tp, pausedForTopic with
  | Undefined, Entry paused =>
      Returned
        (write (topic tp)
           (Entry {| pf_topic := pf_topic paused;
                     pf_partitions := JSSet.clear (pf_partitions paused);
                     pf_all := Some false |}) this)
  | Undefined, Builtin =>
      Thrown (TypeError "Cannot read properties of undefined (reading 'clear')")
  | Array ps, Entry paused =>
      if negb (truthy (pf_all paused)) then
        Returned
          (write (topic tp)
             (Entry {| pf_topic := pf_topic paused;
                       pf_partitions :=
                         JSSet.delete_all ps (pf_partitions paused);
                       pf_all := pf_all paused |}) this)
      else
        Thrown
          (KafkaJSNonRetriableError
             "Can not resume specific partitions of topic when entire topic was paused before")
  | Array [], Builtin => Returned (write (topic tp) Builtin this)
  | Array (_ :: _), Builtin =>
      Thrown (TypeError "Cannot read properties of undefined (reading 'delete')")
  | NotAnArray, slot => Returned (write (topic tp) slot this)
  end.

Fixpoint resume_object (topicPartitions : list TopicPartitions)
  (this : instance) : Outcome unit * instance :=
  match topicPartitions with
  | [] => (Returned tt, this)
  | tp :: rest =>
      match resume_slot this tp with
      | Returned this' => resume_object rest this'
      | Thrown e => (Thrown e, this)
      end
  end.

(** [paused()]: the [all] of an entry without its own is the one of
    [Object.prototype]; a stored inherited value has no [partitions]. *)
Definition paused_object (this : instance) : Outcome (list PausedTopic) :=
  map_outcome
    (fun slot =>
       match slot with
       | Entry paused =>
           Returned
             {| p_topic := pf_topic paused;
                p_partitions := JSSet.elements (pf_partitions paused);
                p_all :=
                  match pf_all paused with
                  | Some all => Some all
                  | None => if prototype_all this then Some false else None
                  end |}
       | Builtin =>
           Thrown
             (TypeError "Cannot read properties of undefined (reading 'values')")
       end)
    (JSObject.values (own this)).

Definition isPaused_object (this : instance) (topic : string) (partition : Z)
  : Outcome bool :=
  match read this topic with
  | None => Returned false
  | Some (Entry paused) =>
      Returned
        (truthy (pf_all paused) || JSSet.has (pf_partitions paused) partition)
  | Some Builtin =>
      Thrown (TypeError "Cannot read properties of undefined (reading 'has')")
  end.

(** The instance whose own properties are the entries of a state of
    [SubscriptionState]. *)
Definition of_state (this : state) : instance :=
  {| own := JSObject.mapValues Entry this; prototype_all := false |}.

(** None of the entries names a property of [Object.prototype]. *)
Definition ordinary (topicPartitions : list TopicPartitions) : Prop :=
  forall tp, In tp topicPartitions -> inherited (topic tp) = false.

(** The instance an operation leaves: a method that throws leaves it as
    the entries before the failing one made it; [paused] and [isPaused]
    assign nothing. *)
Definition perform_object (this : instance) (op : Operation) : instance :=
  match op with
  | Pause tps => snd (pause_object tps this)
  | Resume tps => snd (resume_object tps this)
  | Paused => this
  | IsPaused _ _ => this
  end.

Definition run_object (ops : list Operation) (this : instance) : instance :=
  fold_left perform_object ops this.

(** Whenever the [all] of a stored entry is true its partition set is
    empty. *)
Definition all_implies_empty_object (this : instance) : Prop :=
  forall paused, In (Entry paused) (JSObject.values (own this)) ->
    pf_all paused = Some true -> pf_partitions paused = [].

End SubscriptionStateObject.


(* ------------------------------------------------------------------ *)
(** ** [Cluster] *)

Module Cluster.

(** Modelled from the spec: the offset sentinels of [../constants], which
    is not among the sources at hand (EARLIEST = -2, LATEST = -1). *)
Definition EARLIEST_OFFSET : Z := -2.

Definition LATEST_OFFSET : Z := -1.

(** *** The metadata snapshot *)

(** [leader] is [None] when the field is [null] or [undefined]. *)
Record PartitionMetadata := {
  partitionId : Z;
  leader : option Z;
  replicas : list Z;
  isr : list Z;
  partitionErrorCode : Z
}.

Record TopicMetadata := {
  tm_topic : string;
  topicErrorCode : Z;
  partitionMetadata : list PartitionMetadata
}.

(** [controllerId] and [topicMetadata] are [None] when [null] or
    [undefined]. *)
Record Metadata := {
  controllerId : option Z;
  topicMetadata : option (list TopicMetadata)
}.

(** *** The shapes of [fetchTopicsOffset] *)

(** The argument: [[{ topic, partitions: [{ partition }], fromBeginning }]];
    [fromBeginning] is the truthiness of the property. *)
Record PartitionDescriptor := {
  partition : Z
}.

Record TopicData := {
  topic : string;
  partitions : list PartitionDescriptor;
  fromBeginning : bool
}.

(** The argument of [broker.listOffsets]. *)
Record ListOffsetsPartition := {
  lp_partition : Z;
  timestamp : Z
}.

Record ListOffsetsTopic := {
  lt_topic : string;
  lt_partitions : list ListOffsetsPartition
}.

Record ListOffsetsArgs := {
  lo_isolationLevel : Z;
  lo_topics : list ListOffsetsTopic
}.

(** The [responses] of [broker.listOffsets]; [r_offset] is [None] when
    the response carries no offset. *)
Record PartitionOffsetResponse := {
  r_partition : Z;
  r_offset : option string;
  errorCode : Z
}.

Record TopicOffsetsResponse := {
  r_topic : string;
  r_partitions : list PartitionOffsetResponse
}.

(** The result: [[{ topic, partitions: [{ partition, offset }] }]]. *)
Record PartitionOffset := {
  o_partition : Z;
  o_offset : option string
}.

Record TopicOffsets := {
  o_topic : string;
  o_partitions : list PartitionOffset
}.

(** *** The collaborators *)

(** The broker pool and the brokers are not among the sources at hand:
    they are taken as an interface. [Pool] is the state of the pool and of
    what lies behind it, [Broker] a handle on a connected broker; an
    operation returns its outcome and the state it leaves. A falsy broker is
    [None]. *)
Class BrokerPool (Pool Broker : Type) := {
  (** [brokerPool.metadata]; [None] when no snapshot is installed *)
  bp_metadata : Pool -> option Metadata;
  (** [brokerPool.refreshMetadata(topics)] *)
  bp_refreshMetadata : list string -> Pool -> Outcome unit * Pool;
  (** [brokerPool.findBroker({ nodeId })] *)
  bp_findBroker : Z -> Pool -> Outcome (option Broker) * Pool;
  (** [broker.listOffsets({ isolationLevel, topics })], its [responses] *)
  broker_listOffsets :
    Broker -> ListOffsetsArgs -> Pool ->
    Outcome (list TopicOffsetsResponse) * Pool
}.

(** A call made to a collaborator. *)
Inductive Call (Broker : Type) : Type :=
| RefreshMetadata (topics : list string)
| FindBroker (nodeId : Z)
| ListOffsets (broker : Broker) (args : ListOffsetsArgs).
Arguments RefreshMetadata {Broker} topics.
Arguments FindBroker {Broker} nodeId.
Arguments ListOffsets {Broker} broker args.

Definition is_refresh {Broker} (c : Call Broker) : bool :=
  match c with RefreshMetadata _ => true | _ => false end.

(** The fields of a [Cluster] that the methods below use. *)
Record Cluster (Pool : Type) := {
  targetTopics : JSSet.t string;
  isolationLevel : Z;
  brokerPool : Pool
}.

(** The cluster together with the calls made so far, oldest first. *)
Record World (Pool Broker : Type) := {
  cluster : Cluster Pool;
  calls : list (Call Broker)
}.

(** An [async] method: from the world to its outcome and the world it
    leaves. *)
Definition Async (Pool Broker : Type) (A : Type) : Type :=
  World Pool Broker -> Outcome A * World Pool Broker.

(** *** Pure helpers *)

(** [ToString] of an integer number, as a template literal applies it. *)
Definition toString (z : Z) : string := NilZero.string_of_int (Z.to_int z).

(** [parseInt(id, 10)] of an integer number is that number. *)
Definition parseInt (id : Z) : Z := id.

(** Modelled from the spec: [../utils/flatten], which is not among the
    sources at hand; it flattens one level of nesting. *)
Definition flatten {A} (arrays : list (list A)) : list A :=
  List.concat arrays.

(** [obj[topic] || []] is the own array of the topic, or [[]] when the
    topic is no property of [obj] at all; what [Object.prototype] provides
    is truthy and not iterable, so that spreading it is a [TypeError]. *)
Definition mergeTopics
  (obj : JSObject.object string (list PartitionOffsetResponse))
  (t : TopicOffsetsResponse)
  : Outcome (JSObject.object string (list PartitionOffsetResponse)) :=
  match JSObject.get obj (r_topic t) with
  | Some ps => Returned (JSObject.set (r_topic t) (ps ++ r_partitions t) obj)
  | None =>
      if inherited (r_topic t)
      then Thrown (TypeError "obj[topic] is not iterable")
      else Returned (JSObject.set (r_topic t) ([] ++ r_partitions t) obj)
  end.

Definition defaultOffset (fromBeginning : bool) : Z :=
  if fromBeginning then EARLIEST_OFFSET else LATEST_OFFSET.

(** [partitionMetadata.find(p => p.partitionId === partitionId)] *)
Definition metadataFor (partitionMetadata : list PartitionMetadata)
  (id : Z) : option PartitionMetadata :=
  find (fun p => partitionId p =? id) partitionMetadata.

(** The leader that the partition metadata names for a partition id. *)
Definition leaderOf (partitionMetadata : list PartitionMetadata) (id : Z)
  : option Z :=
  match metadataFor partitionMetadata id with
  | Some metadata => leader metadata
  | None => None
  end.

(** The partition metadata names [nodeId] as the leader of [id]. *)
Definition ledBy (partitionMetadata : list PartitionMetadata) (nodeId id : Z)
  : bool :=
  match leaderOf partitionMetadata id with
  | Some leader => leader =? nodeId
  | None => false
  end.

(** The partition metadata has an entry for [id]. *)
Definition known (partitionMetadata : list PartitionMetadata) (id : Z)
  : bool :=
  match metadataFor partitionMetadata id with
  | Some _ => true
  | None => false
  end.

(** Some requested partition has an entry whose leader is [null] or
    [undefined]. *)
Definition leaderless (partitionMetadata : list PartitionMetadata)
  (partitions : list Z) : Prop :=
  exists id metadata,
    In id partitions
    /\ metadataFor partitionMetadata id = Some metadata
    /\ leader metadata = None.

(** The error of [findLeaderForPartitions]. *)
Definition InvalidMetadata : JSError :=
  KafkaJSError "Invalid partition metadata".

(** The reducer of [findLeaderForPartitions]. *)
Definition leaderReducer (partitionMetadata : list PartitionMetadata)
  (result : JSObject.object Z (list Z)) (id : Z)
  : Outcome (JSObject.object Z (list Z)) :=
  let partitionId := parseInt id in
  match metadataFor partitionMetadata partitionId with
  | None => Returned result
  | Some metadata =>
      match leader metadata with
      | None => Thrown (KafkaJSError "Invalid partition metadata")
      | Some leader =>
          let current :=
            match JSObject.get result leader with
            | Some ps => ps
            | None => []
            end in
          Returned (JSObject.set leader (current ++ [partitionId]) result)
      end
  end.

(** [addDefaultOffset(topic)(partition)]; destructuring an absent
    configuration is a [TypeError]. *)
Definition addDefaultOffset (topicConfigurations : JSObject.object string bool)
  (topic : string) (p : PartitionDescriptor) : Outcome ListOffsetsPartition :=
  match JSObject.get topicConfigurations topic with
  | Some fromBeginning =>
      Returned {| lp_partition := partition p;
                  timestamp := defaultOffset fromBeginning |}
  | None => Thrown (TypeError "Cannot destructure property 'fromBeginning'")
  end.

(** The [topics] of the request sent to one leader. *)
Definition requestTopics (topicConfigurations : JSObject.object string bool)
  (partitions : JSObject.object string (list PartitionDescriptor))
  : Outcome (list ListOffsetsTopic) :=
  map_outcome
    (fun '(topic, ps) =>
       obind (map_outcome (addDefaultOffset topicConfigurations topic) ps)
         (fun ps' => Returned {| lt_topic := topic; lt_partitions := ps' |}))
    partitions.

(** [({ partition, offset }) => ({ partition, offset })] *)
Definition project (p : PartitionOffsetResponse) : PartitionOffset :=
  {| o_partition := r_partition p; o_offset := r_offset p |}.

(** The final [keys(partitionsPerTopic).map(...)]. *)
Definition normalize
  (partitionsPerTopic : JSObject.object string (list PartitionOffsetResponse))
  : list TopicOffsets :=
  map (fun '(topic, ps) =>
         {| o_topic := topic; o_partitions := map project ps |})
      partitionsPerTopic.




(** The last phase of [fetchTopicsOffset]: merging and normalizing the
    responses. *)
Definition mergeResponses (responses : list (list TopicOffsetsResponse))
  : Outcome (list TopicOffsets) :=
  obind (reduce mergeTopics (flatten responses) JSObject.empty_object)
    (fun partitionsPerTopic => Returned (normalize partitionsPerTopic)).

(** *** Asynchronous methods *)

Section Methods.
Context {Pool Broker : Type} `{BrokerPool Pool Broker}.

Definition ret {A} (a : A) : Async Pool Broker A := fun w => (Returned a, w).

Definition throw {A} (e : JSError) : Async Pool Broker A :=
  fun w => (Thrown e, w).

Definition bind {A B} (m : Async Pool Broker A)
  (k : A -> Async Pool Broker B) : Async Pool Broker B :=
  fun w =>
    match m w with
    | (Returned a, w') => k a w'
    | (Thrown e, w') => (Thrown e, w')
    end.

(** [try { m } catch (e) { handler(e) }] *)
Definition try_catch {A} (m : Async Pool Broker A)
  (handler : JSError -> Async Pool Broker A)
  : Async Pool Broker A :=
  fun w =>
    match m w with
    | (Returned a, w') => (Returned a, w')
    | (Thrown e, w') => handler e w'
    end.

(** A synchronous computation that may throw. *)
Definition lift {A} (o : Outcome A) : Async Pool Broker A := fun w => (o, w).

(** A call to a collaborator: it is logged, then it acts on the pool. *)
Definition call {A} (c : Call Broker) (op : Pool -> Outcome A * Pool)
  : Async Pool Broker A :=
  fun w =>
    let (r, pool') := op (brokerPool (cluster w)) in
    (r, {| cluster :=
             {| targetTopics := targetTopics (cluster w);
                isolationLevel := isolationLevel (cluster w);
                brokerPool := pool' |};
           calls := calls w ++ [c] |}).

(** [Promise.all] over promises started in order: every one of them runs;
    the result is the array of their values, in the order of the promises,
    or an error when one of them fails. In the code the promises are all
    started before any of them is awaited, so that their first calls are
    issued before the calls that follow an [await], and the error is that
    of the promise that fails first in time. Here the promises take effect
    one after the other, and the error of a failure is that of the first
    promise that fails in this order; the statements about the requests of
    [fetchTopicsOffset] are stated without the order of the calls, and
    about its result when every request returns. *)
Fixpoint Promise_all {A} (promises : list (Async Pool Broker A))
  : Async Pool Broker (list A) :=
  fun w =>
    match promises with
    | [] => (Returned [], w)
    | p :: rest =>
        let (r, w1) := p w in
        let (rs, w2) := Promise_all rest w1 in
        (match r, rs with
         | Returned a, Returned l => Returned (a :: l)
         | Thrown e, _ => Thrown e
         | Returned _, Thrown e => Thrown e
         end, w2)
    end.

End Methods.

Declare Scope async_scope.
Delimit Scope async_scope with async.
Notation "x <- c1 ;; c2" := (bind c1 (fun x => c2))
  (at level 100, c1 at next level, right associativity) : async_scope.

Section Methods.
Context {Pool Broker : Type} `{BrokerPool Pool Broker}.
Local Open Scope async_scope.

Definition refreshMetadata : Async Pool Broker unit :=
  fun w =>
    let topics := JSSet.elements (targetTopics (cluster w)) in
    call (RefreshMetadata topics) (bp_refreshMetadata topics) w.

Definition addMultipleTargetTopics (topics : list string)
  : Async Pool Broker unit :=
  fun w =>
    let previousSize := JSSet.size (targetTopics (cluster w)) in
    let w' :=
      {| cluster :=
           {| targetTopics :=
                JSSet.add_all topics (targetTopics (cluster w));
              isolationLevel := isolationLevel (cluster w);
              brokerPool := brokerPool (cluster w) |};
         calls := calls w |} in
    let hasChanged :=
      negb (Nat.eqb previousSize (JSSet.size (targetTopics (cluster w'))))
      || match bp_metadata (brokerPool (cluster w')) with
         | Some _ => false
         | None => true
         end in
    if hasChanged then refreshMetadata w' else ret tt w'.

Definition addTargetTopic (topic : string)
  : Async Pool Broker unit :=
  addMultipleTargetTopics [topic].

(** The errors on which [findBroker] takes the metadata to be stale. *)
Definition staleMetadata (e : JSError) : bool :=
  String.eqb (name e) "KafkaJSBrokerNotFound"
  || String.eqb (name e) "KafkaJSLockTimeout"
  || match code e with
     | Some c => String.eqb c "ECONNREFUSED"
     | None => false
     end.

Definition findBroker (nodeId : Z)
  : Async Pool Broker (option Broker) :=
  try_catch
    (call (FindBroker nodeId) (bp_findBroker nodeId))
    (fun e =>
       _ <- (if staleMetadata e then refreshMetadata else ret tt) ;;
       throw e).

Definition findControllerBroker
  : Async Pool Broker Broker :=
  fun w =>
    match bp_metadata (brokerPool (cluster w)) with
    | None => throw (KafkaJSMetadataNotLoaded "Topic metadata not loaded") w
    | Some metadata =>
        match controllerId metadata with
        | None =>
            throw (KafkaJSMetadataNotLoaded "Topic metadata not loaded") w
        | Some id =>
            (broker <- findBroker id ;;
             match broker with
             | None =>
                 throw (KafkaJSBrokerNotFound
                          ("Controller broker with id " ++ toString id
                           ++ " not found in the cached metadata"))
             | Some broker => ret broker
             end) w
        end
    end.

Definition findTopicPartitionMetadata (this : Cluster Pool) (topic : string)
  : Outcome (list PartitionMetadata) :=
  match bp_metadata (brokerPool this) with
  | None => Thrown (KafkaJSTopicMetadataNotLoaded "Topic metadata not loaded")
  | Some metadata =>
      match topicMetadata metadata with
      | None =>
          Thrown (KafkaJSTopicMetadataNotLoaded "Topic metadata not loaded")
      | Some topicMetadata =>
          match
            find (fun t => String.eqb (tm_topic t) topic) topicMetadata
          with
          | Some topicMetadata => Returned (partitionMetadata topicMetadata)
          | None => Returned []
          end
      end
  end.

Definition findLeaderForPartitions (this : Cluster Pool) (topic : string)
  (partitions : list Z) : Outcome (JSObject.object Z (list Z)) :=
  obind (findTopicPartitionMetadata this topic)
    (fun partitionMetadata =>
       reduce (leaderReducer partitionMetadata) partitions JSObject.empty_object).

(** The index of [fetchTopicsOffset]: [partitionsPerBroker] and
    [topicConfigurations]. *)
Definition Index : Type :=
  JSObject.object Z (JSObject.object string (list PartitionDescriptor))
  * JSObject.object string bool.


(** The callback of [keys(partitionsPerLeader).map] in the loop, on a
    node id and the partition ids it leads. *)
Definition indexLeader (topicData : TopicData)
  (partitionsPerBroker :
     JSObject.object Z (JSObject.object string (list PartitionDescriptor)))
  (entry : Z * list Z)
  : JSObject.object Z (JSObject.object string (list PartitionDescriptor)) :=
  let (nodeId, ids) := entry in
  let forBroker :=
    match JSObject.get partitionsPerBroker nodeId with
    | Some o => o
    | None => JSObject.empty_object
    end in
  JSObject.set nodeId
    (assign (topic topicData)
       (filter (fun p => JSSet.has ids (partition p)) (partitions topicData))
       forBroker)
    partitionsPerBroker.

(** The body of the loop [for (let topicData of topics)]. *)
Definition indexTopic (this : Cluster Pool) (index : Index)
  (topicData : TopicData) : Outcome Index :=
  let (partitionsPerBroker, topicConfigurations) := index in
  obind
    (findLeaderForPartitions this (topic topicData)
       (map partition (partitions topicData)))
    (fun partitionsPerLeader =>
       let topicConfigurations :=
         assign (topic topicData) (fromBeginning topicData)
           topicConfigurations in
       let partitionsPerBroker :=
         fold_left (indexLeader topicData) partitionsPerLeader
           partitionsPerBroker in
       Returned (partitionsPerBroker, topicConfigurations)).

Definition indexTopics (this : Cluster Pool) (topics : list TopicData)
  : Outcome Index :=
  reduce (indexTopic this) topics (JSObject.empty_object, JSObject.empty_object).

(** The request to one leader: the callback of
    [keys(partitionsPerBroker).map]. *)
Definition request (isolationLevel : Z)
  (topicConfigurations : JSObject.object string bool) (nodeId : Z)
  (partitions : JSObject.object string (list PartitionDescriptor))
  : Async Pool Broker (list TopicOffsetsResponse) :=
  broker <- findBroker nodeId ;;
  match broker with
  | None => throw (TypeError "Cannot read property 'listOffsets'")
  | Some broker =>
      topics <- lift (requestTopics topicConfigurations partitions) ;;
      let args := {| lo_isolationLevel := isolationLevel;
                     lo_topics := topics |} in
      call (ListOffsets broker args) (broker_listOffsets broker args)
  end.

(** The first two phases of [fetchTopicsOffset]: the index, then the
    requests, all executed. *)
Definition fetchResponses (topics : list TopicData)
  : Async Pool Broker (list (list TopicOffsetsResponse)) :=
  fun w =>
    (index <- lift (indexTopics (cluster w) topics) ;;
     let (partitionsPerBroker, topicConfigurations) := index in
     let requests :=
       map (fun '(nodeId, partitions) =>
              request (isolationLevel (cluster w)) topicConfigurations
                nodeId partitions)
           partitionsPerBroker in
     Promise_all requests) w.

Definition fetchTopicsOffset (topics : list TopicData)
  : Async Pool Broker (list TopicOffsets) :=
  responses <- fetchResponses topics ;;
  lift (mergeResponses responses).

(** The calls that a method makes when started in a world. *)
Definition issued {A} (m : Async Pool Broker A) (w : World Pool Broker)
  : list (Call Broker) :=
  skipn (List.length (calls w)) (calls (snd (m w))).

(** The method only adds calls to the log, and each of them satisfies
    [P]. *)
Definition issues {A} (P : Call Broker -> Prop) (m : Async Pool Broker A)
  : Prop :=
  forall w, exists cs, calls (snd (m w)) = calls w ++ cs /\ Forall P cs.

(** A [listOffsets] call carries the isolation level and the request topics
    of an entry of the index. *)
Definition requestOf (isolationLevel : Z) (index : Index)
  (c : Call Broker) : Prop :=
  match c with
  | ListOffsets _ args =>
      lo_isolationLevel args = isolationLevel
      /\ exists nodeId partitions,
           In (nodeId, partitions) (fst index)
           /\ requestTopics (snd index) partitions
              = Returned (lo_topics args)
  | _ => True
  end.

End Methods.

(** The number of metadata refreshes among calls. *)
Definition refreshes {Broker} (cs : list (Call Broker)) : nat :=
  List.length (filter is_refresh cs).

End Cluster.

(* ------------------------------------------------------------------ *)
(** ** Stand-ins for the collaborators, for the scenarios *)

Module Scenario.
Import Cluster.

Definition partition_led_by (id leader : Z) : PartitionMetadata :=
  {| partitionId := id; leader := Some leader; replicas := [leader];
     isr := [leader]; partitionErrorCode := 0 |}.

Definition leaderless_partition (id : Z) : PartitionMetadata :=
  {| partitionId := id; leader := None; replicas := []; isr := [];
     partitionErrorCode := 5 |}.

(** The snapshot of scenario S1: topic [t] with partitions
    [0 -> leader 1], [1 -> leader 2], [2 -> leader 1]. *)
Definition S1 : Metadata :=
  {| controllerId := Some 1;
     topicMetadata :=
       Some [ {| tm_topic := "t"; topicErrorCode := 0;
                 partitionMetadata :=
                   [partition_led_by 0 1; partition_led_by 1 2;
                    partition_led_by 2 1] |} ] |}.

(** A snapshot that lists a topic [u], with partitions [0 -> leader 3] and
    [1 -> leader 3], before the topic [t] of S1. *)
Definition S1_after_u : Metadata :=
  {| controllerId := Some 1;
     topicMetadata :=
       Some [ {| tm_topic := "u"; topicErrorCode := 0;
                 partitionMetadata :=
                   [partition_led_by 0 3; partition_led_by 1 3] |};
              {| tm_topic := "t"; topicErrorCode := 0;
                 partitionMetadata :=
                   [partition_led_by 0 1; partition_led_by 1 2;
                    partition_led_by 2 1] |} ] |}.

(** The snapshot of S1 with another name for its topic. *)
Definition S1_for (name : string) : Metadata :=
  {| controllerId := Some 1;
     topicMetadata :=
       Some [ {| tm_topic := name; topicErrorCode := 0;
                 partitionMetadata :=
                   [partition_led_by 0 1; partition_led_by 1 2;
                    partition_led_by 2 1] |} ] |}.

(** The same with partition 1 in transition and no controller. *)
Definition S1_in_transition : Metadata :=
  {| controllerId := None;
     topicMetadata :=
       Some [ {| tm_topic := "t"; topicErrorCode := 0;
                 partitionMetadata :=
                   [partition_led_by 0 1; leaderless_partition 1;
                    partition_led_by 2 1] |} ] |}.

(** A broker that answers every partition asked for with the given offset
    and error code. *)
Definition answer (offset : option string) (errorCode : Z)
  (args : ListOffsetsArgs) : list TopicOffsetsResponse :=
  map (fun t =>
         {| r_topic := lt_topic t;
            r_partitions :=
              map (fun p => {| r_partition := lp_partition p;
                               r_offset := offset;
                               errorCode := errorCode |})
                  (lt_partitions t) |})
      (lo_topics args).

(** A pool whose state is its snapshot: a refresh leaves it as it is, every
    node id has a broker, and the brokers answer with [answer]. *)
Definition steady (offset : option string) (errorCode : Z)
  : BrokerPool (option Metadata) Z :=
  {| bp_metadata := fun pool => pool;
     bp_refreshMetadata := fun _ pool => (Returned tt, pool);
     bp_findBroker := fun nodeId pool => (Returned (Some nodeId), pool);
     broker_listOffsets :=
       fun _ args pool => (Returned (answer offset errorCode args), pool) |}.

Definition LockTimeout : JSError :=
  {| name := "KafkaJSLockTimeout"; message := "Timeout while acquiring lock";
     code := None |}.

(** A pool on which every broker lookup times out on the connection
    lock. *)
Definition locked : BrokerPool (option Metadata) Z :=
  {| bp_metadata := fun pool => pool;
     bp_refreshMetadata := fun _ pool => (Returned tt, pool);
     bp_findBroker := fun _ pool => (Thrown LockTimeout, pool);
     broker_listOffsets := fun _ _ pool => (Returned [], pool) |}.

Definition world (targets : list string) (snapshot : option Metadata)
  : World (option Metadata) Z :=
  {| cluster := {| targetTopics := targets; isolationLevel := 1;
                   brokerPool := snapshot |};
     calls := [] |}.

End Scenario.

(* ------------------------------------------------------------------ *)
(** ** JavaScript [Map]: entries in insertion order *)

Module JSMap.

Definition map_of (K V : Type) : Type := list (K * V).

Section Entries.
Context {K V : Type} `{Eqb K}.

(** [new Map()] *)
Definition empty_map : map_of K V := [].

(** [m.get(k)]; [None] is [undefined] *)
Fixpoint lookup (m : map_of K V) (k : K) : option V :=
  match m with
  | [] => None
  | (k', v) :: m' => if eqb k k' then Some v else lookup m' k
  end.

(** [m.has(k)] *)
Definition contains (m : map_of K V) (k : K) : bool :=
  match lookup m k with Some _ => true | None => false end.

(** [m.set(k, v)]: an existing key keeps its place, a new key goes last. *)
Fixpoint store (k : K) (v : V) (m : map_of K V) : map_of K V :=
  match m with
  | [] => [(k, v)]
  | (k', v') :: m' =>
      if eqb k k' then (k', v) :: m' else (k', v') :: store k v m'
  end.

End Entries.
End JSMap.

(* ------------------------------------------------------------------ *)
(** ** [Cluster]: the committed offsets *)

Module CommittedOffsets.

(** The object of a group: topic, then partition, then offset. *)
Definition Committed : Type :=
  JSObject.object string (JSObject.object Z string).

(** [this.committedOffsetsByGroup] *)
Definition Groups : Type := JSMap.map_of string Committed.

(** [committedOffsets({ groupId })]: the object of the group and the map it
    leaves; a group without an object gets an empty one. *)
Definition committedOffsets (groupId : string) (this : Groups)
  : Committed * Groups :=
  let this :=
    if negb (JSMap.contains this groupId)
    then JSMap.store groupId JSObject.empty_object this
    else this in
  (match JSMap.lookup this groupId with
   | Some committed => committed
   | None => JSObject.empty_object
   end, this).

(** [markOffsetAsCommitted({ groupId, topic, partition, offset })]: the
    object of the group is changed in place, so the map holds the change.
    The objects hold their own properties: this is the code for a [topic]
    that is not the name of a property of [Object.prototype] ([inherited]),
    where [committedOffsets[topic]] is a property of the group's object or
    absent. *)
Definition markOffsetAsCommitted (groupId topic : string) (partition : Z)
  (offset : string) (this : Groups) : Groups :=
  let (committedOffsets, this) := committedOffsets groupId this in
  let forTopic :=
    match JSObject.get committedOffsets topic with
    | Some o => o
    | None => JSObject.empty_object
    end in
  let committedOffsets := JSObject.set topic forTopic committedOffsets in
  let forTopic := JSObject.set partition offset forTopic in
  JSMap.store groupId (JSObject.set topic forTopic committedOffsets) this.

(** [committedOffsets({ groupId })[topic][partition]], as a caller reads a
    committed offset; [None] when a link of the chain is absent. *)
Definition committedOffset (groupId topic : string) (partition : Z)
  (this : Groups) : option string :=
  match JSObject.get (fst (committedOffsets groupId this)) topic with
  | Some forTopic => JSObject.get forTopic partition
  | None => None
  end.

End CommittedOffsets.

(* ------------------------------------------------------------------ *)
(** ** Notions used by further statements *)

Module Observations.

(** The partitions that a [SubscriptionState] holds one by one for a
    topic. *)
Definition pausedPartitions (this : SubscriptionState.state) (topic : string)
  : list Z :=
  match JSObject.get this topic with
  | Some paused => SubscriptionState.pf_partitions paused
  | None => []
  end.

(** Every entry is stored under its own topic, once, and its partition set
    has no duplicates. *)
Definition consistent (this : SubscriptionState.state) : Prop :=
  NoDup (JSObject.keys this)
  /\ forall t paused,
       In (t, paused) this ->
       SubscriptionState.pf_topic paused = t
       /\ NoDup (SubscriptionState.pf_partitions paused).

(** The operations name no topic that is the name of a property of
    [Object.prototype]. *)
Definition ordinary_operations (ops : list SubscriptionState.Operation)
  : Prop :=
  forall op, In op ops ->
    match op with
    | SubscriptionState.Pause tps | SubscriptionState.Resume tps =>
        SubscriptionStateObject.ordinary tps
    | _ => True
    end.

(** The node ids of the broker lookups among calls, in order. *)
Definition lookedUp {Broker} (cs : list (Cluster.Call Broker)) : list Z :=
  flat_map
    (fun c => match c with Cluster.FindBroker n => [n] | _ => [] end) cs.

(** The arguments of the [listOffsets] calls among calls, in order. *)
Definition requested {Broker} (cs : list (Cluster.Call Broker))
  : list Cluster.ListOffsetsArgs :=
  flat_map
    (fun c => match c with Cluster.ListOffsets _ args => [args] | _ => [] end)
    cs.

(** The number of partitions that responses carry. *)
Definition partitionCount (rs : list Cluster.TopicOffsetsResponse) : nat :=
  list_sum (map (fun r => List.length (Cluster.r_partitions r)) rs).

(** The number of partitions of a result. *)
Definition offsetCount (out : list Cluster.TopicOffsets) : nat :=
  list_sum (map (fun e => List.length (Cluster.o_partitions e)) out).

End Observations.

(* ------------------------------------------------------------------ *)
(** ** What a snapshot says, in terms of its lists *)

Module Snapshot.
Import Cluster.

(** The element of a list for a key: the first one that has the key. *)
Definition firstWith {A K : Type} (key : A -> K) (l : list A) (k : K) (a : A)
  : Prop :=
  exists pre post,
    l = pre ++ a :: post /\ key a = k /\ forall a', In a' pre -> key a' <> k.

(** The snapshot of the pool lists the topic, with this partition
    metadata. *)
Definition lists {Pool Broker : Type} `{BrokerPool Pool Broker}
  (this : Cluster Pool) (topic : string) (pm : list PartitionMetadata)
  : Prop :=
  exists metadata tms tm,
    bp_metadata (brokerPool this) = Some metadata
    /\ topicMetadata metadata = Some tms
    /\ firstWith tm_topic tms topic tm
    /\ partitionMetadata tm = pm.

(** The partition metadata has an entry for the partition id, and it names
    the node id as the leader. *)
Definition names_leader (pm : list PartitionMetadata) (id nodeId : Z) : Prop :=
  exists m, firstWith partitionId pm id m /\ leader m = Some nodeId.


End Snapshot.

(* ------------------------------------------------------------------ *)
(** ** The same brokers with other error codes *)

Module ErrorCodes.
Import Cluster.


End ErrorCodes.

(* ------------------------------------------------------------------ *)
(** ** A pool without brokers *)

Module Vacant.
Import Cluster.

(** A pool that has a snapshot and no broker for any node id. *)
Definition vacant : BrokerPool (option Metadata) Z :=
  {| bp_metadata := fun pool => pool;
     bp_refreshMetadata := fun _ pool => (Returned tt, pool);
     bp_findBroker := fun _ pool => (Returned None, pool);
     broker_listOffsets := fun _ _ pool => (Returned [], pool) |}.

End Vacant.

(* ================================================================== *)
(** * Part II: lemmas and theorems *)

(* ------------------------------------------------------------------ *)
(** ** Equality *)

Lemma eqb_refl {A} `{Eqb A} (a : A) : eqb a a = true.
Proof. now apply eqb_eq. Qed.

Lemma eqb_neq {A} `{Eqb A} (a b : A) : eqb a b = false <-> a <> b.
Proof.
split.
- intros E Heq. apply eqb_eq in Heq. congruence.
- intros N. destruct (eqb a b) eqn:E; [apply eqb_eq in E; contradiction | reflexivity].
Qed.

Lemma eqb_sym {A} `{Eqb A} (a b : A) : eqb a b = eqb b a.
Proof.
destruct (eqb a b) eqn:E.
- apply eqb_eq in E. subst. symmetry. apply eqb_refl.
- apply eqb_neq in E. symmetry. apply eqb_neq. congruence.
Qed.

(* ------------------------------------------------------------------ *)
(** ** Facts about [JSSet] *)

Module JSSetFacts.
Import JSSet.

Section Elements.
Context {A : Type} `{Eqb A}.
Implicit Types (s : t A) (x y : A) (xs : list A).

Lemma has_In s x : has s x = true <-> In x s.
Proof.
  unfold has. rewrite existsb_exists. split.
  - intros (y & Hy & E). apply eqb_eq in E. now subst.
  - intros Hx. exists x. split; [assumption | apply eqb_refl].
Qed.

Lemma has_false s x : has s x = false <-> ~ In x s.
Proof.
  rewrite <- has_In. destruct (has s x); split; intros; congruence.
Qed.

Lemma In_add x y s : In y (add x s) <-> y = x \/ In y s.
Proof.
  unfold add. destruct (has s x) eqn:E.
  - apply has_In in E. split; [tauto | intros [->|]; assumption].
  - rewrite in_app_iff. simpl. split.
    + intros [Hy | [-> | []]]; tauto.
    + intros [-> | Hy]; [right; left; reflexivity | left; assumption].
Qed.

Lemma In_add_all xs : forall s y, In y (add_all xs s) <-> In y xs \/ In y s.
Proof.
  induction xs as [|x xs IH]; intros s y; simpl.
  - tauto.
  - unfold add_all in *. simpl. rewrite IH, In_add. intuition (subst; auto).
Qed.

Lemma In_delete x y s : In y (delete x s) <-> In y s /\ y <> x.
Proof.
  unfold delete. rewrite filter_In. rewrite negb_true_iff, eqb_neq.
  intuition congruence.
Qed.

Lemma In_delete_all xs : forall s y,
  In y (delete_all xs s) <-> In y s /\ ~ In y xs.
Proof.
  induction xs as [|x xs IH]; intros s y; simpl.
  - tauto.
  - unfold delete_all in *. simpl. rewrite IH, In_delete. intuition congruence.
Qed.

Lemma size_add x s :
  size (add x s) = if has s x then size s else S (size s).
Proof.
  unfold add, size. destruct (has s x); [reflexivity|].
  rewrite length_app. simpl. lia.
Qed.

Lemma size_add_all_ge xs : forall s, (size s <= size (add_all xs s))%nat.
Proof.
  induction xs as [|x xs IH]; intros s; simpl; [lia|].
  unfold add_all in *. simpl. specialize (IH (add x s)).
  rewrite size_add in IH. destruct (has s x); lia.
Qed.

(** Adding elements leaves the size unchanged exactly when every one of
    them was already a member. *)
Lemma size_add_all_same xs : forall s,
  size (add_all xs s) = size s <-> (forall x, In x xs -> In x s).
Proof.
  induction xs as [|x xs IH]; intros s; simpl.
  - split; [intros _ x [] | reflexivity].
  - unfold add_all in *. simpl.
    pose proof (size_add_all_ge xs (add x s)) as Hge.
    unfold add_all in Hge.
    rewrite size_add in Hge.
    destruct (has s x) eqn:E.
    + assert (add x s = s) as -> by (unfold add; now rewrite E).
      rewrite IH. apply has_In in E. split.
      * intros Hall y [<- | Hy]; auto.
      * intros Hall y Hy. apply Hall. now right.
    + split.
      * intros Hsz. lia.
      * intros Hall. apply has_false in E. exfalso. apply E, Hall. now left.
Qed.

Lemma delete_all_nil xs : delete_all xs ([] : t A) = [].
Proof. induction xs; simpl; auto. Qed.

End Elements.
End JSSetFacts.

(* ------------------------------------------------------------------ *)
(** ** Facts about [JSObject] *)

Module JSObjectFacts.
Import JSObject.

Section Own.
Context {K V : Type} `{Eqb K} `{PropertyKey K}.
Implicit Types (o : object K V) (k : K) (v : V) (n : N).

Lemma get_None_keys o k : get o k = None <-> ~ In k (keys o).
Proof.
  induction o as [|[k' v'] o IH]; simpl.
  - tauto.
  - destruct (eqb k k') eqn:E.
    + apply eqb_eq in E. subst. split; [discriminate | intros N; exfalso; apply N; now left].
    + apply eqb_neq in E. rewrite IH. split.
      * intros N [Hk | Hk]; [congruence | contradiction].
      * intros N Hk. apply N. now right.
Qed.

Lemma get_Some_In o k v : get o k = Some v -> In (k, v) o.
Proof.
  induction o as [|[k' v'] o IH]; simpl; [discriminate|].
  destruct (eqb k k') eqn:E.
  - apply eqb_eq in E. subst. intros [= ->]. now left.
  - intros Hg. right. auto.
Qed.

Lemma get_Some_keys o k v : get o k = Some v -> In k (keys o).
Proof.
  intros Hg. apply get_Some_In in Hg. unfold keys.
  change k with (fst (k, v)). now apply in_map.
Qed.

Lemma get_Some_values o k v : get o k = Some v -> In v (values o).
Proof.
  intros Hg. apply get_Some_In in Hg. unfold values.
  change v with (snd (k, v)). now apply in_map.
Qed.

Lemma In_get o : NoDup (keys o) -> forall k v, In (k, v) o -> get o k = Some v.
Proof.
  induction o as [|[k' v'] o IH]; simpl; intros ND k v; [intros []|].
  inversion ND as [|? ? Hnotin ND']; subst.
  intros [[= -> ->] | Hin].
  - now rewrite eqb_refl.
  - destruct (eqb k k') eqn:E.
    + apply eqb_eq in E. subst. exfalso. apply Hnotin.
      change k' with (fst (k', v)). now apply in_map.
    + auto.
Qed.

Lemma get_replace k v o k' :
  get (replace k v o) k' =
    match get o k with
    | Some _ => if eqb k' k then Some v else get o k'
    | None => get o k'
    end.
Proof.
  induction o as [|[k1 v1] o IH]; simpl; [reflexivity|].
  destruct (eqb k k1) eqn:E1; simpl.
  - apply eqb_eq in E1. subst k1.
    destruct (eqb k' k); reflexivity.
  - rewrite IH. destruct (eqb k' k1) eqn:E2.
    + apply eqb_eq in E2. subst k1.
      destruct (get o k); [|reflexivity].
      rewrite eqb_sym, E1. reflexivity.
    + reflexivity.
Qed.

Lemma get_app o1 o2 k :
  get (o1 ++ o2) k = match get o1 k with Some v => Some v | None => get o2 k end.
Proof.
  induction o1 as [|[k1 v1] o1 IH]; simpl; [reflexivity|].
  destruct (eqb k k1); auto.
Qed.

Lemma get_insert_index n k v o k' :
  get o k = None ->
  get (insert_index n k v o) k' = if eqb k' k then Some v else get o k'.
Proof.
  induction o as [|[k1 v1] o IH]; simpl; intros Hnone.
  - reflexivity.
  - destruct (eqb k k1) eqn:E1; [discriminate|].
    destruct (index_before n k1); simpl.
    + reflexivity.
    + rewrite (IH Hnone). destruct (eqb k' k1) eqn:E2; [|reflexivity].
      apply eqb_eq in E2. subst k1. rewrite eqb_sym, E1. reflexivity.
Qed.

(** Reading after writing. *)
Lemma get_set k v o k' :
  get (set k v o) k' = if eqb k' k then Some v else get o k'.
Proof.
  unfold set, hasOwn. destruct (get o k) eqn:G.
  - rewrite get_replace, G. reflexivity.
  - unfold create. destruct (array_index k).
    + now apply get_insert_index.
    + rewrite get_app. simpl. destruct (get o k') eqn:G'.
      * destruct (eqb k' k) eqn:E; [|reflexivity].
        apply eqb_eq in E. subst. congruence.
      * reflexivity.
Qed.

Lemma get_set_same k v o : get (set k v o) k = Some v.
Proof. rewrite get_set, eqb_refl. reflexivity. Qed.

Lemma get_set_other k v o k' : k' <> k -> get (set k v o) k' = get o k'.
Proof. intros N. rewrite get_set. apply eqb_neq in N. now rewrite N. Qed.

Lemma keys_replace k v o : keys (replace k v o) = keys o.
Proof.
  induction o as [|[k1 v1] o IH]; simpl; [reflexivity|].
  destruct (eqb k k1); simpl; [reflexivity | now rewrite IH].
Qed.

Lemma In_keys_iff o k : In k (keys o) <-> exists v, get o k = Some v.
Proof.
  split.
  - intros Hin. destruct (get o k) eqn:G; [eauto|].
    apply get_None_keys in G. contradiction.
  - intros [v G]. eapply get_Some_keys; eauto.
Qed.

Lemma In_keys_set k v o k' : In k' (keys (set k v o)) <-> k' = k \/ In k' (keys o).
Proof.
  rewrite !In_keys_iff. rewrite get_set.
  destruct (eqb k' k) eqn:E.
  - apply eqb_eq in E. split; eauto.
  - apply eqb_neq in E. split; [eauto | intros [? | ?]; [contradiction | assumption]].
Qed.

Lemma keys_insert_index_NoDup n k v o :
  ~ In k (keys o) -> NoDup (keys o) -> NoDup (keys (insert_index n k v o)).
Proof.
  induction o as [|[k1 v1] o IH]; simpl; intros Hnotin ND.
  - constructor; [intros [] | constructor].
  - destruct (index_before n k1); simpl.
    + constructor; assumption.
    + inversion ND as [|? ? Hn1 ND1]; subst.
      assert (Hk : ~ In k (keys o)) by tauto.
      constructor; [|now apply IH].
      intros Hin. apply Hn1.
      assert (Hset : forall o', ~ In k (keys o') ->
                In k1 (keys (insert_index n k v o')) -> k1 = k \/ In k1 (keys o')).
      { clear. induction o' as [|[k2 v2] o' IH']; simpl.
        - intros _ [<- | []]. now left.
        - intros Hn. destruct (index_before n k2); simpl.
          + intros [<- | [<- | Hin]]; auto.
          + intros [<- | Hin]; auto.
            destruct IH' as [-> | ?]; auto. }
      destruct (Hset o Hk Hin) as [-> | ?]; [tauto | assumption].
Qed.

(** Writing keeps the keys distinct. *)
Lemma NoDup_keys_set k v o : NoDup (keys o) -> NoDup (keys (set k v o)).
Proof.
  intros ND. unfold set, hasOwn. destruct (get o k) eqn:G.
  - now rewrite keys_replace.
  - apply get_None_keys in G. unfold create. destruct (array_index k).
    + now apply keys_insert_index_NoDup.
    + unfold keys. rewrite map_app. simpl.
      apply NoDup_app; [assumption | constructor; [intros [] | constructor] |].
      intros x Hx [<- | []]. apply G. exact Hx.
Qed.

Lemma NoDup_keys_empty : NoDup (keys (empty_object : object K V)).
Proof. constructor. Qed.

Lemma In_replace k v o k' (v' : V) :
  In (k', v') (replace k v o) -> (k' = k /\ v' = v) \/ In (k', v') o.
Proof.
  induction o as [|[k1 v1] o IH]; simpl; [tauto|].
  destruct (eqb k k1) eqn:E; simpl.
  - apply eqb_eq in E. subst k1.
    intros [[= <- <-] | Hin]; auto.
  - intros [Heq | Hin]; auto. destruct (IH Hin); auto.
Qed.

Lemma In_insert_index n k v o k' (v' : V) :
  In (k', v') (insert_index n k v o) -> (k' = k /\ v' = v) \/ In (k', v') o.
Proof.
  induction o as [|[k1 v1] o IH]; simpl.
  - intros [[= <- <-] | []]. auto.
  - destruct (index_before n k1); simpl.
    + intros [[= <- <-] | Hin]; auto.
    + intros [Heq | Hin]; auto. destruct (IH Hin); auto.
Qed.

(** What a written object holds. *)
Lemma In_set k v o k' (v' : V) :
  In (k', v') (set k v o) -> (k' = k /\ v' = v) \/ In (k', v') o.
Proof.
  unfold set, create. destruct (hasOwn o k).
  - apply In_replace.
  - destruct (array_index k).
    + apply In_insert_index.
    + rewrite in_app_iff. simpl. intros [Hin | [[= <- <-] | []]]; auto.
Qed.

Lemma In_values_set k v o (v' : V) :
  In v' (values (set k v o)) -> v' = v \/ In v' (values o).
Proof.
  unfold values. rewrite !in_map_iff.
  intros ([k1 v1] & Hv & Hin). simpl in Hv. subst v1.
  apply In_set in Hin as [[_ ->] | Hin]; [now left | right].
  exists (k1, v'). auto.
Qed.

Lemma get_In_values o k v : get o k = Some v -> In v (values o).
Proof. apply get_Some_values. Qed.

(** Mapping the values commutes with reading and writing. *)
Section MapValues.
Context {W : Type} (g : V -> W).

Lemma get_mapped o k : get (mapValues g o) k = option_map g (get o k).
Proof.
  induction o as [|[k1 v1] o IH]; simpl; [reflexivity|].
  destruct (eqb k k1); simpl; auto.
Qed.

Lemma replace_mapped k v o : replace k (g v) (mapValues g o) = mapValues g (replace k v o).
Proof.
  induction o as [|[k1 v1] o IH]; simpl; [reflexivity|].
  destruct (eqb k k1); simpl; [reflexivity | now rewrite IH].
Qed.

Lemma insert_index_mapped n k v o :
  insert_index n k (g v) (mapValues g o) = mapValues g (insert_index n k v o).
Proof.
  induction o as [|[k1 v1] o IH]; simpl; [reflexivity|].
  destruct (index_before n k1); simpl; [reflexivity | now rewrite IH].
Qed.

Lemma set_mapped k v o : set k (g v) (mapValues g o) = mapValues g (set k v o).
Proof.
  unfold set, hasOwn, create. rewrite get_mapped.
  destruct (get o k); simpl.
  - apply replace_mapped.
  - destruct (array_index k).
    + apply insert_index_mapped.
    + unfold mapValues. now rewrite map_app.
Qed.

End MapValues.

End Own.

(** The order of the keys: array indices first, in ascending order, then
    the other keys in creation order; an assignment to an existing key keeps
    its place. *)
Example keys_order :
  keys (set "b" 5 (set "2" 4 (set "a" 3 (set "10" 2 (set "b" 1 empty_object)))))
  = ["2"; "10"; "b"; "a"]
  /\ keys (set 1 [7] (set (-1) [6] (set 12 [5] (set 3 [4] empty_object))))
     = [1; 3; 12; -1].
Proof. split; reflexivity. Qed.

Example array_index_examples :
  array_index "0" = Some 0%N /\ array_index "12" = Some 12%N
  /\ array_index "01" = None /\ array_index "topic-test" = None
  /\ array_index "4294967294" = Some 4294967294%N
  /\ array_index "4294967295" = None
  /\ array_index 7 = Some 7%N /\ array_index (-1) = None.
Proof. repeat split; reflexivity. Qed.

End JSObjectFacts.

(* ------------------------------------------------------------------ *)
(** ** [SubscriptionState] *)

Module SubscriptionStateFacts.
Import SubscriptionState.

Lemma truthy_true all : truthy all = true <-> all = Some true.
Proof. destruct all as [[|]|]; simpl; split; congruence. Qed.

(** The entry that [pause] and [resume] start from is a stored one, or it
    is not fully paused. *)
Lemma entry_or_default this t dflt paused :
  pf_all dflt <> Some true ->
  match JSObject.get this t with Some p => p | None => dflt end = paused ->
  pf_all paused = Some true ->
  In paused (JSObject.values this).
Proof.
  intros Hd Heq Hall. destruct (JSObject.get this t) eqn:G.
  - subst. eapply JSObjectFacts.get_Some_values; eauto.
  - subst. contradiction.
Qed.

Lemma pause_entry_invariant this tp :
  all_implies_empty this -> all_implies_empty (pause_entry this tp).
Proof.
  intros Hinv paused Hin Hall. unfold pause_entry in Hin.
  apply JSObjectFacts.In_values_set in Hin as [-> | Hin]; [|now apply Hinv].
  destruct (partitions tp); simpl in *.
  - reflexivity.
  - discriminate.
  - apply Hinv; [|assumption].
    eapply entry_or_default; [| reflexivity | assumption].
    simpl. discriminate.
Qed.

Lemma pause_invariant tps : forall this,
  all_implies_empty this -> all_implies_empty (pause tps this).
Proof.
  induction tps as [|tp tps IH]; intros this Hinv; simpl; [assumption|].
  apply IH. now apply pause_entry_invariant.
Qed.

Lemma resume_entry_invariant this tp this' :
  resume_entry this tp = Returned this' ->
  all_implies_empty this -> all_implies_empty this'.
Proof.
  unfold resume_entry. intros Hres Hinv paused Hin Hall.
  destruct (partitions tp).
  - injection Hres as <-.
    apply JSObjectFacts.In_values_set in Hin as [-> | Hin]; [|now apply Hinv].
    simpl in Hall. discriminate.
  - destruct (negb (truthy (pf_all _))) eqn:T; [|discriminate].
    injection Hres as <-.
    apply JSObjectFacts.In_values_set in Hin as [-> | Hin]; [|now apply Hinv].
    simpl in Hall. apply truthy_true in Hall. rewrite Hall in T. discriminate.
  - injection Hres as <-.
    apply JSObjectFacts.In_values_set in Hin as [-> | Hin]; [|now apply Hinv].
    apply Hinv; [|assumption].
    eapply entry_or_default; [| reflexivity | assumption].
    simpl. discriminate.
Qed.

Lemma resume_invariant tps : forall this,
  all_implies_empty this -> all_implies_empty (snd (resume tps this)).
Proof.
  induction tps as [|tp tps IH]; intros this Hinv; simpl; [assumption|].
  destruct (resume_entry this tp) eqn:R; simpl; [|assumption].
  apply IH. eapply resume_entry_invariant; eauto.
Qed.

Lemma perform_invariant this op :
  all_implies_empty this -> all_implies_empty (perform this op).
Proof.
  destruct op; simpl; intros Hinv; auto using pause_invariant, resume_invariant.
Qed.

Lemma run_invariant ops : forall this,
  all_implies_empty this -> all_implies_empty (run ops this).
Proof.
  induction ops as [|op ops IH]; intros this Hinv; simpl; [assumption|].
  apply IH. now apply perform_invariant.
Qed.

Lemma reachable_invariant this : reachable this -> all_implies_empty this.
Proof.
  intros [ops ->]. apply run_invariant. intros paused [].
Qed.

(** C7. Every sequence of [pause], [resume], [paused] and [isPaused] calls
    preserves the invariant that a topic entry whose [all] flag is true has
    an empty partition set; a new [SubscriptionState] satisfies it, and so
    does every state an instance can reach. *)
Theorem all_flag_implies_no_partitions :
  forall ops : list Operation,
    (forall this, all_implies_empty this -> all_implies_empty (run ops this))
    /\ all_implies_empty (run ops constructor).
Proof.
  intros ops. split.
  - apply run_invariant.
  - apply reachable_invariant. now exists ops.
Qed.

Lemma all_flag_implies_no_partitions_witness :
  all_implies_empty
    (run [Pause [only "t" [1; 2]]; IsPaused "t" 1; Resume [only "t" [1]];
          Pause [entirely "t"]; Paused; Resume [only "t" [2]]]
       (pause [entirely "u"] constructor)).
Proof.
  apply (proj1 (all_flag_implies_no_partitions _)).
  intros paused [<- | []] _. reflexivity.
Defined.

(** *** Errors of [resume] *)

Lemma resume_entry_fails this tp :
  fails_with NonRetriable (resume_entry this tp)
  <-> names_partitions tp /\ paused_entirely this (topic tp).
Proof.
  unfold resume_entry, names_partitions, paused_entirely, fails_with.
  destruct (partitions tp) as [|ps|].
  - split; [intros (e & [=] & _) | intros [[ps [=]] _]].
  - destruct (JSObject.get this (topic tp)) as [paused|] eqn:G; simpl.
    + destruct (truthy (pf_all paused)) eqn:T; simpl.
      * apply truthy_true in T. split.
        -- intros _. split; eauto.
        -- intros _. eexists. split; reflexivity.
      * split.
        -- intros (e & [=] & _).
        -- intros [_ (p & [= <-] & Hall)]. apply truthy_true in Hall.
           congruence.
    + split; [intros (e & [=] & _) | intros [_ (p & [=] & _)]].
  - split; [intros (e & [=] & _) | intros [[ps [=]] _]].
Qed.

Lemma resume_entry_only_NonRetriable this tp e :
  resume_entry this tp = Thrown e -> name e = NonRetriable.
Proof.
  unfold resume_entry. destruct (partitions tp); try discriminate.
  destruct (negb _); [discriminate|]. intros [= <-]. reflexivity.
Qed.

Lemma resume_app before : forall this this' tps,
  resume before this = (Returned tt, this') ->
  resume (before ++ tps) this = resume tps this'.
Proof.
  induction before as [|tp before IH]; intros this this' tps; simpl.
  - intros [= ->]. reflexivity.
  - destruct (resume_entry this tp); [apply IH | discriminate].
Qed.

Lemma resume_thrown tps : forall this e,
  fst (resume tps this) = Thrown e ->
  exists before tp after this',
    tps = before ++ tp :: after
    /\ resume before this = (Returned tt, this')
    /\ resume_entry this' tp = Thrown e.
Proof.
  induction tps as [|tp tps IH]; intros this e; simpl; [discriminate|].
  destruct (resume_entry this tp) as [this1|e1] eqn:R; simpl.
  - intros Hthrown. destruct (IH _ _ Hthrown) as (before & tp' & after & this' & -> & Hb & He).
    exists (tp :: before), tp', after, this'. simpl. rewrite R. auto.
  - intros [= ->]. exists [], tp, tps, this. auto.
Qed.

(** X23. [resume] raises a [NonRetriable] error if and only if it reaches
    an entry with an explicit partitions list for a topic whose paused
    state, when the entry is handled, has [all = true]. On topics that are
    not names of properties of [Object.prototype] it raises nothing else: an
    entry without [partitions], or with a list on a topic that is not in the
    [all = true] state, does not raise. [pause([{topic: t}])] followed by
    [resume([{topic: t, partitions: [0]}])] fails [NonRetriable]. *)
Theorem resume_fails_NonRetriable_iff :
  (forall this tp,
      fails_with NonRetriable (resume_entry this tp)
      <-> names_partitions tp /\ paused_entirely this (topic tp))
  /\ (forall this tps,
        SubscriptionStateObject.ordinary tps ->
        (fails_with NonRetriable (fst (resume tps this))
         <-> exists before tp after this',
               tps = before ++ tp :: after
               /\ resume before this = (Returned tt, this')
               /\ names_partitions tp /\ paused_entirely this' (topic tp)))
  /\ (forall this tps e,
        SubscriptionStateObject.ordinary tps ->
        fst (resume tps this) = Thrown e -> name e = NonRetriable)
  /\ (forall this t ps,
        paused_entirely this t ->
        fails_with NonRetriable (fst (resume [only t ps] this)))
  /\ (forall this t,
        inherited t = false ->
        fst (resume [entirely t] this) = Returned tt)
  /\ (forall this t ps,
        inherited t = false ->
        ~ paused_entirely this t ->
        fst (resume [only t ps] this) = Returned tt)
  /\ fails_with NonRetriable
       (fst (resume [only "t" [0]] (pause [entirely "t"] constructor))).
Proof.
  assert (Hlist : forall this tps,
        fails_with NonRetriable (fst (resume tps this))
        <-> exists before tp after this',
              tps = before ++ tp :: after
              /\ resume before this = (Returned tt, this')
              /\ names_partitions tp /\ paused_entirely this' (topic tp)).
  { intros this tps. split.
    - intros (e & He & Hname).
      destruct (resume_thrown _ _ He) as (before & tp & after & this' & -> & Hb & Hr).
      exists before, tp, after, this'. repeat split; auto;
        apply (resume_entry_fails this' tp); exists e; auto.
    - intros (before & tp & after & this' & -> & Hb & Hn & Hp).
      erewrite resume_app by eassumption. simpl.
      destruct (proj2 (resume_entry_fails this' tp) (conj Hn Hp)) as (e & -> & Hname).
      exists e. auto. }
  split; [exact resume_entry_fails|].
  split; [intros this tps _; apply Hlist|].
  split.
  { intros this tps e _ He.
    destruct (resume_thrown _ _ He) as (_ & tp & _ & this' & _ & _ & Hr).
    eapply resume_entry_only_NonRetriable; eauto. }
  split.
  { intros this t ps Hp. apply Hlist. exists [], (only t ps), [], this.
    repeat split; auto. now exists ps. }
  split.
  { intros this t _. reflexivity. }
  split.
  { intros this t ps _ Hnot.
    destruct (fst (resume [only t ps] this)) as [[]|e] eqn:R; [reflexivity|].
    exfalso. apply Hnot.
    destruct (resume_thrown _ _ R) as (before & tp & after & this' & Heq & Hb & Hr).
    destruct before as [|x [|y before]]; simpl in Heq; [|discriminate Heq|discriminate Heq].
    injection Heq as <- <-. simpl in Hb. injection Hb as <-.
    apply (resume_entry_fails this (only t ps)). exists e. split; [assumption|].
    eapply resume_entry_only_NonRetriable; eauto. }
  apply Hlist. exists [], (only "t" [0]), [], (pause [entirely "t"] constructor).
  repeat split; auto.
  - now exists [0].
  - eexists. split; reflexivity.
Qed.

Lemma resume_fails_NonRetriable_iff_witness :
  fails_with NonRetriable
    (fst (resume [only "t" [0]] (pause [entirely "t"; only "u" [3]] constructor)))
  /\ fst (resume [only "u" [3]] (pause [entirely "t"; only "u" [3]] constructor))
     = Returned tt.
Proof.
  destruct resume_fails_NonRetriable_iff as (_ & _ & _ & Hfail & _ & Hok & _).
  split.
  - apply Hfail. eexists. split; reflexivity.
  - apply Hok; [reflexivity|]. intros (paused & Hget & Hall).
    vm_compute in Hget. injection Hget as <-. discriminate Hall.
Defined.

(** *** Pausing and resuming partitions *)

Lemma pause_one tp this : pause [tp] this = pause_entry this tp.
Proof. reflexivity. Qed.

Lemma isPaused_set this t paused p :
  isPaused (JSObject.set t paused this) t p
  = truthy (pf_all paused) || JSSet.has (pf_partitions paused) p.
Proof.
  unfold isPaused. now rewrite JSObjectFacts.get_set_same.
Qed.



(** C9. When topic [t] is in the [all = true] state of an instance,
    [pause([{topic: t, partitions: ps}])] with an explicit, possibly empty,
    list sets the [all] flag of the entry to false and leaves exactly the
    partitions of [ps] paused: every partition was paused before, and
    afterwards [isPaused(t, p)] is true exactly for [p] in [ps]. *)
Theorem pause_partitions_after_pause_all :
  forall (this : state) (t : string) (ps : list Z),
    reachable this ->
    paused_entirely this t ->
    let after := pause [only t ps] this in
    (forall p, isPaused this t p = true)
    /\ (exists paused,
          JSObject.get after t = Some paused
          /\ pf_all paused = Some false
          /\ forall p, In p (pf_partitions paused) <-> In p ps)
    /\ (forall p, isPaused after t p = true <-> In p ps).
Proof.
  intros this t ps Hreach (paused & Hget & Hall) after.
  assert (Hempty : pf_partitions paused = []).
  { apply (reachable_invariant Hreach); [|assumption].
    eapply JSObjectFacts.get_Some_values; eauto. }
  assert (Hin : forall p, In p (JSSet.add_all ps (pf_partitions paused)) <-> In p ps).
  { intros p. rewrite JSSetFacts.In_add_all, Hempty. simpl. tauto. }
  split; [|split].
  - intros p. unfold isPaused. rewrite Hget, Hall. reflexivity.
  - subst after. rewrite pause_one. unfold pause_entry. simpl. rewrite Hget.
    eexists. split; [apply JSObjectFacts.get_set_same|]. simpl. auto.
  - intros p. subst after. rewrite pause_one. unfold pause_entry. simpl.
    rewrite Hget, isPaused_set. simpl.
    rewrite JSSetFacts.has_In. apply Hin.
Qed.

Lemma pause_partitions_after_pause_all_witness :
  let after := pause [only "t" [4; 2]] (pause [entirely "t"] constructor) in
  isPaused (pause [entirely "t"] constructor) "t" 7 = true
  /\ (isPaused after "t" 2 = true <-> In 2 [4; 2])
  /\ (isPaused after "t" 7 = true <-> In 7 [4; 2]).
Proof.
  destruct (@pause_partitions_after_pause_all
              (pause [entirely "t"] constructor) "t" [4; 2])
    as (Hbefore & _ & Hafter).
  - exists [Pause [entirely "t"]]. reflexivity.
  - eexists. split; reflexivity.
  - split; [apply Hbefore | split; apply Hafter].
Defined.

End SubscriptionStateFacts.

(* ------------------------------------------------------------------ *)
(** ** [Cluster]: leaders of partitions *)

Module ClusterFacts.
Import Cluster.

Lemma obind_Returned {A B} (o : Outcome A) (k : A -> Outcome B) b :
  obind o k = Returned b -> exists a, o = Returned a /\ k a = Returned b.
Proof. destruct o; simpl; [eauto | discriminate]. Qed.

Lemma obind_Thrown {A B} (o : Outcome A) (k : A -> Outcome B) e :
  obind o k = Thrown e ->
  o = Thrown e \/ exists a, o = Returned a /\ k a = Thrown e.
Proof. destruct o; simpl; [eauto | intros [= ->]; auto]. Qed.

Section Leaders.
Variable pm : list PartitionMetadata.

(** The entry that the code finds for a partition id is an entry of the
    metadata with that id; it is the only one when the ids are distinct. *)
Lemma metadataFor_Some id metadata :
  metadataFor pm id = Some metadata ->
  In metadata pm /\ partitionId metadata = id.
Proof.
  unfold metadataFor. intros Hfind. apply find_some in Hfind as [Hin Heq].
  split; [assumption | now apply Z.eqb_eq].
Qed.

Lemma metadataFor_unique metadata :
  NoDup (map partitionId pm) -> In metadata pm ->
  metadataFor pm (partitionId metadata) = Some metadata.
Proof.
  unfold metadataFor. induction pm as [|m0 rest IH]; simpl; [intros _ []|].
  intros ND Hin. inversion ND as [|? ? Hnotin ND']; subst.
  destruct Hin as [-> | Hin].
  - now rewrite Z.eqb_refl.
  - destruct (Z.eqb_spec (partitionId m0) (partitionId metadata)) as [Heq | Hne].
    + exfalso. apply Hnotin. rewrite Heq. now apply in_map.
    + auto.
Qed.

Lemma leaderReducer_unknown result id :
  metadataFor pm id = None -> leaderReducer pm result id = Returned result.
Proof. unfold leaderReducer, parseInt. now intros ->. Qed.

Lemma leaderReducer_leaderless result id metadata :
  metadataFor pm id = Some metadata -> leader metadata = None ->
  leaderReducer pm result id = Thrown InvalidMetadata.
Proof. unfold leaderReducer, parseInt. now intros -> ->. Qed.

Lemma leaderReducer_led result id metadata l :
  metadataFor pm id = Some metadata -> leader metadata = Some l ->
  leaderReducer pm result id
  = Returned (JSObject.set l
                (match JSObject.get result l with Some ps => ps | None => [] end
                 ++ [id]) result).
Proof. unfold leaderReducer, parseInt. now intros -> ->. Qed.

Lemma leaderReducer_Thrown result id e :
  leaderReducer pm result id = Thrown e ->
  e = InvalidMetadata
  /\ exists metadata, metadataFor pm id = Some metadata /\ leader metadata = None.
Proof.
  unfold leaderReducer, parseInt.
  destruct (metadataFor pm id) as [m|]; [|discriminate].
  destruct (leader m) eqn:L; [discriminate|].
  intros [= <-]. eauto.
Qed.

(** The reduction fails exactly on a requested partition whose entry has no
    leader, and then with the invalid-metadata error. *)
Lemma reduce_leaders_Thrown partitions : forall init e,
  reduce (leaderReducer pm) partitions init = Thrown e ->
  e = InvalidMetadata /\ leaderless pm partitions.
Proof.
  induction partitions as [|id rest IH]; intros init e; simpl; [discriminate|].
  intros Hred. apply obind_Thrown in Hred as [Hhead | (r & Hhead & Hrest)].
  - apply leaderReducer_Thrown in Hhead as (-> & m & Hm & Hl).
    split; [reflexivity|]. exists id, m. simpl. auto.
  - destruct (IH _ _ Hrest) as (-> & id' & m & Hin & Hm & Hl).
    split; [reflexivity|]. exists id', m. simpl. auto.
Qed.

Lemma reduce_leaders_leaderless partitions : forall init,
  leaderless pm partitions ->
  reduce (leaderReducer pm) partitions init = Thrown InvalidMetadata.
Proof.
  induction partitions as [|id rest IH]; intros init (id' & m & Hin & Hm & Hl).
  - destruct Hin.
  - simpl. destruct (leaderReducer pm init id) as [r|e] eqn:Hhead; simpl.
    + apply IH. destruct Hin as [<- | Hin].
      * rewrite (leaderReducer_leaderless _ _ Hm Hl) in Hhead. discriminate.
      * exists id', m. auto.
    + apply leaderReducer_Thrown in Hhead as [-> _]. reflexivity.
Qed.

(** What a successful reduction holds for each node id. *)
Lemma reduce_leaders_get partitions : forall init result,
  reduce (leaderReducer pm) partitions init = Returned result ->
  forall nodeId,
    JSObject.get result nodeId
    = match JSObject.get init nodeId, filter (ledBy pm nodeId) partitions with
      | None, [] => None
      | None, l => Some l
      | Some ps, l => Some (ps ++ l)
      end.
Proof.
  induction partitions as [|id rest IH]; intros init result; simpl.
  - intros [= <-] nodeId. destruct (JSObject.get init nodeId); [|reflexivity].
    now rewrite app_nil_r.
  - intros Hred nodeId.
    apply obind_Returned in Hred as (r & Hhead & Hrest).
    rewrite (IH _ _ Hrest nodeId). clear IH Hrest.
    destruct (metadataFor pm id) as [m|] eqn:Hm.
    + destruct (leader m) as [l|] eqn:Hl.
      * assert (Hled : ledBy pm nodeId id = (l =? nodeId))
          by (unfold ledBy, leaderOf; now rewrite Hm, Hl).
        rewrite Hled.
        rewrite (leaderReducer_led _ _ Hm Hl) in Hhead. injection Hhead as <-.
        rewrite JSObjectFacts.get_set. simpl.
        destruct (Z.eqb_spec nodeId l) as [-> | Hne].
        -- rewrite Z.eqb_refl.
           destruct (JSObject.get init l); simpl.
           ++ now rewrite <- app_assoc.
           ++ reflexivity.
        -- destruct (Z.eqb_spec l nodeId); [congruence | reflexivity].
      * rewrite (leaderReducer_leaderless _ _ Hm Hl) in Hhead. discriminate.
    + assert (Hled : ledBy pm nodeId id = false)
        by (unfold ledBy, leaderOf; now rewrite Hm).
      rewrite Hled.
      rewrite (leaderReducer_unknown _ _ Hm) in Hhead. injection Hhead as <-.
      reflexivity.
Qed.

Lemma reduce_leaders_NoDup partitions : forall init result,
  reduce (leaderReducer pm) partitions init = Returned result ->
  NoDup (JSObject.keys init) -> NoDup (JSObject.keys result).
Proof.
  induction partitions as [|id rest IH]; intros init result; simpl.
  - now intros [= <-].
  - intros Hred ND. apply obind_Returned in Hred as (r & Hhead & Hrest).
    apply (IH _ _ Hrest). unfold leaderReducer in Hhead.
    destruct (metadataFor pm (parseInt id)) as [m|]; [|now injection Hhead as <-].
    destruct (leader m); [|discriminate]. injection Hhead as <-.
    now apply JSObjectFacts.NoDup_keys_set.
Qed.

(** Partitions without an entry do not take part in the reduction. *)
Lemma reduce_leaders_known partitions : forall init,
  reduce (leaderReducer pm) partitions init
  = reduce (leaderReducer pm) (filter (known pm) partitions) init.
Proof.
  induction partitions as [|id rest IH]; intros init; simpl; [reflexivity|].
  unfold known at 1. destruct (metadataFor pm id) eqn:Hm; simpl.
  - destruct (leaderReducer pm init id); simpl; auto.
  - rewrite (leaderReducer_unknown _ _ Hm). simpl. apply IH.
Qed.

Lemma reduce_leaders_total partitions init :
  (exists result, reduce (leaderReducer pm) partitions init = Returned result)
  \/ reduce (leaderReducer pm) partitions init = Thrown InvalidMetadata.
Proof.
  destruct (reduce (leaderReducer pm) partitions init) as [r|e] eqn:R; [eauto|].
  apply reduce_leaders_Thrown in R as [-> _]. now right.
Qed.

End Leaders.

Section Lookup.
Context {Pool Broker : Type} `{BrokerPool Pool Broker}.

Lemma findLeaderForPartitions_loaded (this : Cluster Pool) topic partitions pm :
  findTopicPartitionMetadata this topic = Returned pm ->
  findLeaderForPartitions this topic partitions
  = reduce (leaderReducer pm) partitions JSObject.empty_object.
Proof. unfold findLeaderForPartitions. now intros ->. Qed.

Lemma ledBy_known pm nodeId id : ledBy pm nodeId id = true -> known pm id = true.
Proof.
  unfold ledBy, leaderOf, known. destruct (metadataFor pm id); [reflexivity | discriminate].
Qed.

(** [findTopicPartitionMetadata] fails, with [TopicMetadataNotLoaded],
    exactly when the snapshot or its topic metadata is absent; a topic that
    the snapshot does not have gets the empty list. *)
Lemma findTopicPartitionMetadata_outcomes (this : Cluster Pool) topic :
  match bp_metadata (brokerPool this) with
  | Some {| topicMetadata := Some tms |} =>
      findTopicPartitionMetadata this topic
      = Returned
          (match find (fun t => String.eqb (tm_topic t) topic) tms with
           | Some tm => partitionMetadata tm
           | None => []
           end)
  | _ => fails_with TopicMetadataNotLoaded (findTopicPartitionMetadata this topic)
  end.
Proof.
  unfold findTopicPartitionMetadata.
  destruct (bp_metadata (brokerPool this)) as [[cid [tms|]]|]; simpl.
  - destruct (find _ tms); reflexivity.
  - eexists. split; reflexivity.
  - eexists. split; reflexivity.
Qed.

End Lookup.

(** *** The snapshot in terms of its lists *)

Lemma find_firstWith {A K : Type} (key : A -> K) (test : K -> K -> bool)
  (l : list A) (k : K) (a : A) :
  (forall x y, test x y = true <-> x = y) ->
  find (fun x => test (key x) k) l = Some a <-> Snapshot.firstWith key l k a.
Proof.
  intros Htest. unfold Snapshot.firstWith.
  induction l as [|x l IH]; simpl.
  - split; [discriminate|]. intros (pre & post & Heq & _).
    now destruct pre.
  - destruct (test (key x) k) eqn:T.
    + apply Htest in T. split.
      * intros [= ->]. exists [], l. split; [reflexivity|]. split; [assumption|].
        intros a' [].
      * intros (pre & post & Heq & Hkey & Hfirst).
        destruct pre as [|y pre]; simpl in Heq.
        -- now injection Heq as ->.
        -- injection Heq as Hx _. exfalso.
           apply (Hfirst y); [now left | now subst y].
    + assert (Hne : key x <> k).
      { intros Heq. apply Htest in Heq. congruence. }
      rewrite IH. split.
      * intros (pre & post & -> & Hkey & Hfirst).
        exists (x :: pre), post. split; [reflexivity|]. split; [assumption|].
        intros a' [<- | Hin]; auto.
      * intros (pre & post & Heq & Hkey & Hfirst).
        destruct pre as [|y pre]; simpl in Heq.
        -- injection Heq as Hx _. subst a. contradiction.
        -- injection Heq as _ Hl. subst l. exists pre, post.
           split; [reflexivity|]. split; [assumption|].
           intros a' Hin. apply Hfirst. now right.
Qed.

Lemma metadataFor_firstWith pm id m :
  metadataFor pm id = Some m <-> Snapshot.firstWith partitionId pm id m.
Proof. unfold metadataFor. apply find_firstWith. apply Z.eqb_eq. Qed.

Lemma leaderOf_names_leader pm id nodeId :
  leaderOf pm id = Some nodeId <-> Snapshot.names_leader pm id nodeId.
Proof.
  unfold leaderOf, Snapshot.names_leader. split.
  - destruct (metadataFor pm id) as [m|] eqn:M; [|discriminate].
    intros Hl. exists m. split; [now apply metadataFor_firstWith | assumption].
  - intros (m & Hm & Hl). apply metadataFor_firstWith in Hm. now rewrite Hm.
Qed.

Lemma ledBy_names_leader pm nodeId id :
  ledBy pm nodeId id = true <-> Snapshot.names_leader pm id nodeId.
Proof.
  rewrite <- leaderOf_names_leader. unfold ledBy.
  destruct (leaderOf pm id) as [l|]; [|split; discriminate].
  rewrite Z.eqb_eq. split; [now intros -> | now intros [= ->]].
Qed.

Lemma lists_loaded {Pool Broker : Type} `{BrokerPool Pool Broker}
  (this : Cluster Pool) topic pm :
  Snapshot.lists this topic pm ->
  findTopicPartitionMetadata this topic = Returned pm.
Proof.
  intros (metadata & tms & tm & Hsnap & Htms & Hfirst & <-).
  unfold findTopicPartitionMetadata. rewrite Hsnap, Htms.
  apply (find_firstWith tm_topic String.eqb tms topic tm String.eqb_eq) in Hfirst.
  now rewrite Hfirst.
Qed.

(** C2. When the snapshot lists the topic, and every requested partition
    id that has an entry in the partition metadata of the topic has a
    non-null leader there, [findLeaderForPartitions(topic, partitions)]
    returns an object that maps each node id to exactly the requested
    partition ids, in the order requested, whose entry names that node id as
    leader, and has no key for a node id that leads none of them. The entry
    of a topic or of a partition id is the first one of its list, which is
    the one that the code finds. On the snapshot where topic [t] has
    partitions [0 -> leader 1], [1 -> leader 2], [2 -> leader 1],
    [findLeaderForPartitions("t", [0, 1, 2])] returns [{1: [0, 2], 2: [1]}],
    also when the snapshot lists another topic before [t]. *)
Theorem findLeaderForPartitions_groups_by_leader :
  (forall (Pool Broker : Type) (pool : BrokerPool Pool Broker)
          (this : Cluster Pool) (topic : string) (partitions : list Z)
          (pm : list PartitionMetadata),
      Snapshot.lists this topic pm ->
      (forall id m,
          In id partitions -> Snapshot.firstWith partitionId pm id m ->
          leader m <> None) ->
      exists result,
        findLeaderForPartitions this topic partitions = Returned result
        /\ NoDup (JSObject.keys result)
        /\ (forall nodeId,
              JSObject.get result nodeId
              = match filter (ledBy pm nodeId) partitions with
                | [] => None
                | ids => Some ids
                end)
        /\ (forall nodeId id,
              ledBy pm nodeId id = true <-> Snapshot.names_leader pm id nodeId)
        /\ (forall nodeId id,
              (exists ids, JSObject.get result nodeId = Some ids /\ In id ids)
              <-> In id partitions /\ Snapshot.names_leader pm id nodeId)
        /\ (forall nodeId,
              In nodeId (JSObject.keys result)
              <-> exists id,
                    In id partitions /\ Snapshot.names_leader pm id nodeId))
  /\ findLeaderForPartitions (H := Scenario.steady None 0)
       (cluster (Scenario.world [] (Some Scenario.S1))) "t" [0; 1; 2]
     = Returned [(1, [0; 2]); (2, [1])]
  /\ findLeaderForPartitions (H := Scenario.steady None 0)
       (cluster (Scenario.world [] (Some Scenario.S1_after_u))) "t" [0; 1; 2]
     = Returned [(1, [0; 2]); (2, [1])].
Proof.
  split; [|split; reflexivity].
  intros Pool Broker pool this topic partitions pm Hlists Hleaders.
  apply lists_loaded in Hlists.
  rewrite (findLeaderForPartitions_loaded _ _ partitions Hlists).
  destruct (reduce_leaders_total pm partitions JSObject.empty_object)
    as [[result Hres] | Hthrown].
  - exists result. split; [assumption|].
    assert (Hget : forall nodeId,
              JSObject.get result nodeId
              = match filter (ledBy pm nodeId) partitions with
                | [] => None
                | ids => Some ids
                end).
    { intros nodeId. rewrite (reduce_leaders_get _ _ _ Hres nodeId). reflexivity. }
    assert (Hmember : forall nodeId id,
              (exists ids, JSObject.get result nodeId = Some ids /\ In id ids)
              <-> In id partitions /\ Snapshot.names_leader pm id nodeId).
    { intros nodeId id. rewrite Hget, <- ledBy_names_leader, <- filter_In.
      destruct (filter (ledBy pm nodeId) partitions) as [|x l].
      - split; [intros (ids & [=] & _) | intros []].
      - split; [intros (ids & [= <-] & Hin); exact Hin | eauto]. }
    split; [|split; [|split; [|split]]].
    + eapply reduce_leaders_NoDup; eauto. constructor.
    + exact Hget.
    + intros nodeId id. apply ledBy_names_leader.
    + exact Hmember.
    + intros nodeId. rewrite JSObjectFacts.In_keys_iff. split.
      * intros [ids Hids]. rewrite Hget in Hids.
        destruct (filter (ledBy pm nodeId) partitions) as [|id ids'] eqn:F;
          [discriminate|].
        exists id. apply Hmember. rewrite Hget, F. exists (id :: ids').
        split; [reflexivity | now left].
      * intros (id & Hid). apply Hmember in Hid as (ids & Hids & _). eauto.
  - exfalso.
    apply reduce_leaders_Thrown in Hthrown as (_ & id & m & Hin & Hm & Hl).
    apply metadataFor_firstWith in Hm. exact (Hleaders id m Hin Hm Hl).
Qed.

Lemma findLeaderForPartitions_groups_by_leader_witness :
  exists result,
    findLeaderForPartitions (H := Scenario.steady None 0)
      (cluster (Scenario.world [] (Some Scenario.S1_after_u))) "t" [2; 7; 0; 1]
    = Returned result
    /\ JSObject.get result 1 = Some [2; 0]
    /\ JSObject.get result 2 = Some [1]
    /\ JSObject.get result 3 = None.
Proof.
  assert (Hlists :
            Snapshot.lists (H := Scenario.steady None 0)
              (cluster (Scenario.world [] (Some Scenario.S1_after_u))) "t"
              [Scenario.partition_led_by 0 1; Scenario.partition_led_by 1 2;
               Scenario.partition_led_by 2 1]).
  { exists Scenario.S1_after_u.
    exists [ {| tm_topic := "u"; topicErrorCode := 0;
                partitionMetadata :=
                  [Scenario.partition_led_by 0 3; Scenario.partition_led_by 1 3] |};
             {| tm_topic := "t"; topicErrorCode := 0;
                partitionMetadata :=
                  [Scenario.partition_led_by 0 1; Scenario.partition_led_by 1 2;
                   Scenario.partition_led_by 2 1] |} ].
    exists {| tm_topic := "t"; topicErrorCode := 0;
              partitionMetadata :=
                [Scenario.partition_led_by 0 1; Scenario.partition_led_by 1 2;
                 Scenario.partition_led_by 2 1] |}.
    split; [reflexivity|]. split; [reflexivity|]. split; [|reflexivity].
    exists [ {| tm_topic := "u"; topicErrorCode := 0;
                partitionMetadata :=
                  [Scenario.partition_led_by 0 3; Scenario.partition_led_by 1 3] |} ],
           [].
    split; [reflexivity|]. split; [reflexivity|].
    intros a' [<- | []]. discriminate. }
  destruct (proj1 findLeaderForPartitions_groups_by_leader
              _ _ (Scenario.steady None 0)
              (cluster (Scenario.world [] (Some Scenario.S1_after_u)))
              "t" [2; 7; 0; 1] _ Hlists)
    as (result & Hres & _ & Hget & _).
  - intros id m Hin Hm. apply metadataFor_firstWith in Hm.
    destruct Hin as [<- | [<- | [<- | [<- | []]]]]; vm_compute in Hm;
      try discriminate Hm; injection Hm as <-; discriminate.
  - exists result. split; [exact Hres|].
    split; [|split]; rewrite Hget; reflexivity.
Defined.

(** C3. On a loaded snapshot, the requested partition ids without a
    metadata entry for the topic are passed over: the outcome is the one of
    the call without them, and none of them is in the lists of a returned
    object. [findLeaderForPartitions] raises the invalid-partition-metadata
    error exactly when some requested partition id has a metadata entry
    whose leader is null or undefined, and raises no other error. *)
Theorem findLeaderForPartitions_missing_and_leaderless :
  forall (Pool Broker : Type) (pool : BrokerPool Pool Broker)
         (this : Cluster Pool) (topic : string) (partitions : list Z)
         (pm : list PartitionMetadata),
    findTopicPartitionMetadata this topic = Returned pm ->
    findLeaderForPartitions this topic partitions
    = findLeaderForPartitions this topic (filter (known pm) partitions)
    /\ (forall result id,
          findLeaderForPartitions this topic partitions = Returned result ->
          metadataFor pm id = None ->
          forall nodeId ids,
            JSObject.get result nodeId = Some ids -> ~ In id ids)
    /\ (InvalidPartitionMetadata (findLeaderForPartitions this topic partitions)
        <-> exists id metadata,
              In id partitions /\ metadataFor pm id = Some metadata
              /\ leader metadata = None)
    /\ (forall e,
          findLeaderForPartitions this topic partitions = Thrown e ->
          e = KafkaJSError "Invalid partition metadata").
Proof.
  intros Pool Broker pool this topic partitions pm Hloaded.
  rewrite !(fun ps => findLeaderForPartitions_loaded _ _ ps Hloaded).
  split; [apply reduce_leaders_known|]. split; [|split].
  - intros result id Hres Hnone nodeId ids Hget Hin.
    rewrite (reduce_leaders_get _ _ _ Hres nodeId) in Hget. simpl in Hget.
    assert (Hids : ids = filter (ledBy pm nodeId) partitions)
      by (destruct (filter (ledBy pm nodeId) partitions); congruence).
    subst ids. apply filter_In in Hin as [_ Hled].
    apply ledBy_known in Hled. unfold known in Hled. now rewrite Hnone in Hled.
  - unfold InvalidPartitionMetadata. split.
    + intros Hthrown. now apply reduce_leaders_Thrown in Hthrown as [_ ?].
    + intros Hl. now apply reduce_leaders_leaderless.
  - intros e Hthrown. now apply reduce_leaders_Thrown in Hthrown as [-> _].
Qed.

Lemma findLeaderForPartitions_missing_and_leaderless_witness :
  InvalidPartitionMetadata
    (findLeaderForPartitions (H := Scenario.steady None 0)
       (cluster (Scenario.world [] (Some Scenario.S1_in_transition)))
       "t" [0; 9; 1])
  /\ findLeaderForPartitions (H := Scenario.steady None 0)
       (cluster (Scenario.world [] (Some Scenario.S1_in_transition)))
       "t" [0; 9; 2]
     = findLeaderForPartitions (H := Scenario.steady None 0)
         (cluster (Scenario.world [] (Some Scenario.S1_in_transition)))
         "t" [0; 2].
Proof.
  split.
  - apply (proj1 (proj2 (proj2
      (@findLeaderForPartitions_missing_and_leaderless
         _ _ (Scenario.steady None 0)
         (cluster (Scenario.world [] (Some Scenario.S1_in_transition)))
         "t" [0; 9; 1]
         [Scenario.partition_led_by 0 1; Scenario.leaderless_partition 1;
          Scenario.partition_led_by 2 1]
         eq_refl)))).
    exists 1, (Scenario.leaderless_partition 1). simpl. auto.
  - apply (proj1
      (@findLeaderForPartitions_missing_and_leaderless
         _ _ (Scenario.steady None 0)
         (cluster (Scenario.world [] (Some Scenario.S1_in_transition)))
         "t" [0; 9; 2]
         [Scenario.partition_led_by 0 1; Scenario.leaderless_partition 1;
          Scenario.partition_led_by 2 1]
         eq_refl)).
Defined.


(* ------------------------------------------------------------------ *)
(** ** [Cluster]: calls to the collaborators *)

Lemma skipn_length_app {A} (l l' : list A) : skipn (List.length l) (l ++ l') = l'.
Proof. induction l; simpl; auto. Qed.

Section Calls.
Context {Pool Broker : Type} `{BrokerPool Pool Broker}.
Implicit Types (w : World Pool Broker) (P : Call Broker -> Prop).

Lemma issued_of_issues {A} P (m : Async Pool Broker A) w :
  issues P m -> Forall P (issued m w).
Proof.
  intros Hm. destruct (Hm w) as (cs & Hcs & HP).
  unfold issued. rewrite Hcs, skipn_length_app. exact HP.
Qed.

Lemma issues_ret {A} P (a : A) : issues P (ret a : Async Pool Broker A).
Proof. intros w. exists []. simpl. now rewrite app_nil_r. Qed.

Lemma issues_throw {A} P e : issues P (throw e : Async Pool Broker A).
Proof. intros w. exists []. simpl. now rewrite app_nil_r. Qed.

Lemma issues_lift {A} P (o : Outcome A) :
  issues P (lift o : Async Pool Broker A).
Proof. intros w. exists []. simpl. now rewrite app_nil_r. Qed.

Lemma issues_call {A} P c (op : Pool -> Outcome A * Pool) :
  P c -> issues P (call c op).
Proof.
  intros Hc w. exists [c]. unfold call.
  destruct (op (brokerPool (cluster w))). simpl. auto.
Qed.

Lemma issues_bind {A B} P (m : Async Pool Broker A)
  (k : A -> Async Pool Broker B) :
  issues P m ->
  (forall a w, fst (m w) = Returned a -> issues P (k a)) ->
  issues P (bind m k).
Proof.
  intros Hm Hk w. unfold bind.
  destruct (Hm w) as (cs & Hcs & HP).
  destruct (m w) as [[a|e] w'] eqn:M; simpl in *.
  - destruct (Hk a w (f_equal fst M) w') as (cs' & Hcs' & HP').
    exists (cs ++ cs'). rewrite Hcs', Hcs, app_assoc. split; [reflexivity|].
    apply Forall_app. auto.
  - exists cs. auto.
Qed.

Lemma issues_try_catch {A} P (m : Async Pool Broker A) handler :
  issues P m -> (forall e, issues P (handler e)) ->
  issues P (try_catch m handler).
Proof.
  intros Hm Hh w. unfold try_catch.
  destruct (Hm w) as (cs & Hcs & HP).
  destruct (m w) as [[a|e] w'] eqn:M; simpl in *.
  - exists cs. auto.
  - destruct (Hh e w') as (cs' & Hcs' & HP').
    exists (cs ++ cs'). rewrite Hcs', Hcs, app_assoc. split; [reflexivity|].
    apply Forall_app. auto.
Qed.

Lemma issues_Promise_all {A} P (promises : list (Async Pool Broker A)) :
  Forall (issues P) promises -> issues P (Promise_all promises).
Proof.
  induction 1 as [|p rest Hp Hrest IH]; intros w; simpl.
  - exists []. simpl. now rewrite app_nil_r.
  - destruct (Hp w) as (cs & Hcs & HP).
    destruct (p w) as [r w1]. simpl in Hcs.
    destruct (IH w1) as (cs' & Hcs' & HP').
    destruct (Promise_all rest w1) as [rs w2]. simpl in *.
    exists (cs ++ cs'). rewrite Hcs', Hcs, app_assoc. split; [reflexivity|].
    apply Forall_app. auto.
Qed.

Lemma issues_weaken {A} P (Q : Call Broker -> Prop) (m : Async Pool Broker A) :
  (forall c, P c -> Q c) -> issues P m -> issues Q m.
Proof.
  intros HPQ Hm w. destruct (Hm w) as (cs & Hcs & HP).
  exists cs. split; [assumption|]. eapply Forall_impl; eauto.
Qed.

(** *** Refreshing the metadata *)

Lemma refreshMetadata_calls w :
  calls (snd (refreshMetadata w))
  = calls w ++ [RefreshMetadata (JSSet.elements (targetTopics (cluster w)))].
Proof.
  unfold refreshMetadata, call.
  destruct (bp_refreshMetadata _ _). reflexivity.
Qed.

Lemma refreshMetadata_targets w :
  targetTopics (cluster (snd (refreshMetadata w))) = targetTopics (cluster w).
Proof.
  unfold refreshMetadata, call.
  destruct (bp_refreshMetadata _ _). reflexivity.
Qed.

Lemma issues_refreshMetadata P :
  (forall topics, P (RefreshMetadata topics)) -> issues P refreshMetadata.
Proof.
  intros HP w. eexists. split; [apply refreshMetadata_calls|]. auto.
Qed.

(** Whether [addMultipleTargetTopics] finds a change. *)
Lemma addMultipleTargetTopics_issued topics w :
  issued (addMultipleTargetTopics topics) w
  = if negb (Nat.eqb (JSSet.size (targetTopics (cluster w)))
               (JSSet.size (JSSet.add_all topics (targetTopics (cluster w)))))
       || match bp_metadata (brokerPool (cluster w)) with
          | Some _ => false
          | None => true
          end
    then [RefreshMetadata (JSSet.add_all topics (targetTopics (cluster w)))]
    else [].
Proof.
  unfold issued, addMultipleTargetTopics. simpl.
  destruct (negb _ || _).
  - rewrite refreshMetadata_calls. simpl. apply skipn_length_app.
  - simpl. apply skipn_all.
Qed.

Lemma addMultipleTargetTopics_targets topics w :
  targetTopics (cluster (snd (addMultipleTargetTopics topics w)))
  = JSSet.add_all topics (targetTopics (cluster w)).
Proof.
  unfold addMultipleTargetTopics. simpl.
  destruct (negb _ || _).
  - now rewrite refreshMetadata_targets.
  - reflexivity.
Qed.

Lemma size_changed topics (targets : JSSet.t string) :
  negb (Nat.eqb (JSSet.size targets) (JSSet.size (JSSet.add_all topics targets)))
  = true
  <-> exists t, In t topics /\ ~ In t targets.
Proof.
  rewrite negb_true_iff, Nat.eqb_neq. split.
  - intros Hne.
    assert (Hex : Exists (fun t => ~ In t targets) topics).
    { apply neg_Forall_Exists_neg.
      - intros t. destruct (in_dec string_dec t targets); auto.
      - intros Hall. apply Hne. symmetry.
        apply (proj2 (JSSetFacts.size_add_all_same topics targets)).
        now apply Forall_forall. }
    apply Exists_exists in Hex. exact Hex.
  - intros (t & Hin & Hnot) Heq. symmetry in Heq.
    apply Hnot.
    exact (proj1 (JSSetFacts.size_add_all_same topics targets) Heq t Hin).
Qed.

End Calls.

(** C5. [addTargetTopic(t)] triggers exactly one metadata refresh when [t]
    was not in the target set, and so does [addMultipleTargetTopics] when
    one of the given topics was not; they make no call when every given
    topic was already targeted and a snapshot is present; a refresh is
    forced whenever the snapshot is absent. The target set becomes the
    union. *)
Theorem addTargetTopic_refreshes :
  forall (Pool Broker : Type) (pool : BrokerPool Pool Broker)
         (w : World Pool Broker),
    let targets := targetTopics (cluster w) in
    let snapshot := bp_metadata (brokerPool (cluster w)) in
    (forall t,
        ~ In t targets -> refreshes (issued (addTargetTopic t) w) = 1%nat)
    /\ (forall topics,
          (exists t, In t topics /\ ~ In t targets) ->
          refreshes (issued (addMultipleTargetTopics topics) w) = 1%nat)
    /\ (forall t,
          In t targets -> snapshot <> None ->
          issued (addTargetTopic t) w = [])
    /\ (forall topics,
          (forall t, In t topics -> In t targets) -> snapshot <> None ->
          issued (addMultipleTargetTopics topics) w = [])
    /\ (forall topics,
          snapshot = None ->
          refreshes (issued (addMultipleTargetTopics topics) w) = 1%nat)
    /\ (forall topics t,
          In t (targetTopics (cluster (snd (addMultipleTargetTopics topics w))))
          <-> In t topics \/ In t targets).
Proof.
  intros Pool Broker pool w targets snapshot.
  assert (Hnew : forall topics,
            (exists t, In t topics /\ ~ In t targets) ->
            refreshes (issued (addMultipleTargetTopics topics) w) = 1%nat).
  { intros topics Hex. rewrite addMultipleTargetTopics_issued.
    apply size_changed in Hex. fold targets. rewrite Hex. reflexivity. }
  assert (Hold : forall topics,
            (forall t, In t topics -> In t targets) -> snapshot <> None ->
            issued (addMultipleTargetTopics topics) w = []).
  { intros topics Hall Hsnap. rewrite addMultipleTargetTopics_issued.
    fold targets. fold snapshot.
    destruct snapshot; [|contradiction].
    destruct (negb _) eqn:E; [|reflexivity].
    apply size_changed in E as (t & Hin & Hnot). elim Hnot. auto. }
  split; [|split; [|split; [|split; [|split]]]].
  - intros t Hnot. apply Hnew. exists t. simpl. auto.
  - exact Hnew.
  - intros t Hin. apply Hold. intros t' [<- | []]. assumption.
  - exact Hold.
  - intros topics Hsnap. rewrite addMultipleTargetTopics_issued.
    fold snapshot. rewrite Hsnap. rewrite orb_true_r. reflexivity.
  - intros topics t. rewrite addMultipleTargetTopics_targets.
    apply JSSetFacts.In_add_all.
Qed.

Lemma addTargetTopic_refreshes_witness :
  refreshes (issued (addTargetTopic (H := Scenario.steady None 0) "a")
               (Scenario.world ["b"] (Some Scenario.S1))) = 1%nat
  /\ issued (addTargetTopic (H := Scenario.steady None 0) "b")
       (Scenario.world ["b"] (Some Scenario.S1)) = []
  /\ refreshes (issued (addMultipleTargetTopics (H := Scenario.steady None 0) ["b"])
                  (Scenario.world ["b"] None)) = 1%nat.
Proof.
  split; [|split].
  - apply (proj1 (addTargetTopic_refreshes (Scenario.steady None 0)
                    (Scenario.world ["b"] (Some Scenario.S1)))).
    intros [Heq | []]. discriminate Heq.
  - apply (proj1 (proj2 (proj2 (addTargetTopic_refreshes (Scenario.steady None 0)
                    (Scenario.world ["b"] (Some Scenario.S1)))))).
    + simpl. auto.
    + discriminate.
  - apply (proj1 (proj2 (proj2 (proj2 (proj2
             (addTargetTopic_refreshes (Scenario.steady None 0)
                    (Scenario.world ["b"] None))))))).
    reflexivity.
Defined.

(** *** The controller *)

(** C8, a counterexample to the outcome being a returned broker or a
    [BrokerNotFound] failure whenever a snapshot with a controller id is
    present: on a snapshot whose controller is broker 1, with a pool whose
    broker lookup times out on the connection lock, [findControllerBroker]
    fails with that [KafkaJSLockTimeout]. *)
Lemma findControllerBroker_lock_timeout :
  let w := Scenario.world [] (Some Scenario.S1) in
  let outcome := fst (findControllerBroker (H := Scenario.locked) w) in
  bp_metadata (BrokerPool := Scenario.locked) (brokerPool (cluster w))
  = Some Scenario.S1
  /\ controllerId Scenario.S1 = Some 1
  /\ outcome = Thrown Scenario.LockTimeout
  /\ ~ ((exists broker, outcome = Returned broker)
        \/ fails_with BrokerNotFound outcome).
Proof.
  simpl. repeat split.
  intros [[broker Hb] | (e & He & Hname)].
  - discriminate Hb.
  - injection He as <-. discriminate Hname.
Qed.

(** C8, amended. [findControllerBroker] fails with [MetadataNotLoaded],
    leaving the world as it is and so without a broker lookup or any other
    call, whenever the snapshot is absent or its [controllerId] is null or
    undefined. Otherwise it calls [findBroker] on the controller id: it
    returns the broker when [findBroker] returns one, fails [BrokerNotFound]
    when [findBroker] returns none, and fails with the error of [findBroker]
    when [findBroker] fails. *)
Theorem findControllerBroker_outcomes :
  forall (Pool Broker : Type) (pool : BrokerPool Pool Broker)
         (w : World Pool Broker),
    let snapshot := bp_metadata (brokerPool (cluster w)) in
    ((snapshot = None
      \/ exists metadata,
           snapshot = Some metadata /\ controllerId metadata = None) ->
     fails_with MetadataNotLoaded (fst (findControllerBroker w))
     /\ snd (findControllerBroker w) = w
     /\ issued findControllerBroker w = [])
    /\ (forall metadata id,
          snapshot = Some metadata -> controllerId metadata = Some id ->
          findControllerBroker w
          = match findBroker id w with
            | (Returned (Some broker), w') => (Returned broker, w')
            | (Returned None, w') =>
                (Thrown
                   (KafkaJSBrokerNotFound
                      ("Controller broker with id " ++ toString id
                       ++ " not found in the cached metadata")), w')
            | (Thrown e, w') => (Thrown e, w')
            end).
Proof.
  intros Pool Broker pool w snapshot. split.
  - intros Habsent.
    assert (Hrun : findControllerBroker w
                   = (Thrown (KafkaJSMetadataNotLoaded "Topic metadata not loaded"), w)).
    { unfold findControllerBroker. fold snapshot.
      destruct Habsent as [-> | (metadata & -> & ->)]; reflexivity. }
    unfold issued. rewrite Hrun. simpl. split; [|split].
    + eexists. split; reflexivity.
    + reflexivity.
    + apply skipn_all.
  - intros metadata id Hsnap Hid. unfold findControllerBroker.
    fold snapshot. rewrite Hsnap, Hid. unfold bind.
    destruct (findBroker id w) as [[[broker|]|e] w']; reflexivity.
Qed.

Lemma findControllerBroker_outcomes_witness :
  fails_with MetadataNotLoaded
    (fst (findControllerBroker (H := Scenario.steady None 0)
            (Scenario.world [] (Some Scenario.S1_in_transition))))
  /\ issued (findControllerBroker (H := Scenario.steady None 0))
       (Scenario.world [] (Some Scenario.S1_in_transition)) = []
  /\ fst (findControllerBroker (H := Scenario.steady None 0)
            (Scenario.world [] (Some Scenario.S1)))
     = Returned 1.
Proof.
  pose proof (findControllerBroker_outcomes (Scenario.steady None 0)
                (Scenario.world [] (Some Scenario.S1_in_transition))) as [Habsent _].
  pose proof (findControllerBroker_outcomes (Scenario.steady None 0)
                (Scenario.world [] (Some Scenario.S1))) as [_ Hpresent].
  destruct Habsent as (Hfail & _ & Hcalls).
  { right. exists Scenario.S1_in_transition. split; reflexivity. }
  split; [exact Hfail | split; [exact Hcalls|]].
  rewrite (Hpresent Scenario.S1 1 eq_refl eq_refl). reflexivity.
Defined.

(** *** Merging and normalizing the responses *)



(** One step of the merge: it returns unless the topic is a name that the
    object only inherits. *)
Lemma mergeTopics_Returned obj r obj' :
  mergeTopics obj r = Returned obj' ->
  obj' = JSObject.set (r_topic r)
           (match JSObject.get obj (r_topic r) with Some ps => ps | None => [] end
            ++ r_partitions r) obj
  /\ (In (r_topic r) (JSObject.keys obj) \/ inherited (r_topic r) = false).
Proof.
  unfold mergeTopics.
  destruct (JSObject.get obj (r_topic r)) as [ps|] eqn:G.
  - intros [= <-]. split; [reflexivity|]. left.
    now apply JSObjectFacts.get_Some_keys in G.
  - destruct (inherited (r_topic r)); [discriminate|].
    intros [= <-]. auto.
Qed.

Lemma mergeTopics_Thrown obj r e :
  mergeTopics obj r = Thrown e ->
  name e = "TypeError" /\ inherited (r_topic r) = true
  /\ ~ In (r_topic r) (JSObject.keys obj).
Proof.
  unfold mergeTopics.
  destruct (JSObject.get obj (r_topic r)) as [ps|] eqn:G; [discriminate|].
  destruct (inherited (r_topic r)); [|discriminate].
  intros [= <-]. split; [reflexivity|]. split; [reflexivity|].
  now apply JSObjectFacts.get_None_keys.
Qed.

Lemma mergeTopics_named obj r :
  inherited (r_topic r) = false ->
  mergeTopics obj r
  = Returned (JSObject.set (r_topic r)
                (match JSObject.get obj (r_topic r) with
                 | Some ps => ps
                 | None => []
                 end ++ r_partitions r) obj).
Proof.
  unfold mergeTopics. intros ->. destruct (JSObject.get obj (r_topic r)); reflexivity.
Qed.



(** The merge returns exactly when no topic of the responses is a name
    that the merged object only inherits. *)
Lemma mergeTopics_total rs : forall init,
  (forall k, In k (JSObject.keys init) -> inherited k = false) ->
  (forall r, In r rs -> inherited (r_topic r) = false) ->
  exists obj, reduce mergeTopics rs init = Returned obj.
Proof.
  induction rs as [|r rs IH]; intros init Hinit Hnamed; simpl; [eauto|].
  rewrite mergeTopics_named by (apply Hnamed; now left). simpl.
  apply IH.
  - intros k Hk. apply JSObjectFacts.In_keys_set in Hk as [-> | Hk]; [|auto].
    apply Hnamed. now left.
  - intros r' Hr'. apply Hnamed. now right.
Qed.

Lemma mergeTopics_named_only rs : forall init obj,
  (forall k, In k (JSObject.keys init) -> inherited k = false) ->
  reduce mergeTopics rs init = Returned obj ->
  forall r, In r rs -> inherited (r_topic r) = false.
Proof.
  induction rs as [|r rs IH]; intros init obj Hinit; simpl; [intros _ r []|].
  intros Hred. apply obind_Returned in Hred as (obj1 & Hstep & Hrest).
  apply mergeTopics_Returned in Hstep as [-> Hnamed].
  assert (Hr : inherited (r_topic r) = false)
    by (destruct Hnamed as [Hk | Hk]; auto).
  intros r' [<- | Hr']; [assumption|].
  apply (IH _ _) with (r := r') in Hrest; [assumption | | assumption].
  intros k Hk. apply JSObjectFacts.In_keys_set in Hk as [-> | Hk]; auto.
Qed.

Lemma mergeTopics_fails rs : forall init e,
  reduce mergeTopics rs init = Thrown e -> name e = "TypeError".
Proof.
  induction rs as [|r rs IH]; intros init e; simpl; [discriminate|].
  intros Hred. apply obind_Thrown in Hred as [Hstep | (obj1 & _ & Hrest)].
  - now apply mergeTopics_Thrown in Hstep.
  - eauto.
Qed.

Lemma normalize_topics obj : map o_topic (normalize obj) = JSObject.keys obj.
Proof.
  unfold normalize, JSObject.keys. rewrite map_map.
  apply map_ext. now intros [t ps].
Qed.







(** The merge returns exactly when the brokers name no topic that an
    object literal inherits; otherwise it fails with a [TypeError]. *)
Lemma mergeResponses_outcome responses :
  (forall r, In r (flatten responses) -> inherited (r_topic r) = false)
  /\ (exists out, mergeResponses responses = Returned out)
  \/ (exists r, In r (flatten responses) /\ inherited (r_topic r) = true)
     /\ fails_with "TypeError" (mergeResponses responses).
Proof.
  unfold mergeResponses.
  destruct (reduce mergeTopics (flatten responses) JSObject.empty_object)
    as [obj|e] eqn:R; simpl.
  - left. split; [|eauto].
    apply (mergeTopics_named_only (flatten responses)) with (2 := R).
    intros k [].
  - right. split.
    + destruct (existsb (fun r => inherited (r_topic r)) (flatten responses))
        eqn:E.
      * apply existsb_exists in E as (r & Hin & Hr). eauto.
      * exfalso.
        destruct (@mergeTopics_total (flatten responses)
                    JSObject.empty_object) as [obj Hobj].
        -- intros k [].
        -- intros r Hr. destruct (inherited (r_topic r)) eqn:I; [|reflexivity].
           assert (Ht : existsb (fun r => inherited (r_topic r))
                          (flatten responses) = true)
             by (apply existsb_exists; eauto).
           congruence.
        -- congruence.
    + exists e. split; [reflexivity|]. now apply mergeTopics_fails in R.
Qed.





Lemma fetchTopicsOffset_run {Pool Broker} `{BrokerPool Pool Broker}
  (topics : list TopicData) (w : World Pool Broker) :
  fetchTopicsOffset topics w
  = (match fst (fetchResponses topics w) with
     | Returned responses => mergeResponses responses
     | Thrown e => Thrown e
     end, snd (fetchResponses topics w)).
Proof.
  unfold fetchTopicsOffset, bind, lift.
  destruct (fetchResponses topics w) as [[responses|e] w']; reflexivity.
Qed.

(** *** The index and the requests of [fetchTopicsOffset] *)

Lemma map_outcome_Returned {A B} (f : A -> Outcome B) xs : forall ys,
  map_outcome f xs = Returned ys ->
  Forall2 (fun x y => f x = Returned y) xs ys.
Proof.
  induction xs as [|x xs IH]; intros ys; simpl.
  - intros [= <-]. constructor.
  - intros Hmap. apply obind_Returned in Hmap as (y & Hy & Hrest).
    apply obind_Returned in Hrest as (ys' & Hys' & [= <-]).
    constructor; auto.
Qed.


Lemma Forall2_In_r {A B} (R : A -> B -> Prop) xs ys y :
  Forall2 R xs ys -> In y ys -> exists x, In x xs /\ R x y.
Proof.
  induction 1 as [|x y' xs ys HR _ IH]; simpl; [intros []|].
  intros [<- | Hin]; [eauto|].
  destruct (IH Hin) as (x' & Hx' & HR'). eauto.
Qed.

Lemma addDefaultOffset_Returned tc topic p d :
  addDefaultOffset tc topic p = Returned d ->
  exists fb,
    JSObject.get tc topic = Some fb
    /\ lp_partition d = partition p
    /\ timestamp d = defaultOffset fb.
Proof.
  unfold addDefaultOffset. destruct (JSObject.get tc topic) as [fb|]; [|discriminate].
  intros [= <-]. eauto.
Qed.

(** Every descriptor of a request comes from a descriptor of the index,
    with the default offset of its topic. *)
Lemma requestTopics_Returned tc partitions ts :
  requestTopics tc partitions = Returned ts ->
  forall lt d,
    In lt ts -> In d (lt_partitions lt) ->
    exists ps p fb,
      In (lt_topic lt, ps) partitions /\ In p ps
      /\ lp_partition d = partition p
      /\ JSObject.get tc (lt_topic lt) = Some fb
      /\ timestamp d = defaultOffset fb.
Proof.
  unfold requestTopics. intros Hreq lt d Hlt Hd.
  apply map_outcome_Returned in Hreq.
  destruct (@Forall2_In_r _ _ _ _ _ _ Hreq Hlt) as ([t ps] & Hin & Hrun).
  apply obind_Returned in Hrun as (ds & Hds & [= <-]). simpl in *.
  apply map_outcome_Returned in Hds.
  destruct (@Forall2_In_r _ _ _ _ _ _ Hds Hd) as (p & Hp & Hrun).
  apply addDefaultOffset_Returned in Hrun as (fb & Hget & Hpart & Hts).
  exists ps, p, fb. auto.
Qed.






(** *** Assignment to a property of an object literal *)


Lemma In_assign {V} k (v : V) o k' v' :
  In (k', v') (assign k v o) ->
  (k' = k /\ v' = v /\ k <> "__proto__") \/ In (k', v') o.
Proof.
  unfold assign. destruct (String.eqb_spec k "__proto__") as [Heq | Hne]; [auto|].
  intros Hin. apply JSObjectFacts.In_set in Hin as [[-> ->] | Hin]; auto.
Qed.

Section Index.
Context {Pool Broker : Type} `{BrokerPool Pool Broker}.
Variable this : Cluster Pool.

Lemma indexTopic_Returned ppb tc td ppb' tc' :
  indexTopic this (ppb, tc) td = Returned (ppb', tc') ->
  exists partitionsPerLeader,
    findLeaderForPartitions this (topic td) (map partition (partitions td))
    = Returned partitionsPerLeader
    /\ ppb' = fold_left (indexLeader td) partitionsPerLeader ppb
    /\ tc' = assign (topic td) (fromBeginning td) tc.
Proof.
  unfold indexTopic. intros Hrun.
  apply obind_Returned in Hrun as (ppl & Hppl & [= <- <-]). eauto.
Qed.






End Index.

Section Requests.
Context {Pool Broker : Type} `{BrokerPool Pool Broker}.
Implicit Types (w : World Pool Broker) (P : Call Broker -> Prop).

Lemma issues_findBroker P nodeId :
  (forall n, P (FindBroker n)) -> (forall ts, P (RefreshMetadata ts)) ->
  issues P (findBroker nodeId).
Proof.
  intros Hfind Hrefresh. unfold findBroker.
  apply issues_try_catch.
  - apply issues_call, Hfind.
  - intros e. apply issues_bind.
    + destruct (staleMetadata e);
        [now apply issues_refreshMetadata | apply issues_ret].
    + intros _ _ _. apply issues_throw.
Qed.

Lemma request_issues iso (index : Index) nodeId partitions :
  In (nodeId, partitions) (fst index) ->
  issues (requestOf (Broker := Broker) iso index)
    (request iso (snd index) nodeId partitions).
Proof.
  intros Hin. unfold request. apply issues_bind.
  - apply issues_findBroker; simpl; auto.
  - intros [broker|] _ _; [|apply issues_throw].
    apply issues_bind; [apply issues_lift|].
    intros ts w Hts. simpl in Hts.
    apply issues_call. simpl. split; [reflexivity|]. eauto.
Qed.

Lemma fetchResponses_calls topics w :
  match indexTopics (cluster w) topics with
  | Returned index =>
      exists cs,
        calls (snd (fetchResponses topics w)) = calls w ++ cs
        /\ Forall (requestOf (isolationLevel (cluster w)) index) cs
  | Thrown _ => snd (fetchResponses topics w) = w
  end.
Proof.
  unfold fetchResponses, bind, lift.
  destruct (indexTopics (cluster w) topics) as [[ppb tc]|e]; [|reflexivity].
  apply (@issues_Promise_all _ _ _ (requestOf (isolationLevel (cluster w)) (ppb, tc))).
  apply Forall_forall. intros p Hp.
  apply in_map_iff in Hp as ([nodeId partitions] & <- & Hin).
  now apply (@request_issues (isolationLevel (cluster w)) (ppb, tc)).
Qed.

Lemma fetchTopicsOffset_issued topics w :
  issued (fetchTopicsOffset topics) w = issued (fetchResponses topics) w.
Proof. unfold issued. now rewrite fetchTopicsOffset_run. Qed.

End Requests.

Section Existence.
Context {Pool Broker : Type} `{BrokerPool Pool Broker}.
Implicit Types (w : World Pool Broker).

(** The calls of one request: the broker lookup comes first, and a request
    that returns has made exactly one more call, [listOffsets] on the broker
    that the lookup returned, with the request topics of its index entry. *)
Lemma request_calls iso tc nodeId partitions w :
  exists cs,
    calls (snd (request iso tc nodeId partitions w))
    = calls w ++ FindBroker nodeId :: cs
    /\ forall responses,
         fst (request iso tc nodeId partitions w) = Returned responses ->
         exists broker ts,
           fst (bp_findBroker nodeId (brokerPool (cluster w)))
           = Returned (Some broker)
           /\ requestTopics tc partitions = Returned ts
           /\ cs = [ListOffsets broker
                      {| lo_isolationLevel := iso; lo_topics := ts |}].
Proof.
  unfold request, findBroker, try_catch, bind, call, lift, throw, ret.
  destruct (bp_findBroker nodeId (brokerPool (cluster w))) as [[[broker|]|e] pool'];
    simpl.
  - destruct (requestTopics tc partitions) as [ts|e]; simpl.
    + destruct (broker_listOffsets broker _ pool') as [r pool'']. simpl.
      exists [ListOffsets broker {| lo_isolationLevel := iso; lo_topics := ts |}].
      rewrite <- app_assoc. simpl. split; [reflexivity|].
      intros responses _. eauto.
    + exists []. split; [reflexivity | discriminate].
  - exists []. split; [reflexivity | discriminate].
  - destruct (staleMetadata e); simpl.
    + unfold refreshMetadata, call, bind. simpl.
      match goal with
      | |- context [bp_refreshMetadata ?ts ?pool] =>
          destruct (bp_refreshMetadata ts pool) as [[[]|e'] pool'']
      end; simpl;
        eexists; rewrite <- app_assoc; simpl; (split; [reflexivity | discriminate]).
    + exists []. split; [reflexivity | discriminate].
Qed.




Variable this : Cluster Pool.

Lemma indexLeader_keys td ppb entry n :
  In n (JSObject.keys (indexLeader td ppb entry))
  <-> n = fst entry \/ In n (JSObject.keys ppb).
Proof.
  destruct entry as [nodeId ids]. unfold indexLeader.
  apply JSObjectFacts.In_keys_set.
Qed.

Lemma fold_indexLeader_keys td ppl : forall ppb n,
  In n (JSObject.keys (fold_left (indexLeader td) ppl ppb))
  <-> In n (JSObject.keys ppl) \/ In n (JSObject.keys ppb).
Proof.
  induction ppl as [|entry ppl IH]; intros ppb n; simpl.
  - unfold JSObject.keys at 2. simpl. tauto.
  - rewrite IH, indexLeader_keys.
    change (JSObject.keys (entry :: ppl)) with (fst entry :: JSObject.keys ppl).
    simpl. intuition congruence.
Qed.

(** Every leader of an indexed topic is a key of the index. *)
Lemma indexTopics_keys topics : forall ppb tc ppb' tc',
  reduce (indexTopic this) topics (ppb, tc) = Returned (ppb', tc') ->
  (forall n, In n (JSObject.keys ppb) -> In n (JSObject.keys ppb'))
  /\ forall td, In td topics ->
       exists ppl,
         findLeaderForPartitions this (topic td) (map partition (partitions td))
         = Returned ppl
         /\ forall n, In n (JSObject.keys ppl) -> In n (JSObject.keys ppb').
Proof.
  induction topics as [|td0 rest IH]; intros ppb tc ppb' tc'; simpl.
  - intros [= <- <-]. split; [auto | intros td []].
  - intros Hred. apply obind_Returned in Hred as ([ppb1 tc1] & Hstep & Hrest).
    apply indexTopic_Returned in Hstep as (ppl & Hppl & -> & _).
    destruct (IH _ _ _ _ Hrest) as [Hmono Hleaders]. split.
    + intros n Hn. apply Hmono, fold_indexLeader_keys. now right.
    + intros td [<- | Hin]; [|auto].
      exists ppl. split; [assumption|].
      intros n Hn. apply Hmono, fold_indexLeader_keys. now left.
Qed.

Lemma findLeaderForPartitions_key topic ids pm ppl id n :
  findTopicPartitionMetadata this topic = Returned pm ->
  findLeaderForPartitions this topic ids = Returned ppl ->
  In id ids -> leaderOf pm id = Some n ->
  In n (JSObject.keys ppl).
Proof.
  intros Hloaded Hppl Hid Hleader.
  rewrite (findLeaderForPartitions_loaded _ _ ids Hloaded) in Hppl.
  apply JSObjectFacts.In_keys_iff.
  rewrite (reduce_leaders_get _ _ _ Hppl n). simpl.
  assert (Hf : In id (filter (ledBy pm n) ids)).
  { apply filter_In. split; [assumption|]. unfold ledBy. rewrite Hleader.
    apply Z.eqb_refl. }
  destruct (filter (ledBy pm n) ids); [destruct Hf | eauto].
Qed.

End Existence.

Section Contents.
Context {Pool Broker : Type} `{BrokerPool Pool Broker}.
Variable this : Cluster Pool.








Lemma findLeaderForPartitions_NoDup topic ids ppl :
  findLeaderForPartitions this topic ids = Returned ppl ->
  NoDup (JSObject.keys ppl).
Proof.
  unfold findLeaderForPartitions. intros Hrun.
  apply obind_Returned in Hrun as (pm & _ & Hred).
  eapply reduce_leaders_NoDup; eauto. constructor.
Qed.







End Contents.

Section Answers.
Context {Pool Broker : Type} `{BrokerPool Pool Broker}.
Implicit Types (w : World Pool Broker).





Variable this : Cluster Pool.




End Answers.

Section EndToEnd.
Context {Pool Broker : Type} `{BrokerPool Pool Broker}.
Implicit Types (w : World Pool Broker).




End EndToEnd.



Section Recoded.
Context {Pool Broker : Type}.
Variable pool : BrokerPool Pool Broker.
Variable f : PartitionOffsetResponse -> Z.
Implicit Types (w : World Pool Broker).




End Recoded.



End ClusterFacts.

(* ------------------------------------------------------------------ *)
(** ** More about [JSSet] and [JSObject] *)

Module ContainerFacts.

Section Sets.
Context {A : Type} `{Eqb A}.
Implicit Types (s : JSSet.t A) (x : A) (xs : list A).

Lemma add_member x s : In x s -> JSSet.add x s = s.
Proof.
  intros Hin. unfold JSSet.add.
  now rewrite (proj2 (JSSetFacts.has_In s x) Hin).
Qed.

Lemma add_all_members xs : forall s,
  (forall x, In x xs -> In x s) -> JSSet.add_all xs s = s.
Proof.
  induction xs as [|x xs IH]; intros s Hall; [reflexivity|].
  unfold JSSet.add_all in *. simpl. rewrite add_member by (apply Hall; now left).
  apply IH. intros y Hy. apply Hall. now right.
Qed.

Lemma add_all_twice xs s :
  JSSet.add_all xs (JSSet.add_all xs s) = JSSet.add_all xs s.
Proof.
  apply add_all_members. intros x Hx.
  apply JSSetFacts.In_add_all. now left.
Qed.

Lemma has_add_all xs s x :
  JSSet.has (JSSet.add_all xs s) x = JSSet.has xs x || JSSet.has s x.
Proof.
  apply eq_true_iff_eq. rewrite orb_true_iff, !JSSetFacts.has_In.
  apply JSSetFacts.In_add_all.
Qed.

Lemma has_delete_all xs s x :
  JSSet.has (JSSet.delete_all xs s) x = JSSet.has s x && negb (JSSet.has xs x).
Proof.
  apply eq_true_iff_eq.
  rewrite andb_true_iff, negb_true_iff, JSSetFacts.has_false, !JSSetFacts.has_In.
  apply JSSetFacts.In_delete_all.
Qed.

Lemma NoDup_add x s : NoDup s -> NoDup (JSSet.add x s).
Proof.
  intros ND. unfold JSSet.add. destruct (JSSet.has s x) eqn:E; [assumption|].
  apply JSSetFacts.has_false in E.
  apply NoDup_app; [assumption | constructor; [intros [] | constructor] |].
  intros y Hy [<- | []]. contradiction.
Qed.

Lemma NoDup_add_all xs : forall s, NoDup s -> NoDup (JSSet.add_all xs s).
Proof.
  induction xs as [|x xs IH]; intros s ND; [assumption|].
  unfold JSSet.add_all in *. simpl. apply IH. now apply NoDup_add.
Qed.

Lemma NoDup_delete_all xs : forall s, NoDup s -> NoDup (JSSet.delete_all xs s).
Proof.
  induction xs as [|x xs IH]; intros s ND; [assumption|].
  unfold JSSet.delete_all in *. simpl. apply IH.
  unfold JSSet.delete. now apply NoDup_filter.
Qed.

(** A set keeps its elements in the order of their first insertion. *)
Lemma add_all_prefix xs : forall s, exists new, JSSet.add_all xs s = s ++ new.
Proof.
  induction xs as [|x xs IH]; intros s.
  - exists []. simpl. now rewrite app_nil_r.
  - unfold JSSet.add_all in *. simpl. destruct (IH (JSSet.add x s)) as [new Hnew].
    rewrite Hnew. unfold JSSet.add. destruct (JSSet.has s x).
    + now exists new.
    + exists ([x] ++ new). now rewrite app_assoc.
Qed.

End Sets.

Section Objects.
Context {K V : Type} `{Eqb K} `{PropertyKey K}.
Implicit Types (o : JSObject.object K V) (k : K) (v : V) (n : N).

Lemma replace_replace k v v' o :
  JSObject.replace k v' (JSObject.replace k v o) = JSObject.replace k v' o.
Proof.
  induction o as [|[k1 v1] o IH]; simpl; [reflexivity|].
  destruct (eqb k k1) eqn:E; simpl; rewrite E; [reflexivity | now rewrite IH].
Qed.

Lemma replace_insert_index n k v v' o :
  JSObject.get o k = None ->
  JSObject.replace k v' (JSObject.insert_index n k v o)
  = JSObject.insert_index n k v' o.
Proof.
  induction o as [|[k1 v1] o IH]; simpl; intros Hnone.
  - now rewrite eqb_refl.
  - destruct (eqb k k1) eqn:E; [discriminate|].
    destruct (JSObject.index_before n k1); simpl.
    + now rewrite eqb_refl.
    + rewrite E. now rewrite IH.
Qed.

Lemma replace_last k v v' o :
  JSObject.get o k = None ->
  JSObject.replace k v' (o ++ [(k, v)]) = o ++ [(k, v')].
Proof.
  induction o as [|[k1 v1] o IH]; simpl; intros Hnone.
  - now rewrite eqb_refl.
  - destruct (eqb k k1) eqn:E; [discriminate|]. now rewrite IH.
Qed.

(** A second assignment to a key overrides the first and keeps its place. *)
Lemma set_set k v v' o :
  JSObject.set k v' (JSObject.set k v o) = JSObject.set k v' o.
Proof.
  unfold JSObject.set at 1. unfold JSObject.hasOwn.
  rewrite JSObjectFacts.get_set_same.
  unfold JSObject.set, JSObject.hasOwn, JSObject.create.
  destruct (JSObject.get o k) eqn:G.
  - apply replace_replace.
  - destruct (array_index k).
    + now apply replace_insert_index.
    + now apply replace_last.
Qed.

Lemma length_replace k v o :
  List.length (JSObject.replace k v o) = List.length o.
Proof.
  induction o as [|[k1 v1] o IH]; simpl; [reflexivity|].
  destruct (eqb k k1); simpl; auto.
Qed.

End Objects.
End ContainerFacts.

(* ------------------------------------------------------------------ *)
(** ** [SubscriptionState]: further properties *)

Module SubscriptionStateExtras.
Import SubscriptionState Observations.

(** *** Topics that a call does not name *)

Lemma pause_entry_other this tp u :
  topic tp <> u ->
  JSObject.get (pause_entry this tp) u = JSObject.get this u.
Proof.
  intros Hne. unfold pause_entry.
  apply JSObjectFacts.get_set_other. congruence.
Qed.

Lemma resume_entry_other this tp this' u :
  resume_entry this tp = Returned this' -> topic tp <> u ->
  JSObject.get this' u = JSObject.get this u.
Proof.
  unfold resume_entry. intros Hres Hne.
  destruct (partitions tp);
    [| destruct (negb _); [|discriminate] |];
    injection Hres as <-; apply JSObjectFacts.get_set_other; congruence.
Qed.

Lemma isPaused_get this this' t :
  JSObject.get this' t = JSObject.get this t ->
  forall p, isPaused this' t p = isPaused this t p.
Proof. intros Heq p. unfold isPaused. now rewrite Heq. Qed.

Lemma pause_other tps u : forall this,
  (forall tp, In tp tps -> topic tp <> u) ->
  JSObject.get (pause tps this) u = JSObject.get this u.
Proof.
  induction tps as [|tp tps IH]; intros this Hnone; [reflexivity|].
  simpl. rewrite IH by (intros; apply Hnone; now right).
  apply pause_entry_other. apply Hnone. now left.
Qed.

Lemma resume_other tps u : forall this,
  (forall tp, In tp tps -> topic tp <> u) ->
  JSObject.get (snd (resume tps this)) u = JSObject.get this u.
Proof.
  induction tps as [|tp tps IH]; intros this Hnone; [reflexivity|].
  simpl. destruct (resume_entry this tp) as [this'|e] eqn:R; [|reflexivity].
  rewrite IH by (intros; apply Hnone; now right).
  eapply resume_entry_other; eauto. apply Hnone. now left.
Qed.

(** X1. [pause] and [resume] leave alone every topic that their argument
    does not name: its entry, and so [isPaused] for each of its partitions,
    is the same after the call, also after a [resume] that throws. *)
Theorem unnamed_topics_untouched :
  forall (tps : list TopicPartitions) (this : state) (u : string),
    (forall tp, In tp tps -> topic tp <> u) ->
    JSObject.get (pause tps this) u = JSObject.get this u
    /\ JSObject.get (snd (resume tps this)) u = JSObject.get this u
    /\ forall p,
         isPaused (pause tps this) u p = isPaused this u p
         /\ isPaused (snd (resume tps this)) u p = isPaused this u p.
Proof.
  intros tps this u Hnone.
  pose proof (pause_other tps this Hnone) as Hpause.
  pose proof (resume_other tps this Hnone) as Hresume.
  split; [assumption|]. split; [assumption|].
  intros p. split; now apply isPaused_get.
Qed.

Lemma unnamed_topics_untouched_witness :
  isPaused (pause [only "t" [1]; entirely "v"] (pause [only "u" [7]] constructor))
    "u" 7
  = isPaused (pause [only "u" [7]] constructor) "u" 7.
Proof.
  assert (Hnone : forall tp, In tp [only "t" [1]; entirely "v"] -> topic tp <> "u").
  { intros tp [<- | [<- | []]]; discriminate. }
  exact (proj1 (proj2 (proj2
    (@unnamed_topics_untouched [only "t" [1]; entirely "v"]
       (pause [only "u" [7]] constructor) "u" Hnone)) 7)).
Defined.

(** *** What a call on one topic leaves paused *)

Lemma pause_only_get this t ps :
  exists paused,
    JSObject.get (pause [only t ps] this) t = Some paused
    /\ pf_all paused = Some false
    /\ pf_partitions paused = JSSet.add_all ps (pausedPartitions this t).
Proof.
  simpl. unfold pause_entry, pausedPartitions. simpl.
  rewrite JSObjectFacts.get_set_same. eexists. split; [reflexivity|].
  simpl. destruct (JSObject.get this t); auto.
Qed.

(** X2. For a topic [t] that is not the name of a property of
    [Object.prototype], after [pause([{topic: t, partitions: ps}])] a
    partition of [t] is paused exactly when it is in [ps] or was held in the
    partition set of [t] before; in particular every partition of [ps] is
    paused. *)
Theorem pause_partitions_isPaused :
  forall (this : state) (t : string) (ps : list Z) (p : Z),
    inherited t = false ->
    isPaused (pause [only t ps] this) t p
    = JSSet.has ps p || JSSet.has (pausedPartitions this t) p.
Proof.
  intros this t ps p _.
  destruct (pause_only_get this t ps) as (paused & Hget & Hall & Hparts).
  unfold isPaused. rewrite Hget, Hall, Hparts. simpl.
  apply ContainerFacts.has_add_all.
Qed.

Lemma pause_partitions_isPaused_witness :
  isPaused (pause [only "t" [4]] (pause [only "t" [1]] constructor)) "t" 1
  = JSSet.has [4] 1 || JSSet.has (pausedPartitions (pause [only "t" [1]] constructor) "t") 1.
Proof.
  apply (pause_partitions_isPaused (pause [only "t" [1]] constructor) "t" [4] 1).
  reflexivity.
Defined.

(** X3. For a topic [t] that is not the name of a property of
    [Object.prototype], [pause([{topic: t}])] pauses every partition of
    [t], and [resume([{topic: t}])] returns and leaves no partition of [t]
    paused, whatever the state before. *)
Theorem pause_resume_entire_topic :
  forall (this : state) (t : string) (p : Z),
    inherited t = false ->
    isPaused (pause [entirely t] this) t p = true
    /\ fst (resume [entirely t] this) = Returned tt
    /\ isPaused (snd (resume [entirely t] this)) t p = false.
Proof.
  intros this t p _. simpl. unfold pause_entry, resume_entry, isPaused. simpl.
  rewrite !JSObjectFacts.get_set_same. simpl. auto.
Qed.

Lemma pause_resume_entire_topic_witness :
  isPaused (pause [entirely "t"] constructor) "t" 5 = true
  /\ fst (resume [entirely "t"] constructor) = Returned tt
  /\ isPaused (snd (resume [entirely "t"] constructor)) "t" 5 = false.
Proof.
  apply (pause_resume_entire_topic constructor "t" 5). reflexivity.
Defined.

(** X4. A [resume] of listed partitions on a topic that is not the name of
    a property of [Object.prototype] and is not in the [all = true] state
    returns, and leaves paused exactly the partitions of the topic that
    were paused and are not listed. *)
Theorem resume_partitions_isPaused :
  forall (this : state) (t : string) (ps : list Z) (p : Z),
    inherited t = false ->
    ~ paused_entirely this t ->
    fst (resume [only t ps] this) = Returned tt
    /\ isPaused (snd (resume [only t ps] this)) t p
       = isPaused this t p && negb (JSSet.has ps p).
Proof.
  intros this t ps p _ Hnot. simpl. unfold resume_entry, isPaused. simpl.
  destruct (JSObject.get this t) as [paused|] eqn:G; simpl.
  - destruct (truthy (pf_all paused)) eqn:T; simpl.
    + exfalso. apply Hnot. exists paused. split; [assumption|].
      now apply SubscriptionStateFacts.truthy_true.
    + rewrite JSObjectFacts.get_set_same. simpl. rewrite T. simpl.
      split; [reflexivity|]. apply ContainerFacts.has_delete_all.
  - rewrite JSObjectFacts.get_set_same. simpl. split; [reflexivity|].
    rewrite JSSetFacts.delete_all_nil. reflexivity.
Qed.

Lemma resume_partitions_isPaused_witness :
  isPaused (snd (resume [only "t" [2]] (pause [only "t" [1; 2; 3]] constructor)))
    "t" 3
  = isPaused (pause [only "t" [1; 2; 3]] constructor) "t" 3
    && negb (JSSet.has [2] 3).
Proof.
  assert (Hnot : ~ paused_entirely (pause [only "t" [1; 2; 3]] constructor) "t").
  { intros (paused & Hget & Hall). vm_compute in Hget.
    injection Hget as <-. discriminate Hall. }
  exact (proj2 (@resume_partitions_isPaused
                  (pause [only "t" [1; 2; 3]] constructor) "t" [2] 3 eq_refl
                  Hnot)).
Defined.

(** X5. Pausing the same entry a second time changes nothing. *)
Theorem pause_twice :
  forall (this : state) (tp : TopicPartitions),
    pause [tp] (pause [tp] this) = pause [tp] this.
Proof.
  intros this tp. simpl.
  unfold pause_entry. rewrite JSObjectFacts.get_set_same.
  rewrite ContainerFacts.set_set. f_equal.
  destruct (partitions tp); simpl; [reflexivity | | reflexivity].
  now rewrite ContainerFacts.add_all_twice.
Qed.

(** X6. A [resume] that throws is not undone: the entries before the one
    that throws have been applied, and the entries after it are not
    handled. *)
Theorem resume_failure_keeps_earlier_entries :
  forall (before after : list TopicPartitions) (tp : TopicPartitions)
         (this this' : state) (e : JSError),
    resume before this = (Returned tt, this') ->
    resume_entry this' tp = Thrown e ->
    resume (before ++ tp :: after) this = (Thrown e, this').
Proof.
  intros before after tp this this' e Hbefore Hthrown.
  erewrite SubscriptionStateFacts.resume_app by eassumption.
  simpl. now rewrite Hthrown.
Qed.

Lemma resume_failure_keeps_earlier_entries_witness :
  let this := pause [only "t" [1; 2]; entirely "u"] constructor in
  let after := resume [only "t" [1]; only "u" [0]; only "t" [2]] this in
  fails_with NonRetriable (fst after)
  /\ isPaused (snd after) "t" 1 = false
  /\ isPaused (snd after) "t" 2 = true.
Proof.
  intros this after.
  assert (Hrun : after
                 = (Thrown (KafkaJSNonRetriableError
                      "Can not resume specific partitions of topic when entire topic was paused before"),
                    snd (resume [only "t" [1]] this))).
  { apply (@resume_failure_keeps_earlier_entries
             [only "t" [1]] [only "t" [2]] (only "u" [0]) this
             (snd (resume [only "t" [1]] this))); reflexivity. }
  rewrite Hrun. simpl. split; [eexists; split; reflexivity|]. split; reflexivity.
Defined.

(** *** The entries of an instance *)

Lemma base_entry_consistent this t dflt :
  consistent this ->
  pf_topic dflt = t -> NoDup (pf_partitions dflt) ->
  let base := match JSObject.get this t with Some p => p | None => dflt end in
  pf_topic base = t /\ NoDup (pf_partitions base).
Proof.
  intros [_ Hentries] Ht Hnd. simpl.
  destruct (JSObject.get this t) as [paused|] eqn:G; [|auto].
  apply Hentries. now apply JSObjectFacts.get_Some_In.
Qed.

Lemma set_consistent this t paused :
  consistent this ->
  pf_topic paused = t -> NoDup (pf_partitions paused) ->
  consistent (JSObject.set t paused this).
Proof.
  intros [Hkeys Hentries] Ht Hnd. split.
  - now apply JSObjectFacts.NoDup_keys_set.
  - intros t' paused' Hin.
    apply JSObjectFacts.In_set in Hin as [[-> ->] | Hin]; auto.
Qed.

Lemma pause_entry_consistent this tp :
  consistent this -> consistent (pause_entry this tp).
Proof.
  intros Hc. unfold pause_entry.
  destruct (@base_entry_consistent this (topic tp)
              {| pf_topic := topic tp; pf_partitions := JSSet.empty;
                 pf_all := Some false |} Hc eq_refl (NoDup_nil Z))
    as [Ht Hnd].
  apply set_consistent; [assumption | |]; destruct (partitions tp); simpl; auto.
  - constructor.
  - now apply ContainerFacts.NoDup_add_all.
Qed.

Lemma resume_entry_consistent this tp this' :
  resume_entry this tp = Returned this' ->
  consistent this -> consistent this'.
Proof.
  unfold resume_entry. intros Hres Hc.
  destruct (@base_entry_consistent this (topic tp)
              {| pf_topic := topic tp; pf_partitions := JSSet.empty;
                 pf_all := None |} Hc eq_refl (NoDup_nil Z))
    as [Ht Hnd].
  destruct (partitions tp);
    [| destruct (negb _); [|discriminate] |];
    injection Hres as <-; apply set_consistent; simpl; auto.
  - constructor.
  - now apply ContainerFacts.NoDup_delete_all.
Qed.

Lemma perform_consistent this op :
  consistent this -> consistent (perform this op).
Proof.
  destruct op as [tps|tps| |]; simpl; auto.
  - revert this. induction tps as [|tp tps IH]; intros this Hc; [assumption|].
    simpl. apply IH. now apply pause_entry_consistent.
  - revert this. induction tps as [|tp tps IH]; intros this Hc; [assumption|].
    simpl. destruct (resume_entry this tp) eqn:R; [|assumption].
    apply IH. eapply resume_entry_consistent; eauto.
Qed.

Lemma reachable_consistent ops : consistent (run ops constructor).
Proof.
  assert (Hgen : forall this, consistent this -> consistent (run ops this)).
  { induction ops as [|op ops IH]; intros this Hc; [assumption|].
    simpl. apply IH. now apply perform_consistent. }
  apply Hgen. split; [constructor | intros t paused []].
Qed.

Lemma paused_topics this :
  consistent this -> map p_topic (paused this) = JSObject.keys this.
Proof.
  intros [_ Hentries]. unfold paused, JSObject.values, JSObject.keys.
  rewrite !map_map. apply map_ext_in. intros [t e] Hin. simpl.
  now apply Hentries.
Qed.

(** X7. On every state that an instance reaches, [paused()] has at most one
    entry per topic, and the partitions of an entry are distinct. *)
Theorem paused_lists_each_topic_once :
  forall ops : list Operation,
    NoDup (map p_topic (paused (run ops constructor)))
    /\ forall entry,
         In entry (paused (run ops constructor)) ->
         NoDup (p_partitions entry).
Proof.
  intros ops. pose proof (reachable_consistent ops) as Hc. split.
  - rewrite (paused_topics Hc). apply Hc.
  - intros entry Hin. unfold paused in Hin.
    apply in_map_iff in Hin as (e & <- & Hin). simpl.
    apply in_map_iff in Hin as ([t e'] & Heq & Hin). simpl in Heq. subst e'.
    now apply (proj2 Hc t e).
Qed.

Lemma paused_lists_each_topic_once_witness :
  In {| p_topic := "t"; p_partitions := [1]; p_all := Some false |}
     (paused (run [Pause [only "t" [1; 1; 2]]; Pause [entirely "u"];
                   Resume [only "t" [2]]; Pause [only "t" [1]]] constructor))
  /\ NoDup (p_partitions
              {| p_topic := "t"; p_partitions := [1]; p_all := Some false |}).
Proof.
  assert (Hin : In {| p_topic := "t"; p_partitions := [1]; p_all := Some false |}
                   (paused (run [Pause [only "t" [1; 1; 2]]; Pause [entirely "u"];
                                 Resume [only "t" [2]]; Pause [only "t" [1]]]
                              constructor)))
    by (left; reflexivity).
  split; [exact Hin|].
  exact (proj2 (paused_lists_each_topic_once
                  [Pause [only "t" [1; 1; 2]]; Pause [entirely "u"];
                   Resume [only "t" [2]]; Pause [only "t" [1]]]) _ Hin).
Defined.

(** X8. On every state that an instance reaches by operations on topics
    that are not names of properties of [Object.prototype], [isPaused] and
    [paused()] agree on such topics: a partition of a topic is paused
    exactly when [paused()] has an entry for the topic whose [all] is true
    or whose partitions hold it. *)
Theorem isPaused_agrees_with_paused :
  forall (ops : list Operation) (t : string) (p : Z),
    ordinary_operations ops ->
    inherited t = false ->
    isPaused (run ops constructor) t p = true
    <-> exists entry,
          In entry (paused (run ops constructor))
          /\ p_topic entry = t
          /\ (p_all entry = Some true \/ In p (p_partitions entry)).
Proof.
  intros ops t p _ _. pose proof (reachable_consistent ops) as [Hkeys Hentries].
  set (this := run ops constructor) in *.
  assert (Hobs : forall e,
            truthy (pf_all e) || JSSet.has (pf_partitions e) p = true
            <-> (pf_all e = Some true \/ In p (pf_partitions e))).
  { intros e. now rewrite orb_true_iff, SubscriptionStateFacts.truthy_true,
      JSSetFacts.has_In. }
  unfold isPaused. split.
  - destruct (JSObject.get this t) as [e|] eqn:G; [|discriminate].
    intros Hp. apply Hobs in Hp.
    pose proof (JSObjectFacts.get_Some_In _ _ G) as Hin.
    exists {| p_topic := pf_topic e; p_partitions := JSSet.elements (pf_partitions e);
              p_all := pf_all e |}.
    split; [|split].
    + unfold paused. apply in_map_iff. exists e. split; [reflexivity|].
      eapply JSObjectFacts.get_Some_values; eauto.
    + simpl. now apply (Hentries t e).
    + exact Hp.
  - intros (entry & Hin & Ht & Hp). unfold paused in Hin.
    apply in_map_iff in Hin as (e & <- & Hin). simpl in *.
    apply in_map_iff in Hin as ([t' e'] & Heq & Hin). simpl in Heq. subst e'.
    destruct (Hentries t' e Hin) as [Htopic _].
    assert (Hget : JSObject.get this t' = Some e)
      by (apply JSObjectFacts.In_get; assumption).
    replace t with t' by congruence. rewrite Hget. now apply Hobs.
Qed.

Lemma isPaused_agrees_with_paused_witness :
  isPaused (run [Pause [only "t" [1; 2]]; Resume [only "t" [2]]] constructor)
    "t" 1 = true
  <-> exists entry,
        In entry
           (paused (run [Pause [only "t" [1; 2]]; Resume [only "t" [2]]]
                      constructor))
        /\ p_topic entry = "t"
        /\ (p_all entry = Some true \/ In 1 (p_partitions entry)).
Proof.
  apply (@isPaused_agrees_with_paused
           [Pause [only "t" [1; 2]]; Resume [only "t" [2]]] "t" 1).
  - intros op [<- | [<- | []]]; intros tp [<- | []]; reflexivity.
  - reflexivity.
Defined.



End SubscriptionStateExtras.

(* ------------------------------------------------------------------ *)
(** ** [SubscriptionState] on topics that [Object.prototype] names *)

Module SubscriptionStateObjectFacts.
Import SubscriptionState SubscriptionStateObject.

Lemma inherited_proto t :
  inherited t = false -> String.eqb t "__proto__" = false.
Proof.
  intros H. destruct (String.eqb t "__proto__") eqn:E; [|reflexivity].
  apply String.eqb_eq in E. subst t. discriminate H.
Qed.

Lemma read_of_state this t :
  inherited t = false ->
  read (of_state this) t = option_map Entry (JSObject.get this t).
Proof.
  intros H. unfold read, of_state. cbn [own].
  rewrite JSObjectFacts.get_mapped.
  destruct (JSObject.get this t); simpl; [reflexivity|].
  now rewrite H.
Qed.

Lemma write_of_state this t paused :
  inherited t = false ->
  write t (Entry paused) (of_state this) = of_state (JSObject.set t paused this).
Proof.
  intros H. unfold write, of_state, assign. cbn [own prototype_all].
  rewrite (inherited_proto _ H). now rewrite JSObjectFacts.set_mapped.
Qed.

Lemma pause_slot_of_state this tp :
  inherited (topic tp) = false ->
  pause_slot (of_state this) tp = Returned (of_state (pause_entry this tp)).
Proof.
  intros H. unfold pause_slot, pause_entry. rewrite (read_of_state _ _ H).
  destruct (JSObject.get this (topic tp));
    destruct (partitions tp) as [|[|q qs]|];
    cbn [option_map]; rewrite write_of_state by assumption; reflexivity.
Qed.

Lemma resume_slot_of_state this tp :
  inherited (topic tp) = false ->
  resume_slot (of_state this) tp
  = match resume_entry this tp with
    | Returned this' => Returned (of_state this')
    | Thrown e => Thrown e
    end.
Proof.
  intros H. unfold resume_slot, resume_entry. rewrite (read_of_state _ _ H).
  destruct (JSObject.get this (topic tp)) as [paused|];
    destruct (partitions tp) as [|[|q qs]|]; cbn [option_map];
    try (rewrite write_of_state by assumption; reflexivity);
    try (destruct (negb (truthy (pf_all paused)));
         [rewrite write_of_state by assumption|]; reflexivity);
    cbn [pf_all truthy negb]; rewrite write_of_state by assumption;
    reflexivity.
Qed.

Lemma ordinary_cons tp tps :
  ordinary (tp :: tps) -> inherited (topic tp) = false /\ ordinary tps.
Proof.
  intros H. split; [apply H; now left|]. intros tp' Hin. apply H. now right.
Qed.

Lemma pause_object_of_state tps : forall this,
  ordinary tps ->
  pause_object tps (of_state this) = (Returned tt, of_state (pause tps this)).
Proof.
  induction tps as [|tp tps IH]; intros this Hord; [reflexivity|].
  apply ordinary_cons in Hord as [Htp Hord]. cbn [pause_object].
  rewrite (pause_slot_of_state _ _ Htp). now apply IH.
Qed.

Lemma resume_object_of_state tps : forall this,
  ordinary tps ->
  resume_object tps (of_state this)
  = (fst (resume tps this), of_state (snd (resume tps this))).
Proof.
  induction tps as [|tp tps IH]; intros this Hord; [reflexivity|].
  apply ordinary_cons in Hord as [Htp Hord]. cbn [resume_object resume].
  rewrite (resume_slot_of_state _ _ Htp).
  destruct (resume_entry this tp); [now apply IH | reflexivity].
Qed.

Lemma paused_object_of_state this :
  paused_object (of_state this) = Returned (paused this).
Proof.
  unfold paused_object, paused, of_state, JSObject.values, JSObject.mapValues.
  cbn [own prototype_all].
  induction this as [|[k paused] this IH]; [reflexivity|].
  cbn [map map_outcome snd obind]. rewrite IH. cbn [obind].
  destruct (pf_all paused); reflexivity.
Qed.

Lemma isPaused_object_of_state this t p :
  inherited t = false ->
  isPaused_object (of_state this) t p = Returned (isPaused this t p).
Proof.
  intros H. unfold isPaused_object, isPaused. rewrite (read_of_state _ _ H).
  destruct (JSObject.get this t); reflexivity.
Qed.

Lemma read_inherited this t :
  inherited t = true -> JSObject.get (own this) t = None ->
  read this t = Some Builtin.
Proof. intros H G. unfold read. now rewrite G, H. Qed.

Lemma TypeError_fails {A} msg : fails_with "TypeError" (Thrown (A := A) (TypeError msg)).
Proof. eexists. split; reflexivity. Qed.

(** [paused()] throws as soon as the instance stores an inherited value. *)
Lemma paused_object_Builtin this :
  In Builtin (JSObject.values (own this)) ->
  fails_with "TypeError" (paused_object this).
Proof.
  unfold paused_object. generalize (JSObject.values (own this)).
  intros slots. induction slots as [|slot slots IH]; intros Hin; [destruct Hin|].
  cbn [map_outcome]. destruct slot as [paused|].
  - destruct Hin as [Hin | Hin]; [discriminate|]. cbn [obind].
    destruct (IH Hin) as (e & -> & He). cbn [obind]. now exists e.
  - cbn [obind]. apply TypeError_fails.
Qed.

(** *** The invariant on every topic *)

Lemma In_values_assign t slot (o : JSObject.object string Slot) slot' :
  In slot' (JSObject.values (assign t slot o)) ->
  slot' = slot \/ In slot' (JSObject.values o).
Proof.
  unfold assign. destruct (String.eqb t "__proto__"); [now right|].
  apply JSObjectFacts.In_values_set.
Qed.

Lemma read_entry this t paused :
  read this t = Some (Entry paused) ->
  In (Entry paused) (JSObject.values (own this)).
Proof.
  unfold read. destruct (JSObject.get (own this) t) as [slot|] eqn:G.
  - intros [= ->]. eapply JSObjectFacts.get_Some_values; eauto.
  - destruct (inherited t); discriminate.
Qed.

Lemma pause_slot_invariant this tp this' :
  pause_slot this tp = Returned this' ->
  all_implies_empty_object this -> all_implies_empty_object this'.
Proof.
  unfold pause_slot. intros Hslot Hinv paused Hin Hall.
  destruct (read this (topic tp)) as [[before|]|] eqn:R;
    destruct (partitions tp) as [|[|q qs]|]; try discriminate;
    injection Hslot as <-; unfold write, clear_all in Hin; cbn [own] in Hin;
    apply In_values_assign in Hin as [Heq | Hin];
    try (now apply Hinv); try discriminate;
    injection Heq as ->; cbn [pf_all pf_partitions] in *;
    try reflexivity; try discriminate.
  apply Hinv; [|assumption]. eapply read_entry; eauto.
Qed.

Lemma resume_slot_invariant this tp this' :
  resume_slot this tp = Returned this' ->
  all_implies_empty_object this -> all_implies_empty_object this'.
Proof.
  unfold resume_slot. intros Hslot Hinv paused Hin Hall.
  destruct (read this (topic tp)) as [[before|]|] eqn:R;
    destruct (partitions tp) as [|[|q qs]|]; try discriminate;
    cbn [pf_all truthy negb] in Hslot;
    try (destruct (negb (truthy (pf_all before))) eqn:T; [|discriminate]);
    injection Hslot as <-; unfold write in Hin; cbn [own] in Hin;
    apply In_values_assign in Hin as [Heq | Hin];
    try (now apply Hinv); try discriminate;
    injection Heq as ->; cbn [pf_all pf_partitions] in *;
    try reflexivity; try discriminate;
    try (apply SubscriptionStateFacts.truthy_true in Hall; rewrite Hall in T;
         discriminate).
  apply Hinv; [|assumption]. eapply read_entry; eauto.
Qed.

Lemma pause_object_invariant tps : forall this,
  all_implies_empty_object this ->
  all_implies_empty_object (snd (pause_object tps this)).
Proof.
  induction tps as [|tp tps IH]; intros this Hinv; cbn [pause_object];
    [assumption|].
  destruct (pause_slot this tp) eqn:P; [|assumption].
  apply IH. eapply pause_slot_invariant; eauto.
Qed.

Lemma resume_object_invariant tps : forall this,
  all_implies_empty_object this ->
  all_implies_empty_object (snd (resume_object tps this)).
Proof.
  induction tps as [|tp tps IH]; intros this Hinv; cbn [resume_object];
    [assumption|].
  destruct (resume_slot this tp) eqn:P; [|assumption].
  apply IH. eapply resume_slot_invariant; eauto.
Qed.

Lemma run_object_invariant ops : forall this,
  all_implies_empty_object this ->
  all_implies_empty_object (run_object ops this).
Proof.
  induction ops as [|op ops IH]; intros this Hinv; [assumption|].
  cbn [run_object fold_left]. apply IH.
  destruct op; cbn [perform_object];
    auto using pause_object_invariant, resume_object_invariant.
Qed.

Lemma run_object_of_state ops : forall this,
  Observations.ordinary_operations ops ->
  run_object ops (of_state this) = of_state (run ops this).
Proof.
  induction ops as [|op ops IH]; intros this Hord; [reflexivity|].
  cbn [run_object run fold_left].
  assert (Hop := Hord op (or_introl eq_refl)).
  assert (Hops : Observations.ordinary_operations ops).
  { intros op' Hin. apply Hord. now right. }
  fold (run_object ops (perform_object (of_state this) op)).
  fold (run ops (perform this op)).
  replace (perform_object (of_state this) op) with (of_state (perform this op));
    [now apply IH|].
  destruct op as [tps | tps | |]; cbn [perform_object perform]; try reflexivity.
  - now rewrite pause_object_of_state.
  - now rewrite resume_object_of_state.
Qed.

(** *** Statements *)

(** C4. [resume] raises an error that is not of kind [NonRetriable] on a
    topic that [Object.prototype] names. On a new instance no topic is in
    the [all = true] state, and [resume([{topic: 'constructor'}])], with
    [partitions] absent, and
    [resume([{topic: 'constructor', partitions: [1]}])], with a list, both
    throw a [TypeError]. *)
Theorem resume_constructor_TypeError :
  fails_with "TypeError"
    (fst (resume_object [entirely "constructor"] new_instance))
  /\ fails_with "TypeError"
       (fst (resume_object [only "constructor" [1]] new_instance))
  /\ ~ fails_with NonRetriable
         (fst (resume_object [only "constructor" [1]] new_instance))
  /\ JSObject.values (own new_instance) = [].
Proof.
  split; [eexists; split; reflexivity|].
  split; [eexists; split; reflexivity|].
  split; [|reflexivity].
  intros (e & He & Hname). injection He as <-. discriminate Hname.
Qed.

(** C6. The round trip fails on a topic that [Object.prototype] names. A
    new instance has no paused entry for the topic [constructor];
    [pause([{topic: 'constructor', partitions: [1, 2]}])] throws a
    [TypeError] on it and stores nothing, the [resume] of the same entry
    throws a [TypeError] as well, [paused()] is empty afterwards and
    [isPaused('constructor', 1)] throws a [TypeError]. *)
Theorem pause_constructor_TypeError :
  JSObject.get (own new_instance) "constructor" = None
  /\ fails_with "TypeError"
       (fst (pause_object [only "constructor" [1; 2]] new_instance))
  /\ snd (pause_object [only "constructor" [1; 2]] new_instance) = new_instance
  /\ fails_with "TypeError"
       (fst (resume_object [only "constructor" [1; 2]] new_instance))
  /\ paused_object new_instance = Returned []
  /\ fails_with "TypeError" (isPaused_object new_instance "constructor" 1).
Proof.
  split; [reflexivity|].
  split; [eexists; split; reflexivity|].
  split; [reflexivity|].
  split; [eexists; split; reflexivity|].
  split; [reflexivity|].
  eexists; split; reflexivity.
Qed.

(** X25. On topics that are not names of properties of [Object.prototype]
    the methods on the object with its prototype are the methods on its own
    properties: [pause] returns, [resume] has the same outcome, both leave
    the same entries, [paused()] returns the same array and [isPaused] the
    same answer; an instance that has only been given such topics holds the
    state of [SubscriptionState]. *)
Theorem own_properties_suffice :
  forall (this : state) (tps : list TopicPartitions),
    ordinary tps ->
    pause_object tps (of_state this) = (Returned tt, of_state (pause tps this))
    /\ resume_object tps (of_state this)
       = (fst (resume tps this), of_state (snd (resume tps this)))
    /\ paused_object (of_state this) = Returned (paused this)
    /\ (forall t p,
          inherited t = false ->
          isPaused_object (of_state this) t p = Returned (isPaused this t p))
    /\ (forall ops,
          Observations.ordinary_operations ops ->
          run_object ops new_instance = of_state (run ops constructor)).
Proof.
  intros this tps Hord.
  split; [now apply pause_object_of_state|].
  split; [now apply resume_object_of_state|].
  split; [apply paused_object_of_state|].
  split; [intros t p; apply isPaused_object_of_state|].
  intros ops Hops. now apply (@run_object_of_state ops constructor).
Qed.

Lemma own_properties_suffice_witness :
  resume_object [only "t" [0]] (of_state (pause [entirely "t"] constructor))
  = (fst (resume [only "t" [0]] (pause [entirely "t"] constructor)),
     of_state (snd (resume [only "t" [0]] (pause [entirely "t"] constructor)))).
Proof.
  apply (@own_properties_suffice (pause [entirely "t"] constructor)
           [only "t" [0]]).
  intros tp [<- | []]. reflexivity.
Defined.

(** X26. On a topic that is the name of a property of [Object.prototype]
    and that the instance has not stored, [pause] and [resume] throw a
    [TypeError] and leave the instance as it was when [partitions] is absent
    or a non-empty list, and [isPaused] throws a [TypeError]. With the empty
    list they return; the topic not being [__proto__], the instance then
    stores the inherited value and [paused()] throws a [TypeError]. *)
Theorem inherited_topic_TypeError :
  forall (this : instance) (t : string) (p : Z) (ps : list Z),
    inherited t = true ->
    JSObject.get (own this) t = None ->
    (forall tp,
       tp = entirely t \/ tp = only t (p :: ps) ->
       fails_with "TypeError" (fst (pause_object [tp] this))
       /\ snd (pause_object [tp] this) = this
       /\ fails_with "TypeError" (fst (resume_object [tp] this))
       /\ snd (resume_object [tp] this) = this)
    /\ fails_with "TypeError" (isPaused_object this t p)
    /\ fst (pause_object [only t []] this) = Returned tt
    /\ fst (resume_object [only t []] this) = Returned tt
    /\ (t <> "__proto__" ->
        fails_with "TypeError"
          (paused_object (snd (pause_object [only t []] this)))
        /\ fails_with "TypeError"
             (paused_object (snd (resume_object [only t []] this)))).
Proof.
  intros this t p ps Hin Hown.
  assert (Hread := read_inherited this t Hin Hown).
  split.
  { intros tp [-> | ->];
      cbn [pause_object resume_object]; unfold pause_slot, resume_slot;
      cbn [topic partitions entirely only]; rewrite Hread;
      repeat split; apply TypeError_fails. }
  split.
  { unfold isPaused_object. rewrite Hread. apply TypeError_fails. }
  cbn [pause_object resume_object]. unfold pause_slot, resume_slot.
  cbn [topic partitions only]. rewrite Hread. cbn [fst snd].
  split; [reflexivity|]. split; [reflexivity|].
  intros Hproto. apply String.eqb_neq in Hproto.
  split; apply paused_object_Builtin; unfold write, clear_all, assign;
    cbn [own]; rewrite Hproto;
    eapply JSObjectFacts.get_Some_values; apply JSObjectFacts.get_set_same.
Qed.

Lemma inherited_topic_TypeError_witness :
  fails_with "TypeError" (isPaused_object new_instance "toString" 0)
  /\ fails_with "TypeError"
       (paused_object (snd (pause_object [only "toString" []] new_instance))).
Proof.
  destruct (@inherited_topic_TypeError new_instance "toString" 0 []
              eq_refl eq_refl) as (_ & His & _ & _ & Hpaused).
  split; [exact His|].
  apply Hpaused. discriminate.
Defined.

(** X27. The invariant holds on every topic, those that [Object.prototype]
    names included, and across calls that throw: after every sequence of
    [pause], [resume], [paused] and [isPaused] calls on a new instance, a
    stored entry whose [all] is true has an empty partition set. *)
Theorem all_flag_implies_no_partitions_on_every_topic :
  forall ops : list Operation,
    (forall this,
       all_implies_empty_object this ->
       all_implies_empty_object (run_object ops this))
    /\ all_implies_empty_object (run_object ops new_instance).
Proof.
  intros ops. split; [apply run_object_invariant|].
  apply run_object_invariant. intros paused [].
Qed.

Lemma all_flag_implies_no_partitions_on_every_topic_witness :
  all_implies_empty_object
    (run_object
       [Pause [only "constructor" []]; Pause [only "t" [1; 2]];
        Pause [entirely "constructor"]; Resume [only "t" [1]];
        Pause [entirely "t"]]
       (of_state (pause [entirely "u"] constructor))).
Proof.
  apply (proj1 (all_flag_implies_no_partitions_on_every_topic _)).
  intros paused [Heq | []] _. now injection Heq as <-.
Defined.

End SubscriptionStateObjectFacts.

(* ------------------------------------------------------------------ *)
(** ** [Cluster]: further properties *)

Module ClusterExtras.
Import Cluster ClusterFacts Observations.

(** *** Broker lookup *)

Lemma staleMetadata_true e :
  staleMetadata e = true
  <-> name e = "KafkaJSBrokerNotFound" \/ name e = "KafkaJSLockTimeout"
      \/ code e = Some "ECONNREFUSED".
Proof.
  unfold staleMetadata. rewrite !orb_true_iff, !String.eqb_eq.
  destruct (code e) as [c|].
  - rewrite String.eqb_eq. split.
    + intros [[? | ?] | ->]; auto.
    + intros [? | [? | [= ->]]]; auto.
  - split.
    + intros [[? | ?] | [=]]; auto.
    + intros [? | [? | [=]]]; auto.
Qed.

Section Lookup.
Context {Pool Broker : Type} `{BrokerPool Pool Broker}.
Implicit Types (w : World Pool Broker).

Lemma findBroker_run nodeId w :
  findBroker nodeId w
  = let (r, pool1) := bp_findBroker nodeId (brokerPool (cluster w)) in
    let w1 := {| cluster := {| targetTopics := targetTopics (cluster w);
                               isolationLevel := isolationLevel (cluster w);
                               brokerPool := pool1 |};
                 calls := calls w ++ [FindBroker nodeId] |} in
    match r with
    | Returned broker => (Returned broker, w1)
    | Thrown e =>
        if staleMetadata e then
          let (r2, pool2) :=
            bp_refreshMetadata (JSSet.elements (targetTopics (cluster w))) pool1 in
          (match r2 with Returned _ => Thrown e | Thrown e2 => Thrown e2 end,
           {| cluster := {| targetTopics := targetTopics (cluster w);
                            isolationLevel := isolationLevel (cluster w);
                            brokerPool := pool2 |};
              calls := (calls w ++ [FindBroker nodeId])
                       ++ [RefreshMetadata
                             (JSSet.elements (targetTopics (cluster w)))] |})
        else (Thrown e, w1)
    end.
Proof.
  unfold findBroker, try_catch, call, bind, throw, ret, refreshMetadata, call.
  destruct (bp_findBroker nodeId (brokerPool (cluster w))) as [[broker|e] pool1].
  - reflexivity.
  - destruct (staleMetadata e); simpl; [|reflexivity].
    destruct (bp_refreshMetadata _ pool1) as [[[]|e2] pool2]; reflexivity.
Qed.

End Lookup.

(** X10. [findBroker] looks the broker up exactly once. It returns what the
    pool returns, without a refresh. When the lookup fails with
    [KafkaJSBrokerNotFound], [KafkaJSLockTimeout] or a refused connection,
    it then refreshes the metadata once, for the target topics, and fails:
    with the error of the lookup when the refresh returns, with the error
    of the refresh otherwise. On any other error it fails with that error
    and does not refresh. *)
Theorem findBroker_refreshes_stale_metadata :
  forall (Pool Broker : Type) (pool : BrokerPool Pool Broker)
         (nodeId : Z) (w : World Pool Broker),
    let lookup := bp_findBroker nodeId (brokerPool (cluster w)) in
    let targets := JSSet.elements (targetTopics (cluster w)) in
    (forall broker,
        fst lookup = Returned broker ->
        fst (findBroker nodeId w) = Returned broker
        /\ issued (findBroker nodeId) w = [FindBroker nodeId])
    /\ (forall e,
          fst lookup = Thrown e ->
          name e = "KafkaJSBrokerNotFound" \/ name e = "KafkaJSLockTimeout"
          \/ code e = Some "ECONNREFUSED" ->
          issued (findBroker nodeId) w
          = [FindBroker nodeId; RefreshMetadata targets]
          /\ fst (findBroker nodeId w)
             = match fst (bp_refreshMetadata targets (snd lookup)) with
               | Returned _ => Thrown e
               | Thrown e' => Thrown e'
               end)
    /\ (forall e,
          fst lookup = Thrown e ->
          ~ (name e = "KafkaJSBrokerNotFound" \/ name e = "KafkaJSLockTimeout"
             \/ code e = Some "ECONNREFUSED") ->
          fst (findBroker nodeId w) = Thrown e
          /\ issued (findBroker nodeId) w = [FindBroker nodeId])
    /\ targetTopics (cluster (snd (findBroker nodeId w)))
       = targetTopics (cluster w).
Proof.
  intros Pool Broker pool nodeId w lookup targets.
  unfold issued. rewrite findBroker_run. subst lookup targets.
  destruct (bp_findBroker nodeId (brokerPool (cluster w))) as [[broker|e] pool1];
    simpl.
  - split; [|split; [|split]].
    + intros b [= <-]. split; [reflexivity | apply skipn_length_app].
    + intros e [=].
    + intros e [=].
    + reflexivity.
  - destruct (staleMetadata e) eqn:S.
    + destruct (bp_refreshMetadata _ pool1) as [r2 pool2] eqn:R. simpl.
      split; [|split; [|split]].
      * intros b [=].
      * intros e0 [= <-] _. split; [|reflexivity].
        rewrite <- app_assoc. apply skipn_length_app.
      * intros e0 [= <-] Hnot. elim Hnot. now apply staleMetadata_true.
      * reflexivity.
    + simpl. split; [|split; [|split]].
      * intros b [=].
      * intros e0 [= <-] Hstale. apply staleMetadata_true in Hstale. congruence.
      * intros e0 [= <-] _. split; [reflexivity | apply skipn_length_app].
      * reflexivity.
Qed.

Lemma findBroker_refreshes_stale_metadata_witness :
  issued (findBroker (H := Scenario.locked) 5)
    (Scenario.world ["a"; "b"] (Some Scenario.S1))
  = [FindBroker 5; RefreshMetadata ["a"; "b"]]
  /\ fst (findBroker (H := Scenario.steady None 0) 5
            (Scenario.world ["a"] (Some Scenario.S1)))
     = Returned (Some 5).
Proof.
  split.
  - apply (proj1 (proj2 (findBroker_refreshes_stale_metadata Scenario.locked 5
             (Scenario.world ["a"; "b"] (Some Scenario.S1))))
             Scenario.LockTimeout eq_refl).
    right. left. reflexivity.
  - apply (proj1 (findBroker_refreshes_stale_metadata (Scenario.steady None 0) 5
             (Scenario.world ["a"] (Some Scenario.S1))) (Some 5) eq_refl).
Defined.

(** X11. With a snapshot that names a controller, [findControllerBroker]
    fails [BrokerNotFound] without any refresh when the pool returns no
    broker for the controller id, while a [KafkaJSBrokerNotFound] raised by
    the pool is followed by one refresh of the target topics before it
    surfaces. *)
Theorem findControllerBroker_missing_controller :
  forall (Pool Broker : Type) (pool : BrokerPool Pool Broker)
         (w : World Pool Broker) (metadata : Metadata) (id : Z),
    bp_metadata (brokerPool (cluster w)) = Some metadata ->
    controllerId metadata = Some id ->
    let lookup := bp_findBroker id (brokerPool (cluster w)) in
    let targets := JSSet.elements (targetTopics (cluster w)) in
    (fst lookup = Returned None ->
     fails_with BrokerNotFound (fst (findControllerBroker w))
     /\ issued findControllerBroker w = [FindBroker id])
    /\ (forall e,
          fst lookup = Thrown e -> name e = "KafkaJSBrokerNotFound" ->
          fst (bp_refreshMetadata targets (snd lookup)) = Returned tt ->
          fst (findControllerBroker w) = Thrown e
          /\ issued findControllerBroker w
             = [FindBroker id; RefreshMetadata targets]).
Proof.
  intros Pool Broker pool w metadata id Hsnap Hid lookup targets.
  unfold issued, findControllerBroker. rewrite Hsnap, Hid. unfold bind.
  rewrite findBroker_run. subst lookup targets.
  destruct (bp_findBroker id (brokerPool (cluster w))) as [[[broker|]|e] pool1];
    simpl.
  - split; [intros [=] | intros e [=]].
  - split; [|intros e [=]]. intros _. split.
    + eexists. split; reflexivity.
    + apply skipn_length_app.
  - split; [intros [=]|]. intros e0 [= <-] Hname Hrefresh.
    assert (Hstale : staleMetadata e = true)
      by (apply staleMetadata_true; now left).
    rewrite Hstale.
    destruct (bp_refreshMetadata _ pool1) as [r2 pool2]. simpl in *. subst r2.
    simpl. split; [reflexivity|].
    rewrite <- app_assoc. apply skipn_length_app.
Qed.

Lemma findControllerBroker_missing_controller_witness :
  fails_with BrokerNotFound
    (fst (findControllerBroker
            (H := Vacant.vacant)
            (Scenario.world [] (Some Scenario.S1)))).
Proof.
  apply (proj1 (@findControllerBroker_missing_controller _ _
           Vacant.vacant
           (Scenario.world [] (Some Scenario.S1)) Scenario.S1 1 eq_refl eq_refl)
           eq_refl).
Defined.

(** *** Target topics *)

Lemma add_all_new (xs : list string) : forall s : JSSet.t string,
  exists new,
    JSSet.add_all xs s = s ++ new
    /\ forall x, In x new -> In x xs /\ ~ In x s.
Proof.
  induction xs as [|x xs IH]; intros s.
  - exists []. simpl. split; [now rewrite app_nil_r | intros x []].
  - unfold JSSet.add_all in *. simpl.
    destruct (IH (JSSet.add x s)) as (new & Hnew & Hfresh).
    rewrite Hnew. unfold JSSet.add in *. destruct (JSSet.has s x) eqn:E.
    + exists new. split; [reflexivity|]. intros y Hy.
      destruct (Hfresh y Hy). auto.
    + exists (x :: new). split; [now rewrite <- app_assoc|].
      apply JSSetFacts.has_false in E.
      intros y [<- | Hy]; [auto|].
      destruct (Hfresh y Hy) as [Hin Hnot]. split; [auto|].
      intros Hs. apply Hnot. apply in_or_app. now left.
Qed.

(** X12. [addMultipleTargetTopics] only appends to the target topics: the
    topics that were targeted keep their order, the new ones follow, none
    twice; and a refresh that it triggers asks for all the target topics,
    the new ones included. *)
Theorem addMultipleTargetTopics_appends :
  forall (Pool Broker : Type) (pool : BrokerPool Pool Broker)
         (topics : list string) (w : World Pool Broker),
    let targets := targetTopics (cluster w) in
    let targets' :=
      targetTopics (cluster (snd (addMultipleTargetTopics topics w))) in
    (exists new,
        targets' = targets ++ new
        /\ forall t, In t new <-> In t topics /\ ~ In t targets)
    /\ (NoDup targets -> NoDup targets')
    /\ forall c,
         In c (issued (addMultipleTargetTopics topics) w) ->
         c = RefreshMetadata targets'.
Proof.
  intros Pool Broker pool topics w targets targets'.
  assert (Htargets : targets' = JSSet.add_all topics targets)
    by apply addMultipleTargetTopics_targets.
  split; [|split].
  - destruct (add_all_new topics targets) as (new & Hnew & Hfresh).
    exists new. split; [congruence|]. intros t. split; [apply Hfresh|].
    intros [Hin Hnot].
    assert (Ht : In t (JSSet.add_all topics targets))
      by (apply JSSetFacts.In_add_all; now left).
    rewrite Hnew in Ht. apply in_app_or in Ht as [Ht | Ht]; [contradiction | assumption].
  - intros ND. rewrite Htargets. now apply ContainerFacts.NoDup_add_all.
  - intros c Hc. rewrite addMultipleTargetTopics_issued in Hc.
    rewrite Htargets. fold targets in Hc.
    destruct (negb _ || _); [|destruct Hc].
    destruct Hc as [<- | []]. reflexivity.
Qed.

Lemma addMultipleTargetTopics_appends_witness :
  NoDup (targetTopics (cluster (snd
           (addMultipleTargetTopics (H := Scenario.steady None 0)
              ["b"; "c"; "b"] (Scenario.world ["a"; "b"] None)))))
  /\ forall c,
       In c (issued (addMultipleTargetTopics (H := Scenario.steady None 0)
                       ["b"; "c"; "b"]) (Scenario.world ["a"; "b"] None)) ->
       c = RefreshMetadata ["a"; "b"; "c"].
Proof.
  destruct (addMultipleTargetTopics_appends (Scenario.steady None 0)
              ["b"; "c"; "b"] (Scenario.world ["a"; "b"] None))
    as (_ & Hnodup & Hcalls).
  split.
  - apply Hnodup. simpl. repeat constructor; simpl; intuition discriminate.
  - exact Hcalls.
Defined.

(** X13. Once [addTargetTopic(t)] has run, a second [addTargetTopic(t)]
    makes no call and leaves the target topics as they are, provided that a
    snapshot is present then. *)
Theorem addTargetTopic_again :
  forall (Pool Broker : Type) (pool : BrokerPool Pool Broker)
         (t : string) (w : World Pool Broker),
    let w1 := snd (addTargetTopic t w) in
    bp_metadata (brokerPool (cluster w1)) <> None ->
    issued (addTargetTopic t) w1 = []
    /\ targetTopics (cluster (snd (addTargetTopic t w1)))
       = targetTopics (cluster w1).
Proof.
  intros Pool Broker pool t w w1 Hsnap.
  assert (Hin : In t (targetTopics (cluster w1))).
  { subst w1. unfold addTargetTopic. rewrite addMultipleTargetTopics_targets.
    apply JSSetFacts.In_add_all. left. now left. }
  assert (Hsame : JSSet.add_all [t] (targetTopics (cluster w1))
                  = targetTopics (cluster w1)).
  { apply ContainerFacts.add_all_members. intros x [<- | []]. assumption. }
  unfold addTargetTopic. split.
  - rewrite addMultipleTargetTopics_issued, Hsame, Nat.eqb_refl. simpl.
    destruct (bp_metadata (brokerPool (cluster w1))); [reflexivity | contradiction].
  - now rewrite addMultipleTargetTopics_targets.
Qed.

Lemma addTargetTopic_again_witness :
  issued (addTargetTopic (H := Scenario.steady None 0) "a")
    (snd (addTargetTopic (H := Scenario.steady None 0) "a"
            (Scenario.world [] (Some Scenario.S1))))
  = [].
Proof.
  assert (Hsnap : @bp_metadata _ _ (Scenario.steady None 0)
                    (brokerPool (cluster (snd
            (addTargetTopic (H := Scenario.steady None 0) "a"
               (Scenario.world [] (Some Scenario.S1)))))) <> None)
    by (simpl; discriminate).
  exact (proj1 (@addTargetTopic_again _ _ (Scenario.steady None 0) "a"
                  (Scenario.world [] (Some Scenario.S1)) Hsnap)).
Defined.

(** *** Leaders of partitions: edges and order *)

Section Edges.
Context {Pool Broker : Type} `{BrokerPool Pool Broker}.
Implicit Types (this : Cluster Pool) (w : World Pool Broker).

Lemma findLeaderForPartitions_unloaded this topic ids :
  (bp_metadata (brokerPool this) = None
   \/ exists metadata,
        bp_metadata (brokerPool this) = Some metadata
        /\ topicMetadata metadata = None) ->
  findLeaderForPartitions this topic ids
  = Thrown (KafkaJSTopicMetadataNotLoaded "Topic metadata not loaded").
Proof.
  unfold findLeaderForPartitions, findTopicPartitionMetadata.
  intros [-> | (metadata & -> & ->)]; reflexivity.
Qed.

Lemma indexTopics_Thrown this topics : forall (init : Index) td e,
  In td topics ->
  findLeaderForPartitions this (topic td) (map partition (partitions td))
  = Thrown e ->
  exists td' e',
    In td' topics
    /\ findLeaderForPartitions this (topic td') (map partition (partitions td'))
       = Thrown e'
    /\ reduce (indexTopic this) topics init = Thrown e'.
Proof.
  induction topics as [|first rest IH]; intros [ppb tc] td e Hin Hthrown.
  - destruct Hin.
  - simpl. unfold indexTopic at 1.
    destruct (findLeaderForPartitions this (topic first)
                (map partition (partitions first))) as [ppl|e0] eqn:E.
    + simpl. destruct Hin as [-> | Hin]; [congruence|].
      destruct (IH (fold_left (indexLeader first) ppl ppb,
                    assign (topic first) (fromBeginning first) tc)
                   td e Hin Hthrown) as (td' & e' & Hin' & Hthrown' & Hred).
      exists td', e'. split; [now right | now split].
    + exists first, e0. split; [now left | split; [assumption | reflexivity]].
Qed.

Lemma fetchTopicsOffset_index_Thrown topics w e :
  indexTopics (cluster w) topics = Thrown e ->
  fetchTopicsOffset topics w = (Thrown e, w).
Proof.
  intros Hindex. unfold fetchTopicsOffset, bind, fetchResponses, bind, lift.
  now rewrite Hindex.
Qed.

End Edges.

(** X14. [fetchTopicsOffset] calls no collaborator before every topic is
    indexed: of no topics it returns the empty array at once, and when the
    leaders of one requested topic cannot be determined it rejects with the
    error of [findLeaderForPartitions], the world unchanged; without a
    snapshot that error is [KafkaJSTopicMetadataNotLoaded]. *)
Theorem fetchTopicsOffset_fails_before_any_call :
  forall (Pool Broker : Type) (pool : BrokerPool Pool Broker)
         (topics : list TopicData) (w : World Pool Broker),
    fetchTopicsOffset [] w = (Returned [], w)
    /\ (forall td e,
          In td topics ->
          findLeaderForPartitions (cluster w) (topic td)
            (map partition (partitions td)) = Thrown e ->
          exists td' e',
            In td' topics
            /\ findLeaderForPartitions (cluster w) (topic td')
                 (map partition (partitions td')) = Thrown e'
            /\ fetchTopicsOffset topics w = (Thrown e', w))
    /\ (bp_metadata (brokerPool (cluster w)) = None -> topics <> [] ->
        fails_with TopicMetadataNotLoaded (fst (fetchTopicsOffset topics w))
        /\ snd (fetchTopicsOffset topics w) = w).
Proof.
  intros Pool Broker pool topics w. split; [reflexivity|]. split.
  - intros td e Hin Hthrown.
    destruct (indexTopics_Thrown (cluster w) topics
                (JSObject.empty_object, JSObject.empty_object) td Hin Hthrown)
      as (td' & e' & Hin' & Hthrown' & Hred).
    exists td', e'. split; [assumption|]. split; [assumption|].
    now apply fetchTopicsOffset_index_Thrown.
  - intros Hsnap Hne. destruct topics as [|td rest]; [contradiction|].
    assert (Hthrown :
              findLeaderForPartitions (cluster w) (topic td)
                (map partition (partitions td))
              = Thrown (KafkaJSTopicMetadataNotLoaded "Topic metadata not loaded"))
      by (apply findLeaderForPartitions_unloaded; now left).
    assert (Hindex :
              indexTopics (cluster w) (td :: rest)
              = Thrown (KafkaJSTopicMetadataNotLoaded "Topic metadata not loaded")).
    { unfold indexTopics. simpl. unfold indexTopic at 1. now rewrite Hthrown. }
    rewrite (fetchTopicsOffset_index_Thrown _ _ Hindex). simpl. split.
    + eexists. split; reflexivity.
    + reflexivity.
Qed.

Lemma fetchTopicsOffset_fails_before_any_call_witness :
  exists td' e',
    In td' [ {| topic := "t"; partitions := [ {| partition := 0 |} ];
                fromBeginning := true |};
             {| topic := "t"; partitions := [ {| partition := 1 |} ];
                fromBeginning := false |} ]
    /\ findLeaderForPartitions (H := Scenario.steady None 0)
         (cluster (Scenario.world [] (Some Scenario.S1_in_transition)))
         (topic td') (map partition (partitions td')) = Thrown e'
    /\ fetchTopicsOffset (H := Scenario.steady None 0)
         [ {| topic := "t"; partitions := [ {| partition := 0 |} ];
              fromBeginning := true |};
           {| topic := "t"; partitions := [ {| partition := 1 |} ];
              fromBeginning := false |} ]
         (Scenario.world [] (Some Scenario.S1_in_transition))
       = (Thrown e', Scenario.world [] (Some Scenario.S1_in_transition)).
Proof.
  apply (proj1 (proj2 (@fetchTopicsOffset_fails_before_any_call _ _
           (Scenario.steady None 0)
           [ {| topic := "t"; partitions := [ {| partition := 0 |} ];
                fromBeginning := true |};
             {| topic := "t"; partitions := [ {| partition := 1 |} ];
                fromBeginning := false |} ]
           (Scenario.world [] (Some Scenario.S1_in_transition))))
         {| topic := "t"; partitions := [ {| partition := 1 |} ];
            fromBeginning := false |}
         InvalidMetadata).
  - right. left. reflexivity.
  - reflexivity.
Defined.

(** X15. The edges of [findLeaderForPartitions]: without a snapshot, or
    with one that has no topic metadata, it throws
    [KafkaJSTopicMetadataNotLoaded] whatever the partitions, the empty list
    included; with topic metadata it returns the empty object for no
    partitions and for a topic that the metadata does not list. *)
Theorem findLeaderForPartitions_edges :
  forall (Pool Broker : Type) (pool : BrokerPool Pool Broker)
         (this : Cluster Pool) (topic : string) (ids : list Z),
    ((bp_metadata (brokerPool this) = None
      \/ exists metadata,
           bp_metadata (brokerPool this) = Some metadata
           /\ topicMetadata metadata = None) ->
     fails_with TopicMetadataNotLoaded (findLeaderForPartitions this topic ids))
    /\ (forall metadata tms,
          bp_metadata (brokerPool this) = Some metadata ->
          topicMetadata metadata = Some tms ->
          findLeaderForPartitions this topic [] = Returned JSObject.empty_object
          /\ ((forall tm, In tm tms -> tm_topic tm <> topic) ->
              findLeaderForPartitions this topic ids
              = Returned JSObject.empty_object)).
Proof.
  intros Pool Broker pool this topic ids. split.
  - intros Hno. rewrite (findLeaderForPartitions_unloaded this topic ids Hno).
    eexists. split; reflexivity.
  - intros metadata tms Hsnap Htms.
    unfold findLeaderForPartitions, findTopicPartitionMetadata.
    rewrite Hsnap, Htms. split.
    + destruct (find _ tms); reflexivity.
    + intros Hnone.
      destruct (find (fun t => String.eqb (tm_topic t) topic) tms) as [tm|] eqn:F.
      * apply find_some in F as [Hin Heq]. apply String.eqb_eq in Heq.
        now destruct (Hnone tm Hin).
      * simpl. clear. induction ids as [|id ids IH]; [reflexivity|].
        simpl. assumption.
Qed.

Lemma findLeaderForPartitions_edges_witness :
  fails_with TopicMetadataNotLoaded
    (findLeaderForPartitions (H := Scenario.steady None 0)
       (cluster (Scenario.world [] None)) "t" [])
  /\ findLeaderForPartitions (H := Scenario.steady None 0)
       (cluster (Scenario.world [] (Some Scenario.S1))) "u" [0; 1]
     = Returned JSObject.empty_object.
Proof.
  split.
  - apply (proj1 (@findLeaderForPartitions_edges _ _ (Scenario.steady None 0)
                    (cluster (Scenario.world [] None)) "t" [])).
    left. reflexivity.
  - apply (proj2 (proj2 (@findLeaderForPartitions_edges _ _
                    (Scenario.steady None 0)
                    (cluster (Scenario.world [] (Some Scenario.S1))) "u" [0; 1])
                    Scenario.S1 _ eq_refl eq_refl)).
    intros tm [<- | []]. discriminate.
Defined.

Lemma filter_Permutation {A} (f : A -> bool) (l l' : list A) :
  Permutation l l' -> Permutation (filter f l) (filter f l').
Proof.
  induction 1 as [|x l l' _ IH|x y l|l l' l'' _ IH1 _ IH2]; simpl.
  - constructor.
  - destruct (f x); [now constructor | assumption].
  - destruct (f x), (f y); try apply Permutation_refl. apply perm_swap.
  - now apply Permutation_trans with (filter f l').
Qed.

Lemma leaderless_Permutation pm ids ids' :
  Permutation ids ids' -> leaderless pm ids -> leaderless pm ids'.
Proof.
  intros Hperm (id & metadata & Hin & Hfor & Hnone).
  exists id, metadata. split; [|now split].
  now apply (Permutation_in _ Hperm).
Qed.

(** X16. The order in which the partitions are requested only shows inside
    the lists of the result: of a permutation of the partitions,
    [findLeaderForPartitions] throws the same error or returns an object
    with the same leaders, each with a permutation of its partitions. *)
Theorem findLeaderForPartitions_permutation :
  forall (Pool Broker : Type) (pool : BrokerPool Pool Broker)
         (this : Cluster Pool) (topic : string) (ids ids' : list Z),
    Permutation ids ids' ->
    match findLeaderForPartitions this topic ids,
          findLeaderForPartitions this topic ids' with
    | Returned result, Returned result' =>
        forall nodeId,
          match JSObject.get result nodeId, JSObject.get result' nodeId with
          | Some l, Some l' => Permutation l l'
          | None, None => True
          | _, _ => False
          end
    | Thrown e, Thrown e' => e = e'
    | _, _ => False
    end.
Proof.
  intros Pool Broker pool this topic ids ids' Hperm.
  unfold findLeaderForPartitions.
  destruct (findTopicPartitionMetadata this topic) as [pm|e]; simpl;
    [|reflexivity].
  destruct (reduce (leaderReducer pm) ids JSObject.empty_object)
    as [result|e] eqn:R;
    destruct (reduce (leaderReducer pm) ids' JSObject.empty_object)
      as [result'|e'] eqn:R'.
  - intros nodeId.
    rewrite (@reduce_leaders_get _ _ _ _ R nodeId),
            (@reduce_leaders_get _ _ _ _ R' nodeId). simpl.
    pose proof (filter_Permutation (ledBy pm nodeId) Hperm) as Hf.
    destruct (filter (ledBy pm nodeId) ids) as [|x l] eqn:F;
      destruct (filter (ledBy pm nodeId) ids') as [|x' l'] eqn:F'.
    + exact I.
    + now apply Permutation_nil_cons in Hf.
    + apply Permutation_sym in Hf. now apply Permutation_nil_cons in Hf.
    + exact Hf.
  - apply reduce_leaders_Thrown in R' as [_ Hless].
    apply (leaderless_Permutation (Permutation_sym Hperm)) in Hless.
    rewrite (@reduce_leaders_leaderless pm ids JSObject.empty_object Hless) in R.
    discriminate.
  - apply reduce_leaders_Thrown in R as [_ Hless].
    apply (leaderless_Permutation Hperm) in Hless.
    rewrite (@reduce_leaders_leaderless pm ids' JSObject.empty_object Hless) in R'.
    discriminate.
  - apply reduce_leaders_Thrown in R as [-> _].
    apply reduce_leaders_Thrown in R' as [-> _]. reflexivity.
Qed.

Lemma findLeaderForPartitions_permutation_witness :
  match
    JSObject.get [(1, [0; 2]); (2, [1])] 1,
    JSObject.get [(1, [2; 0]); (2, [1])] 1
  with
  | Some l, Some l' => Permutation l l'
  | None, None => True
  | _, _ => False
  end.
Proof.
  assert (Hperm : Permutation [0; 1; 2] [1; 2; 0]).
  { apply Permutation_trans with [1; 0; 2]; [apply perm_swap|].
    apply perm_skip. apply perm_swap. }
  exact (@findLeaderForPartitions_permutation _ _ (Scenario.steady None 0)
           (cluster (Scenario.world [] (Some Scenario.S1))) "t"
           [0; 1; 2] [1; 2; 0] Hperm 1).
Defined.

(** *** Merging the responses *)

Section Sizes.
Context {K A : Type} `{Eqb K} `{PropertyKey K}.
Implicit Types (o : JSObject.object K (list A)).

Lemma sum_replace k v o old :
  JSObject.get o k = Some old ->
  (list_sum (map (fun kv => List.length (snd kv)) (JSObject.replace k v o))
   + List.length old
   = list_sum (map (fun kv => List.length (snd kv)) o) + List.length v)%nat.
Proof.
  induction o as [|[k' v'] o IH]; simpl; [discriminate|].
  destruct (eqb k k'); simpl.
  - intros [= ->]. lia.
  - intros G. specialize (IH G). lia.
Qed.

Lemma sum_insert_index n k v o :
  list_sum (map (fun kv => List.length (snd kv)) (JSObject.insert_index n k v o))
  = (list_sum (map (fun kv => List.length (snd kv)) o) + List.length v)%nat.
Proof.
  induction o as [|[k' v'] o IH]; simpl; [lia|].
  destruct (JSObject.index_before n k'); simpl; lia.
Qed.

Lemma sum_set k v o :
  (list_sum (map (fun kv => List.length (snd kv)) (JSObject.set k v o))
   + List.length (match JSObject.get o k with Some old => old | None => [] end)
   = list_sum (map (fun kv => List.length (snd kv)) o) + List.length v)%nat.
Proof.
  unfold JSObject.set, JSObject.hasOwn.
  destruct (JSObject.get o k) as [old|] eqn:G.
  - now apply sum_replace.
  - unfold JSObject.create. destruct (array_index k).
    + rewrite sum_insert_index. simpl. lia.
    + rewrite map_app, list_sum_app. simpl. lia.
Qed.

End Sizes.

Section Order.
Context {K V : Type} `{Eqb K} `{PropertyKey K}.
Implicit Types (o : JSObject.object K V).

Lemma hasOwn_keys o k : JSObject.hasOwn o k = JSSet.has (JSObject.keys o) k.
Proof.
  unfold JSObject.hasOwn, JSSet.has.
  induction o as [|[k' v'] o IH]; simpl; [reflexivity|].
  destruct (eqb k k'); [reflexivity | assumption].
Qed.

Lemma keys_set_named k v o :
  array_index k = None ->
  JSObject.keys (JSObject.set k v o) = JSSet.add k (JSObject.keys o).
Proof.
  intros Hnamed. unfold JSObject.set, JSSet.add.
  rewrite <- hasOwn_keys. destruct (JSObject.hasOwn o k).
  - apply JSObjectFacts.keys_replace.
  - unfold JSObject.create. rewrite Hnamed.
    unfold JSObject.keys. now rewrite map_app.
Qed.

End Order.

Lemma mergeTopics_sum rs : forall init obj,
  reduce mergeTopics rs init = Returned obj ->
  list_sum (map (fun kv => List.length (snd kv)) obj)
  = (list_sum (map (fun kv => List.length (snd kv)) init) + partitionCount rs)%nat.
Proof.
  unfold partitionCount.
  induction rs as [|r rs IH]; intros init obj; simpl.
  - intros [= <-]. lia.
  - intros Hred. apply obind_Returned in Hred as (obj1 & Hstep & Hrest).
    apply mergeTopics_Returned in Hstep as [-> _].
    rewrite (IH _ _ Hrest).
    pose proof (sum_set (r_topic r)
                  (match JSObject.get init (r_topic r) with
                   | Some ps => ps
                   | None => []
                   end ++ r_partitions r) init) as Hset.
    rewrite length_app in Hset. lia.
Qed.

Lemma normalize_sum obj :
  offsetCount (normalize obj)
  = list_sum (map (fun kv => List.length (snd kv)) obj).
Proof.
  unfold offsetCount, normalize. rewrite map_map. f_equal.
  apply map_ext. intros [t ps]. simpl. apply length_map.
Qed.

Lemma mergeTopics_keys rs : forall init obj,
  reduce mergeTopics rs init = Returned obj ->
  (forall r, In r rs -> array_index (r_topic r) = None) ->
  JSObject.keys obj = JSSet.add_all (map r_topic rs) (JSObject.keys init).
Proof.
  induction rs as [|r rs IH]; intros init obj; simpl.
  - now intros [= <-].
  - intros Hred Hnamed. apply obind_Returned in Hred as (obj1 & Hstep & Hrest).
    apply mergeTopics_Returned in Hstep as [-> _].
    rewrite (IH _ _ Hrest) by (intros r' Hr'; apply Hnamed; now right).
    rewrite keys_set_named by (apply Hnamed; now left).
    reflexivity.
Qed.

(** X17. Merging the responses neither loses nor invents a partition: when
    no topic of the responses is a name that an object literal inherits,
    the merge returns, and its result has as many partition entries as the
    responses of the brokers carry. *)
Theorem mergeResponses_keeps_every_partition :
  forall responses : list (list TopicOffsetsResponse),
    (forall r, In r (flatten responses) -> inherited (r_topic r) = false) ->
    exists out,
      mergeResponses responses = Returned out
      /\ offsetCount out = partitionCount (flatten responses).
Proof.
  intros responses Hnamed.
  destruct (@mergeTopics_total (flatten responses) JSObject.empty_object)
    as [obj Hobj]; [intros k [] | assumption |].
  exists (normalize obj). unfold mergeResponses. rewrite Hobj. simpl.
  split; [reflexivity|].
  rewrite normalize_sum, (mergeTopics_sum _ _ Hobj). reflexivity.
Qed.

Lemma mergeResponses_keeps_every_partition_witness :
  exists out,
    mergeResponses
      [ [ {| r_topic := "b";
             r_partitions := [ {| r_partition := 0; r_offset := Some "4";
                                  errorCode := 0 |} ] |} ];
        [ {| r_topic := "b";
             r_partitions := [ {| r_partition := 1; r_offset := None;
                                  errorCode := 3 |} ] |} ] ]
    = Returned out
    /\ offsetCount out = 2%nat.
Proof.
  apply (mergeResponses_keeps_every_partition
           [ [ {| r_topic := "b";
                  r_partitions := [ {| r_partition := 0; r_offset := Some "4";
                                       errorCode := 0 |} ] |} ];
             [ {| r_topic := "b";
                  r_partitions := [ {| r_partition := 1; r_offset := None;
                                       errorCode := 3 |} ] |} ] ]).
  simpl. intros r [<- | [<- | []]]; reflexivity.
Defined.

(** X18. When no topic of the responses is named like an array index or
    like a property that an object literal inherits, the merge returns and
    its result lists the topics in the order in which the responses first
    mention them. *)
Theorem mergeResponses_topic_order :
  forall responses : list (list TopicOffsetsResponse),
    (forall r,
        In r (flatten responses) ->
        inherited (r_topic r) = false /\ array_index (r_topic r) = None) ->
    exists out,
      mergeResponses responses = Returned out
      /\ map o_topic out
         = JSSet.add_all (map r_topic (flatten responses)) JSSet.empty.
Proof.
  intros responses Hnamed.
  destruct (@mergeTopics_total (flatten responses) JSObject.empty_object)
    as [obj Hobj]; [intros k [] | intros r Hr; now apply Hnamed |].
  exists (normalize obj). unfold mergeResponses. rewrite Hobj. simpl.
  split; [reflexivity|].
  rewrite normalize_topics.
  apply (mergeTopics_keys _ _ Hobj). intros r Hr. now apply Hnamed.
Qed.

Lemma mergeResponses_topic_order_witness :
  exists out,
    mergeResponses
      [ [ {| r_topic := "b"; r_partitions := [] |};
          {| r_topic := "a"; r_partitions := [] |} ];
        [ {| r_topic := "b"; r_partitions := [] |};
          {| r_topic := "c"; r_partitions := [] |} ] ]
    = Returned out
    /\ map o_topic out = ["b"; "a"; "c"].
Proof.
  apply (mergeResponses_topic_order
           [ [ {| r_topic := "b"; r_partitions := [] |};
               {| r_topic := "a"; r_partitions := [] |} ];
             [ {| r_topic := "b"; r_partitions := [] |};
               {| r_topic := "c"; r_partitions := [] |} ] ]).
  simpl. intros r [<- | [<- | [<- | [<- | []]]]]; split; reflexivity.
Defined.

(** *** The requests of [fetchTopicsOffset], leader by leader *)

Section PerLeader.
Context {Pool Broker : Type} `{BrokerPool Pool Broker}.
Variable this : Cluster Pool.
Implicit Types (w : World Pool Broker).

Lemma indexLeader_invariant
  (Q : Z -> string -> list PartitionDescriptor -> Prop) td ppb entry :
  Q (fst entry) (topic td)
    (filter (fun p => JSSet.has (snd entry) (partition p)) (partitions td)) ->
  (forall n o t ps, In (n, o) ppb -> In (t, ps) o -> Q n t ps) ->
  forall n o t ps,
    In (n, o) (indexLeader td ppb entry) -> In (t, ps) o -> Q n t ps.
Proof.
  destruct entry as [nodeId ids]. unfold indexLeader. simpl.
  intros Hnew Hold n o t ps Hin Hin'.
  apply JSObjectFacts.In_set in Hin as [[-> ->] | Hin].
  - apply In_assign in Hin' as [(-> & -> & _) | Hin']; [exact Hnew|].
    match type of Hin' with
    | context [match ?g with _ => _ end] => destruct g as [o0|] eqn:G
    end; [|exact (match (Hin' : False) with end)].
    apply JSObjectFacts.get_Some_In in G. now apply (Hold nodeId o0).
  - now apply (Hold n o).
Qed.

Lemma fold_indexLeader_invariant
  (Q : Z -> string -> list PartitionDescriptor -> Prop) td ppl : forall ppb,
  (forall entry, In entry ppl ->
     Q (fst entry) (topic td)
       (filter (fun p => JSSet.has (snd entry) (partition p)) (partitions td))) ->
  (forall n o t ps, In (n, o) ppb -> In (t, ps) o -> Q n t ps) ->
  forall n o t ps,
    In (n, o) (fold_left (indexLeader td) ppl ppb) -> In (t, ps) o -> Q n t ps.
Proof.
  induction ppl as [|entry ppl IH]; intros ppb Hnew Hold; [exact Hold|].
  simpl. apply IH.
  - intros e He. apply Hnew. now right.
  - apply indexLeader_invariant; [|exact Hold]. apply Hnew. now left.
Qed.

Lemma findLeaderForPartitions_Returned topic ids ppl :
  findLeaderForPartitions this topic ids = Returned ppl ->
  exists pm, findTopicPartitionMetadata this topic = Returned pm.
Proof.
  unfold findLeaderForPartitions.
  destruct (findTopicPartitionMetadata this topic) as [pm|e]; [eauto|discriminate].
Qed.

Lemma findLeaderForPartitions_led topic ids pm ppl n l :
  findTopicPartitionMetadata this topic = Returned pm ->
  findLeaderForPartitions this topic ids = Returned ppl ->
  In (n, l) ppl ->
  l <> [] /\ forall id, In id l -> In id ids /\ leaderOf pm id = Some n.
Proof.
  intros Hpm Hppl Hin.
  pose proof (findLeaderForPartitions_NoDup _ _ _ Hppl) as Hnodup.
  rewrite (findLeaderForPartitions_loaded _ _ ids Hpm) in Hppl.
  apply JSObjectFacts.In_get in Hin; [|assumption].
  rewrite (@reduce_leaders_get _ _ _ _ Hppl n) in Hin. simpl in Hin.
  assert (Hl : l = filter (ledBy pm n) ids /\ l <> []).
  { destruct (filter (ledBy pm n) ids); [discriminate|].
    injection Hin as <-. split; [reflexivity | discriminate]. }
  destruct Hl as [-> Hne]. split; [assumption|].
  intros id Hid. apply filter_In in Hid as [Hid Hled]. split; [assumption|].
  unfold ledBy in Hled. destruct (leaderOf pm id) as [leader|]; [|discriminate].
  apply Z.eqb_eq in Hled. now subst.
Qed.

Lemma indexTopics_led
  (Q : Z -> string -> list PartitionDescriptor -> Prop) topics :
  forall ppb tc ppb' tc',
    reduce (indexTopic this) topics (ppb, tc) = Returned (ppb', tc') ->
    (forall td pm n ps,
        In td topics ->
        findTopicPartitionMetadata this (topic td) = Returned pm ->
        (forall p, In p ps ->
           In p (partitions td) /\ leaderOf pm (partition p) = Some n) ->
        Q n (topic td) ps) ->
    (forall n o t ps, In (n, o) ppb -> In (t, ps) o -> Q n t ps) ->
    forall n o t ps, In (n, o) ppb' -> In (t, ps) o -> Q n t ps.
Proof.
  induction topics as [|td topics IH]; intros ppb tc ppb' tc' Hred HQ Hold.
  - simpl in Hred. injection Hred as <- <-. exact Hold.
  - simpl in Hred. apply obind_Returned in Hred as ([ppb1 tc1] & Hone & Hrest).
    apply indexTopic_Returned in Hone as (ppl & Hppl & -> & ->).
    destruct (@findLeaderForPartitions_Returned _ _ _ Hppl) as [pm Hpm].
    apply (IH _ _ _ _ Hrest).
    + intros td' pm' n ps Hin. apply HQ. now right.
    + apply fold_indexLeader_invariant; [|exact Hold].
      intros [n l] Hentry. simpl. apply (HQ td pm); [now left | assumption |].
      intros p Hp. apply filter_In in Hp as [Hp Hhas]. split; [assumption|].
      apply JSSetFacts.has_In in Hhas.
      now apply (proj2 (@findLeaderForPartitions_led _ _ _ _ _ _ Hpm Hppl Hentry)).
Qed.

Lemma indexLeader_NoDup td ppb entry :
  NoDup (JSObject.keys ppb) -> NoDup (JSObject.keys (indexLeader td ppb entry)).
Proof.
  destruct entry as [nodeId ids]. unfold indexLeader.
  apply JSObjectFacts.NoDup_keys_set.
Qed.

Lemma fold_indexLeader_NoDup td ppl : forall ppb,
  NoDup (JSObject.keys ppb) ->
  NoDup (JSObject.keys (fold_left (indexLeader td) ppl ppb)).
Proof.
  induction ppl as [|entry ppl IH]; intros ppb Hnodup; [assumption|].
  simpl. apply IH. now apply indexLeader_NoDup.
Qed.

Lemma indexTopics_NoDup topics : forall ppb tc ppb' tc',
  reduce (indexTopic this) topics (ppb, tc) = Returned (ppb', tc') ->
  NoDup (JSObject.keys ppb) -> NoDup (JSObject.keys ppb').
Proof.
  induction topics as [|td topics IH]; intros ppb tc ppb' tc' Hred Hnodup.
  - simpl in Hred. now injection Hred as <- <-.
  - simpl in Hred. apply obind_Returned in Hred as ([ppb1 tc1] & Hone & Hrest).
    apply indexTopic_Returned in Hone as (ppl & Hppl & -> & ->).
    apply (IH _ _ _ _ Hrest). now apply fold_indexLeader_NoDup.
Qed.

Lemma indexTopics_keys_led topics : forall ppb tc ppb' tc',
  reduce (indexTopic this) topics (ppb, tc) = Returned (ppb', tc') ->
  forall n,
    In n (JSObject.keys ppb') ->
    In n (JSObject.keys ppb)
    \/ exists td p pm,
         In td topics /\ In p (partitions td)
         /\ findTopicPartitionMetadata this (topic td) = Returned pm
         /\ leaderOf pm (partition p) = Some n.
Proof.
  induction topics as [|td topics IH]; intros ppb tc ppb' tc' Hred n Hn.
  - simpl in Hred. injection Hred as <- <-. now left.
  - simpl in Hred. apply obind_Returned in Hred as ([ppb1 tc1] & Hone & Hrest).
    apply indexTopic_Returned in Hone as (ppl & Hppl & -> & ->).
    destruct (IH _ _ _ _ Hrest n Hn) as [Hfold | (td' & p & pm & Hin & Hrest')].
    + apply fold_indexLeader_keys in Hfold as [Hkey | Hkey]; [|now left].
      right. destruct (@findLeaderForPartitions_Returned _ _ _ Hppl) as [pm Hpm].
      apply in_map_iff in Hkey as ([n' l] & Heq & Hentry). simpl in Heq. subst n'.
      destruct (@findLeaderForPartitions_led _ _ _ _ _ _ Hpm Hppl Hentry) as [Hne Hled].
      destruct l as [|id l]; [congruence|].
      destruct (Hled id (or_introl eq_refl)) as [Hid Hleader].
      apply in_map_iff in Hid as (p & <- & Hp).
      exists td, p, pm. split; [now left | now split].
    + right. exists td', p, pm. split; [now right | assumption].
Qed.

End PerLeader.

Section Requests.
Context {Pool Broker : Type} `{BrokerPool Pool Broker}.
Implicit Types (w : World Pool Broker).

Lemma fetchResponses_loaded topics w ppb tc :
  indexTopics (cluster w) topics = Returned (ppb, tc) ->
  fetchResponses topics w
  = Promise_all
      (map (fun '(nodeId, partitions) =>
              request (isolationLevel (cluster w)) tc nodeId partitions) ppb) w.
Proof.
  intros Hindex. unfold fetchResponses, bind, lift. now rewrite Hindex.
Qed.

Lemma requests_run iso tc
  (ppb : JSObject.object Z (JSObject.object string (list PartitionDescriptor))) :
  forall w rs,
    fst (Promise_all
           (map (fun '(nodeId, partitions) => request iso tc nodeId partitions)
                ppb) w) = Returned rs ->
    exists cs,
      calls (snd (Promise_all
                    (map (fun '(nodeId, partitions) =>
                            request iso tc nodeId partitions) ppb) w))
      = calls w ++ cs
      /\ lookedUp cs = JSObject.keys ppb
      /\ List.length (requested cs) = List.length ppb
      /\ refreshes cs = 0%nat
      /\ List.length cs = (2 * List.length ppb)%nat
      /\ List.length rs = List.length ppb.
Proof.
  induction ppb as [|[n parts] ppb IH]; intros w rs Hrs.
  - simpl in *. injection Hrs as <-. exists []. rewrite app_nil_r.
    repeat split; reflexivity.
  - simpl in Hrs |- *.
    destruct (request_calls iso tc n parts w) as (cs0 & Hcalls & Hone).
    destruct (request iso tc n parts w) as [r w1].
    simpl in Hcalls, Hone.
    specialize (IH w1).
    destruct (Promise_all _ w1) as [rs' w2]. simpl in IH, Hrs |- *.
    destruct r as [a|e]; [|discriminate].
    destruct rs' as [l|e]; [|discriminate].
    injection Hrs as <-.
    destruct (Hone a eq_refl) as (broker & ts & _ & _ & ->).
    destruct (IH l eq_refl) as (cs & Hcs & Hlooked & Hreq & Hrefresh & Hlen & Hl).
    exists (FindBroker n
              :: ListOffsets broker {| lo_isolationLevel := iso; lo_topics := ts |}
              :: cs).
    split; [|split; [|split; [|split; [|split]]]].
    + rewrite Hcs, Hcalls, <- app_assoc. reflexivity.
    + simpl. now rewrite Hlooked.
    + simpl. now rewrite Hreq.
    + exact Hrefresh.
    + simpl. rewrite Hlen. lia.
    + simpl. now rewrite Hl.
Qed.

End Requests.

(** X19. Every [listOffsets] request of [fetchTopicsOffset] is for one
    leader: there is a node id that the snapshot names as the leader of
    each partition of the request, so a partition that the snapshot does
    not know is in no request. *)
Theorem fetchTopicsOffset_requests_are_per_leader :
  forall (Pool Broker : Type) (pool : BrokerPool Pool Broker)
         (topics : list TopicData) (w : World Pool Broker)
         (broker : Broker) (args : ListOffsetsArgs),
    In (ListOffsets broker args) (issued (fetchTopicsOffset topics) w) ->
    exists nodeId,
      forall lt d,
        In lt (lo_topics args) -> In d (lt_partitions lt) ->
        exists td pm,
          In td topics /\ topic td = lt_topic lt
          /\ In {| partition := lp_partition d |} (partitions td)
          /\ findTopicPartitionMetadata (cluster w) (lt_topic lt) = Returned pm
          /\ leaderOf pm (lp_partition d) = Some nodeId.
Proof.
  intros Pool Broker pool topics w broker args Hcall.
  rewrite fetchTopicsOffset_issued in Hcall.
  pose proof (fetchResponses_calls topics w) as Hcalls.
  destruct (indexTopics (cluster w) topics) as [[ppb tc]|e] eqn:Hindex.
  - destruct Hcalls as (cs & Hcs & Hall).
    unfold issued in Hcall. rewrite Hcs, skipn_length_app in Hcall.
    rewrite Forall_forall in Hall. specialize (Hall _ Hcall).
    destruct Hall as (_ & nodeId & parts & Hentry & Hreq). simpl in Hentry, Hreq.
    exists nodeId. intros lt d Hlt Hd.
    destruct (requestTopics_Returned _ _ Hreq lt d Hlt Hd)
      as (ps & p & fb & Hps & Hp & Hpartition & _).
    assert (Hled :
              forall p',
                In p' ps ->
                exists td pm,
                  In td topics /\ topic td = lt_topic lt
                  /\ In p' (partitions td)
                  /\ findTopicPartitionMetadata (cluster w) (lt_topic lt)
                     = Returned pm
                  /\ leaderOf pm (partition p') = Some nodeId).
    { unfold indexTopics in Hindex.
      apply (@indexTopics_led _ _ _ (cluster w)
               (fun n t ps' =>
                  forall p',
                    In p' ps' ->
                    exists td pm,
                      In td topics /\ topic td = t /\ In p' (partitions td)
                      /\ findTopicPartitionMetadata (cluster w) t = Returned pm
                      /\ leaderOf pm (partition p') = Some n)
               topics _ _ _ _ Hindex) with (o := parts).
      - intros td pm n ps' Hin Hpm Hall p' Hp'.
        destruct (Hall p' Hp') as [Hmember Hleader].
        exists td, pm. repeat split; assumption.
      - intros n o t ps' [].
      - assumption.
      - assumption. }
    destruct (Hled p Hp) as (td & pm & Hin & Htopic & Hmember & Hpm & Hleader).
    exists td, pm. rewrite Hpartition. destruct p as [id]. simpl in *.
    repeat split; assumption.
  - unfold issued in Hcall. rewrite Hcalls, skipn_all in Hcall.
    destruct Hcall.
Qed.

Lemma fetchTopicsOffset_requests_are_per_leader_witness :
  exists nodeId,
    forall lt d,
      In lt [ {| lt_topic := "t";
                 lt_partitions := [ {| lp_partition := 0; timestamp := -2 |};
                                    {| lp_partition := 2; timestamp := -2 |} ] |} ] ->
      In d (lt_partitions lt) ->
      exists td pm,
        In td [ {| topic := "t";
                   partitions := [ {| partition := 0 |}; {| partition := 1 |};
                                   {| partition := 2 |}; {| partition := 9 |} ];
                   fromBeginning := true |} ]
        /\ topic td = lt_topic lt
        /\ In {| partition := lp_partition d |} (partitions td)
        /\ findTopicPartitionMetadata (H := Scenario.steady None 0)
             (cluster (Scenario.world [] (Some Scenario.S1))) (lt_topic lt)
           = Returned pm
        /\ leaderOf pm (lp_partition d) = Some nodeId.
Proof.
  apply (@fetchTopicsOffset_requests_are_per_leader _ _ (Scenario.steady None 0)
           [ {| topic := "t";
                partitions := [ {| partition := 0 |}; {| partition := 1 |};
                                {| partition := 2 |}; {| partition := 9 |} ];
                fromBeginning := true |} ]
           (Scenario.world [] (Some Scenario.S1)) 1
           {| lo_isolationLevel := 1;
              lo_topics :=
                [ {| lt_topic := "t";
                     lt_partitions :=
                       [ {| lp_partition := 0; timestamp := -2 |};
                         {| lp_partition := 2; timestamp := -2 |} ] |} ] |}).
  vm_compute. right. left. reflexivity.
Defined.

(** X20. A [fetchTopicsOffset] that returns has looked up each leader of a
    requested partition once and no other node, has sent one [listOffsets]
    request per leader, and has made no other call: no metadata refresh. *)
Theorem fetchTopicsOffset_one_request_per_leader :
  forall (Pool Broker : Type) (pool : BrokerPool Pool Broker)
         (topics : list TopicData) (w : World Pool Broker)
         (out : list TopicOffsets),
    fst (fetchTopicsOffset topics w) = Returned out ->
    let cs := issued (fetchTopicsOffset topics) w in
    NoDup (lookedUp cs)
    /\ (forall n,
          In n (lookedUp cs)
          <-> exists td p pm,
                In td topics /\ In p (partitions td)
                /\ findTopicPartitionMetadata (cluster w) (topic td)
                   = Returned pm
                /\ leaderOf pm (partition p) = Some n)
    /\ List.length (requested cs) = List.length (lookedUp cs)
    /\ refreshes cs = 0%nat
    /\ List.length cs = (2 * List.length (lookedUp cs))%nat.
Proof.
  intros Pool Broker pool topics w out Hout cs. subst cs.
  rewrite fetchTopicsOffset_issued.
  rewrite fetchTopicsOffset_run in Hout. simpl in Hout.
  destruct (fst (fetchResponses topics w)) as [responses|e] eqn:Hresponses;
    [clear Hout | discriminate].
  destruct (indexTopics (cluster w) topics) as [[ppb tc]|e] eqn:Hindex.
  - rewrite (fetchResponses_loaded _ _ Hindex) in Hresponses.
    destruct (requests_run _ _ _ _ Hresponses)
      as (cs & Hcs & Hlooked & Hreq & Hrefresh & Hlen & _).
    unfold issued. rewrite (fetchResponses_loaded _ _ Hindex), Hcs.
    rewrite skipn_length_app, Hlooked.
    unfold JSObject.keys at 3 4. rewrite length_map.
    split; [|split; [|split; [|split]]]; try assumption.
    + apply (indexTopics_NoDup _ _ _ _ Hindex). constructor.
    + intros n. split.
      * intros Hn.
        destruct (indexTopics_keys_led _ _ _ _ Hindex n Hn) as [[] | Hled].
        exact Hled.
      * intros (td & p & pm & Hin & Hp & Hpm & Hleader).
        destruct (proj2 (indexTopics_keys _ _ _ _ Hindex) td Hin)
          as (ppl & Hppl & Hsub).
        apply Hsub.
        eapply findLeaderForPartitions_key;
          [exact Hpm | exact Hppl | | exact Hleader].
        apply in_map. assumption.
  - unfold fetchResponses, bind, lift in Hresponses.
    rewrite Hindex in Hresponses. discriminate.
Qed.

Lemma fetchTopicsOffset_one_request_per_leader_witness :
  lookedUp
    (issued (fetchTopicsOffset (H := Scenario.steady None 0)
               [ {| topic := "t";
                    partitions := [ {| partition := 1 |}; {| partition := 0 |};
                                    {| partition := 2 |} ];
                    fromBeginning := false |} ])
            (Scenario.world [] (Some Scenario.S1)))
  = [1; 2]
  /\ refreshes
       (issued (fetchTopicsOffset (H := Scenario.steady None 0)
                  [ {| topic := "t";
                       partitions := [ {| partition := 1 |}; {| partition := 0 |};
                                       {| partition := 2 |} ];
                       fromBeginning := false |} ])
               (Scenario.world [] (Some Scenario.S1)))
     = 0%nat.
Proof.
  split; [reflexivity|].
  assert (Hout :
            fst (fetchTopicsOffset (H := Scenario.steady None 0)
                   [ {| topic := "t";
                        partitions := [ {| partition := 1 |}; {| partition := 0 |};
                                        {| partition := 2 |} ];
                        fromBeginning := false |} ]
                   (Scenario.world [] (Some Scenario.S1)))
            = Returned
                [ {| o_topic := "t";
                     o_partitions :=
                       [ {| o_partition := 0; o_offset := None |};
                         {| o_partition := 2; o_offset := None |};
                         {| o_partition := 1; o_offset := None |} ] |} ])
    by reflexivity.
  exact (proj1 (proj2 (proj2 (proj2
           (@fetchTopicsOffset_one_request_per_leader _ _ _ _ _ _ Hout))))).
Defined.


(* ------------------------------------------------------------------ *)
(** ** Topics that [Object.prototype] names *)

(** X28. [fetchTopicsOffset] fails with a [TypeError] when its requests
    have returned and one of the responses names a topic that is the name of
    a property of [Object.prototype]: [mergeTopics] spreads the inherited
    value. So it does for the topic [constructor] over a snapshot that lists
    it, with brokers that answer every partition asked for, after the
    request has been sent. *)
Theorem fetchTopicsOffset_inherited_topic_TypeError :
  forall {Pool Broker : Type} (H : BrokerPool Pool Broker)
         (topics : list TopicData) (w : World Pool Broker)
         (responses : list (list TopicOffsetsResponse))
         (r : TopicOffsetsResponse),
    fst (fetchResponses topics w) = Returned responses ->
    In r (flatten responses) ->
    inherited (r_topic r) = true ->
    fails_with "TypeError" (fst (fetchTopicsOffset topics w))
    /\ issued (fetchTopicsOffset topics) w = issued (fetchResponses topics) w.
Proof.
  intros Pool Broker H topics w responses r Hres Hin Hinh.
  split.
  - rewrite ClusterFacts.fetchTopicsOffset_run. cbn [fst]. rewrite Hres.
    destruct (ClusterFacts.mergeResponses_outcome responses)
      as [[Hnone _] | [_ Hfails]]; [|exact Hfails].
    rewrite (Hnone r Hin) in Hinh. discriminate.
  - unfold issued. now rewrite ClusterFacts.fetchTopicsOffset_run.
Qed.

Lemma fetchTopicsOffset_inherited_topic_TypeError_witness :
  fails_with "TypeError"
    (fst (fetchTopicsOffset (H := Scenario.steady (Some "7") 0)
            [ {| topic := "constructor";
                 partitions := [ {| partition := 0 |} ];
                 fromBeginning := false |} ]
            (Scenario.world [] (Some (Scenario.S1_for "constructor")))))
  /\ In (ListOffsets 1
           {| lo_isolationLevel := 1;
              lo_topics :=
                [ {| lt_topic := "constructor";
                     lt_partitions :=
                       [ {| lp_partition := 0; timestamp := -1 |} ] |} ] |})
        (issued (fetchTopicsOffset (H := Scenario.steady (Some "7") 0)
                   [ {| topic := "constructor";
                        partitions := [ {| partition := 0 |} ];
                        fromBeginning := false |} ])
           (Scenario.world [] (Some (Scenario.S1_for "constructor")))).
Proof.
  destruct (@fetchTopicsOffset_inherited_topic_TypeError _ _
              (Scenario.steady (Some "7") 0)
              [ {| topic := "constructor";
                   partitions := [ {| partition := 0 |} ];
                   fromBeginning := false |} ]
              (Scenario.world [] (Some (Scenario.S1_for "constructor")))
              [ [ {| r_topic := "constructor";
                     r_partitions :=
                       [ {| r_partition := 0; r_offset := Some "7";
                            errorCode := 0 |} ] |} ] ]
              {| r_topic := "constructor";
                 r_partitions :=
                   [ {| r_partition := 0; r_offset := Some "7";
                        errorCode := 0 |} ] |}
              eq_refl (or_introl eq_refl) eq_refl) as [Hfails Hissued].
  split; [exact Hfails|].
  rewrite Hissued. vm_compute. auto.
Defined.
End ClusterExtras.

(* ------------------------------------------------------------------ *)
(** ** The committed offsets *)

Module CommittedOffsetsFacts.
Import CommittedOffsets.

Section Maps.
Context {K V : Type} `{Eqb K}.
Implicit Types (m : JSMap.map_of K V).

Lemma lookup_store k v m k' :
  JSMap.lookup (JSMap.store k v m) k'
  = if eqb k' k then Some v else JSMap.lookup m k'.
Proof.
  induction m as [|[k0 v0] m IH]; simpl.
  - reflexivity.
  - destruct (eqb k k0) eqn:E; simpl.
    + apply eqb_eq in E. subst k0. destruct (eqb k' k); reflexivity.
    + destruct (eqb k' k0) eqn:E'; [|exact IH].
      apply eqb_eq in E'. subst k0.
      destruct (eqb k' k) eqn:E''; [|reflexivity].
      apply eqb_eq in E''. subst k'.
      rewrite eqb_refl in E. discriminate.
Qed.

Lemma store_absent k v m :
  JSMap.lookup m k = None -> JSMap.store k v m = m ++ [(k, v)].
Proof.
  induction m as [|[k0 v0] m IH]; simpl; [reflexivity|].
  destruct (eqb k k0); [discriminate|]. intros G. now rewrite IH.
Qed.

Lemma store_present k v m :
  JSMap.lookup m k = Some v -> JSMap.store k v m = m.
Proof.
  induction m as [|[k0 v0] m IH]; simpl; [discriminate|].
  destruct (eqb k k0); [now intros [= ->] | intros G; now rewrite IH].
Qed.

End Maps.

Lemma committedOffsets_object groupId this :
  fst (committedOffsets groupId this)
  = match JSMap.lookup this groupId with
    | Some committed => committed
    | None => JSObject.empty_object
    end.
Proof.
  unfold committedOffsets, JSMap.contains, Committed in *.
  match goal with
  | |- context [negb match ?g with _ => _ end] => destruct g as [c|] eqn:G
  end; cbn [negb fst].
  - now rewrite G.
  - now rewrite lookup_store, eqb_refl.
Qed.

Lemma committedOffsets_map groupId this g :
  JSMap.lookup (snd (committedOffsets groupId this)) g
  = if eqb g groupId
    then Some (fst (committedOffsets groupId this))
    else JSMap.lookup this g.
Proof.
  rewrite committedOffsets_object. unfold committedOffsets, JSMap.contains, Committed in *.
  match goal with
  | |- context [negb match ?g with _ => _ end] => destruct g as [c|] eqn:G
  end; cbn [negb snd].
  - destruct (eqb g groupId) eqn:E; [|reflexivity].
    apply eqb_eq in E. now subst g.
  - apply lookup_store.
Qed.

(** X21. [committedOffsets] creates the object of a group on first use and
    never again: an unknown group is appended to the map with an empty
    object, a known group leaves the map as it is, the other groups are
    untouched, and the object returned is the one that the map holds. *)
Theorem committedOffsets_initialises_once :
  forall (groupId : string) (this : Groups),
    let committed := fst (committedOffsets groupId this) in
    let this' := snd (committedOffsets groupId this) in
    JSMap.lookup this' groupId = Some committed
    /\ (JSMap.lookup this groupId = None ->
        committed = JSObject.empty_object
        /\ this' = this ++ [(groupId, JSObject.empty_object)])
    /\ (forall c,
          JSMap.lookup this groupId = Some c -> committed = c /\ this' = this)
    /\ (forall g, g <> groupId -> JSMap.lookup this' g = JSMap.lookup this g)
    /\ committedOffsets groupId this' = (committed, this').
Proof.
  intros groupId this committed this'.
  assert (Hheld : JSMap.lookup this' groupId = Some committed).
  { subst this' committed. rewrite committedOffsets_map.
    now rewrite eqb_refl. }
  split; [assumption|]. split; [|split; [|split]].
  - intros Hnone. subst committed this'. unfold committedOffsets, JSMap.contains, Committed in *.
    rewrite Hnone. cbn [negb fst snd]. rewrite lookup_store, eqb_refl.
    split; [reflexivity|]. now apply store_absent.
  - intros c Hsome. subst committed this'. unfold committedOffsets, JSMap.contains, Committed in *.
    rewrite Hsome. cbn [negb fst snd]. rewrite Hsome. now split.
  - intros g Hg. subst this'. rewrite committedOffsets_map.
    apply eqb_neq in Hg. now rewrite Hg.
  - unfold committedOffsets at 1, JSMap.contains. unfold Committed in *.
    rewrite Hheld. reflexivity.
Qed.

Lemma committedOffsets_initialises_once_witness :
  snd (committedOffsets "g" [("h", [("t", [(0, "5")])])])
  = [("h", [("t", [(0, "5")])]); ("g", [])]
  /\ snd (committedOffsets "h" [("h", [("t", [(0, "5")])])])
     = [("h", [("t", [(0, "5")])])].
Proof.
  split.
  - apply (proj1 (proj2 (committedOffsets_initialises_once "g"
                           [("h", [("t", [(0, "5")])])]))).
    reflexivity.
  - apply (proj1 (proj2 (proj2 (committedOffsets_initialises_once "h"
                                  [("h", [("t", [(0, "5")])])])))
             [("t", [(0, "5")])]).
    reflexivity.
Defined.

(** X22. For a topic that is not the name of a property of
    [Object.prototype], [markOffsetAsCommitted] records the offset where a
    reader of the committed offsets finds it, and changes the committed
    offset of no other group, topic or partition. *)
Theorem markOffsetAsCommitted_read_back :
  forall (groupId topic : string) (partition : Z) (offset : string)
         (this : Groups),
    inherited topic = false ->
    let this' := markOffsetAsCommitted groupId topic partition offset this in
    committedOffset groupId topic partition this' = Some offset
    /\ forall g t p,
         (g, t, p) <> (groupId, topic, partition) ->
         committedOffset g t p this' = committedOffset g t p this.
Proof.
  intros groupId topic partition offset this _ this'.
  assert (Hobject :
            forall g,
              fst (committedOffsets g this')
              = if eqb g groupId
                then JSObject.set topic
                       (JSObject.set partition offset
                          (match JSObject.get (fst (committedOffsets groupId this))
                                   topic with
                           | Some o => o
                           | None => JSObject.empty_object
                           end))
                       (JSObject.set topic
                          (match JSObject.get (fst (committedOffsets groupId this))
                                   topic with
                           | Some o => o
                           | None => JSObject.empty_object
                           end)
                          (fst (committedOffsets groupId this)))
                else fst (committedOffsets g this)).
  { intros g. subst this'. unfold markOffsetAsCommitted.
    destruct (committedOffsets groupId this) as [c this1] eqn:E. cbn [fst snd].
    rewrite committedOffsets_object, lookup_store.
    destruct (eqb g groupId) eqn:Eg; [reflexivity|].
    assert (Hmap := committedOffsets_map groupId this g).
    rewrite E in Hmap. cbn [fst snd] in Hmap. rewrite Eg in Hmap.
    rewrite Hmap. now rewrite committedOffsets_object. }
  unfold committedOffset. split.
  - rewrite Hobject, eqb_refl.
    rewrite JSObjectFacts.get_set_same. apply JSObjectFacts.get_set_same.
  - intros g t p Hother. rewrite Hobject.
    destruct (eqb g groupId) eqn:Eg; [|reflexivity].
    apply eqb_eq in Eg. subst g.
    destruct (String.eqb t topic) eqn:Et.
    + apply String.eqb_eq in Et. subst t.
      rewrite JSObjectFacts.get_set_same.
      assert (Hp : p <> partition) by congruence.
      rewrite JSObjectFacts.get_set_other by assumption.
      destruct (JSObject.get (fst (committedOffsets groupId this)) topic);
        reflexivity.
    + apply String.eqb_neq in Et.
      now rewrite !JSObjectFacts.get_set_other by assumption.
Qed.

Lemma markOffsetAsCommitted_read_back_witness :
  committedOffset "g" "t" 1
    (markOffsetAsCommitted "g" "t" 0 "7"
       (markOffsetAsCommitted "g" "t" 1 "3" JSMap.empty_map))
  = Some "3".
Proof.
  assert (Hother : ("g", "t", 1) <> ("g", "t", 0)) by discriminate.
  rewrite (proj2 (@markOffsetAsCommitted_read_back "g" "t" 0 "7"
                    (markOffsetAsCommitted "g" "t" 1 "3" JSMap.empty_map)
                    eq_refl)
             "g" "t" 1 Hother).
  reflexivity.
Defined.

End CommittedOffsetsFacts.
